(** * Truss: the reconciliation engine of a Mastodon-to-Bluesky bridge

    A shallow embedding of the parts of the bridge that carry decision
    logic, and the properties of them that the specification states:

    - [splitContent] (main.go): cutting a post into parts of at most 300
      bytes, each labelled " (i/total)";
    - [CheckIfEdit], [SavePostMapping], ... (database.go): the persisted
      tables, as finite maps;
    - [LookupBridgedMastodonPost], [findPostByContentAndName]
      (bluesky/client.go): the chain of heuristics that finds the Bluesky
      copy of a Mastodon post that this process did not mirror itself;
    - [ProcessPost] (main.go), in its two revisions: the one that
      recognises edits through the edit-lineage table ([Lineage.ProcessPost])
      and the one that recognises them through a content hash
      ([Hashed.ProcessPost]).

    Conventions.  A Go [string] is a sequence of bytes, here [list ascii].
    A Go [int] is a 64-bit integer, here a [Z]; the one sum that could
    leave the range has its wrap-around written out.  An index or a
    slice bound out of range panics, a loop without a bound may not
    finish: [run A] records both.  Calls of [log.Printf] and [time.Sleep]
    are not modelled. *)

From Stdlib Require Import ZArith Ascii String List Lia Bool.
From stdpp Require Import base option list gmap strings.
Import ListNotations.

(** ** Strings and machine integers *)

(** Written as a notation, so that the instances for lists (decidable
    equality, countability of map keys) apply as they are. *)
Abbreviation str := (list ascii).

Definition lit (s : string) : str := list_ascii_of_string s.

Definition len (s : str) : Z := Z.of_nat (length s).

Definition MaxInt : Z := 2 ^ 63 - 1.

Definition wrap (z : Z) : Z := (z + 2 ^ 63) mod 2 ^ 64 - 2 ^ 63.

Definition space : ascii := " "%char.

(** ** Outcomes of a computation that may panic or fail to finish *)

Inductive run (A : Type) : Type :=
| Done (a : A)
| Panic
| Timeout.

Arguments Done {A} a.
Arguments Panic {A}.
Arguments Timeout {A}.

Definition run_bind {A B} (m : run A) (k : A -> run B) : run B :=
  match m with
  | Done a => k a
  | Panic => Panic
  | Timeout => Timeout
  end.

Declare Scope run_scope.
Delimit Scope run_scope with run.
Notation "x <- m ;;; k" := (run_bind m (fun x => k))
  (at level 100, m at next level, right associativity) : run_scope.

(** [s[i]], [s[:hi]] and [s[lo:]] with Go's range checks. *)

Definition index (s : str) (i : Z) : run ascii :=
  if (0 <=? i)%Z && (i <? len s)%Z
  then match s !! Z.to_nat i with Some c => Done c | None => Panic end
  else Panic.

Definition sliceTo (s : str) (hi : Z) : run str :=
  if (0 <=? hi)%Z && (hi <=? len s)%Z then Done (take (Z.to_nat hi) s) else Panic.

Definition sliceFrom (s : str) (lo : Z) : run str :=
  if (0 <=? lo)%Z && (lo <=? len s)%Z then Done (drop (Z.to_nat lo) s) else Panic.

(** ** [fmt.Sprintf] with the verb [%d]: the decimal notation of an integer *)

Definition digitChar (d : Z) : ascii := ascii_of_nat (48 + Z.to_nat d).

Fixpoint utoa (fuel : nat) (n : Z) (acc : str) : str :=
  match fuel with
  | O => acc
  | S fuel' =>
      let acc' := digitChar (n mod 10) :: acc in
      if (n / 10 =? 0)%Z then acc' else utoa fuel' (n / 10) acc'
  end.

Definition itoa (n : Z) : str :=
  if (n <? 0)%Z
  then "-"%char :: utoa (S (Z.to_nat (Z.log2 (- n)))) (- n) []
  else utoa (S (Z.to_nat (Z.log2 n))) n [].

(** [fmt.Sprintf(" (%d/%d)", i, total)] *)
Definition indicator (i total : Z) : str :=
  lit " (" ++ itoa i ++ lit "/" ++ itoa total ++ lit ")".

(** ** [splitContent] (main.go, lines 371-439) *)

Module Splitting.

Local Open Scope Z_scope.
Local Open Scope run_scope.

Definition maxLength : Z := 300.

(** [estimatedTotal := (len(content) + maxLength - 1) / (maxLength - 10)] *)
Definition estimatedTotal (content : str) : Z :=
  Z.quot (wrap (wrap (len content + maxLength) - 1)) (maxLength - 10).

Definition suffixSize (content : str) : Z :=
  len (indicator (estimatedTotal content) (estimatedTotal content)).

Definition effectiveMaxLength (content : str) : Z :=
  maxLength - suffixSize content.

(** [for breakPoint > 0 && remaining[breakPoint] != ' ' { breakPoint-- }];
    the recursion is on the number of positions left below [breakPoint]. *)
Fixpoint scanBack (n : nat) (remaining : str) (breakPoint : Z) : run Z :=
  if breakPoint >? 0 then
    c <- index remaining breakPoint ;;;
    if Ascii.eqb c space then Done breakPoint
    else match n with
         | O => Timeout
         | S n' => scanBack n' remaining (breakPoint - 1)
         end
  else Done breakPoint.

(** [for i := breakPoint; i < min(effectiveMaxLength, len(remaining)); i++]
    with [breakPoint = i; break] at the first space; [n] bounds the number
    of positions from [i] to the limit. *)
Fixpoint scanForward (n : nat) (remaining : str) (limit : Z) (breakPoint i : Z)
  : run Z :=
  if i <? limit then
    c <- index remaining i ;;;
    if Ascii.eqb c space then Done i
    else match n with
         | O => Timeout
         | S n' => scanForward n' remaining limit breakPoint (i + 1)
         end
  else Done breakPoint.

(** Lines 398-420: where to cut [remaining], which is longer than the
    window. *)
Definition breakPointOf (eff : Z) (remaining : str) : run Z :=
  breakPoint <- scanBack (Z.to_nat eff) remaining eff ;;;
  if breakPoint <? Z.quot eff 2 then
    let breakPoint := Z.quot eff 2 in
    breakPoint <- scanForward (Z.to_nat eff) remaining
                    (Z.min eff (len remaining)) breakPoint breakPoint ;;;
    if (breakPoint <? Z.quot eff 2) || (breakPoint =? Z.quot eff 2)
    then Done eff
    else Done breakPoint
  else Done breakPoint.

(** Lines 426-430: what is left after the cut; the space the cut fell on
    is dropped. *)
Definition advance (remaining : str) (breakPoint : Z) : run str :=
  if breakPoint <? len remaining then
    c <- index remaining breakPoint ;;;
    if Ascii.eqb c space then sliceFrom remaining (breakPoint + 1)
    else sliceFrom remaining breakPoint
  else sliceFrom remaining breakPoint.

(** The loop of lines 388-431; one unit of [fuel] per iteration. *)
Fixpoint splitLoop (fuel : nat) (eff : Z) (remaining : str) (parts : list str)
  : run (list str) :=
  match fuel with
  | O => Timeout
  | S fuel' =>
      if len remaining >? 0 then
        if len remaining <=? eff then Done (parts ++ [remaining])
        else
          breakPoint <- breakPointOf eff remaining ;;;
          part <- sliceTo remaining breakPoint ;;;
          remaining' <- advance remaining breakPoint ;;;
          splitLoop fuel' eff remaining' (parts ++ [part])
      else Done parts
  end.

(** Lines 434-436: [parts[i] = parts[i] + fmt.Sprintf(" (%d/%d)", i+1, len(parts))] *)
Definition addIndicators (parts : list str) : list str :=
  imap (fun i part => part ++ indicator (Z.of_nat i + 1) (Z.of_nat (length parts)))
       parts.

Definition splitContent (content : str) : run (list str) :=
  if len content <=? maxLength then Done [content]
  else
    parts <- splitLoop (S (length content)) (effectiveMaxLength content) content [] ;;;
    Done (addIndicators parts).

End Splitting.

(** ** The [strings] functions the bridge calls *)

(** [strings.Split(s, sep)] for a separator of one byte. *)
Fixpoint Split (s : str) (sep : ascii) : list str :=
  match s with
  | [] => [[]]
  | c :: s' =>
      if Ascii.eqb c sep then [] :: Split s' sep
      else match Split s' sep with
           | field :: fields => (c :: field) :: fields
           | [] => [[c]]
           end
  end.

(** [strings.Join(elems, sep)] *)
Fixpoint Join (elems : list str) (sep : str) : str :=
  match elems with
  | [] => []
  | [e] => e
  | e :: rest => e ++ sep ++ Join rest sep
  end.

(** [strings.HasPrefix(s, prefix)] *)
Fixpoint HasPrefix (s prefix : str) : bool :=
  match prefix, s with
  | [], _ => true
  | p :: prefix', c :: s' => Ascii.eqb c p && HasPrefix s' prefix'
  | _ :: _, [] => false
  end.

(** [strings.Contains(s, substr)] *)
Fixpoint Contains (s substr : str) : bool :=
  HasPrefix s substr ||
  match s with
  | [] => false
  | _ :: s' => Contains s' substr
  end.

Definition eqs (a b : str) : bool := bool_decide (a = b).

(** ** Data model *)

(** [mastodon.Post] (mastodon/client.go, lines 28-41); an instant of
    [time.Time] is counted in nanoseconds. *)
#[warnings="-register-all"]
Inductive Post : Type := mkPost {
  ID : str;
  Content : str;
  Reblog : option Post;
  Visibility : str;
  CreatedAt : Z;
  InReplyToID : str;
  Hashtags : list str;
  EditedAt : Z;
  OriginalID : str;
  Username : str;
  Instance : str;
  DisplayName : str
}.

Abbreviation error := (list ascii).

(** The three tables of database.go, each with a primary key. *)
Record Database : Type := mkDatabase {
  post_mappings : gmap str str;   (* mastodon_id -> bluesky_ids *)
  edits : gmap str str;           (* edit_id -> original_id *)
  state : gmap str str            (* key -> value *)
}.

(** ** database.go

    The store is taken to be reliable: a query fails only with
    [sql.ErrNoRows], a write does not fail. *)

Module Db.

(** [INSERT OR REPLACE INTO post_mappings]; the ids are joined by commas. *)
Definition SavePostMapping (d : Database) (mastodonID : str) (bskyIDs : list str)
  : Database :=
  {| post_mappings := <[mastodonID := Join bskyIDs (lit ",")]> (post_mappings d);
     edits := edits d;
     state := state d |}.

(** [None] is the error of a query without a row. *)
Definition GetBlueskyIDsForMastodonPost (d : Database) (mastodonID : str)
  : option (list str) :=
  match post_mappings d !! mastodonID with
  | Some idsStr => Some (Split idsStr ","%char)
  | None => None
  end.

Definition MarkAsEdit (d : Database) (editID origID : str) : Database :=
  {| post_mappings := post_mappings d;
     edits := <[editID := origID]> (edits d);
     state := state d |}.

(** Lines 79-99.  The result is the answer [(origID, isEdit)] and the
    database after the call. *)
Definition CheckIfEdit (d : Database) (mastodonID originalID : str)
  : (str * bool) * Database :=
  if negb (eqs originalID []) && negb (eqs originalID mastodonID) then
    ((originalID, true), MarkAsEdit d mastodonID originalID)
  else
    match edits d !! mastodonID with
    | None => (([], false), d)
    | Some origID => ((origID, true), d)
    end.

Definition SaveContentHash (d : Database) (postID contentHash : str) : Database :=
  {| post_mappings := post_mappings d;
     edits := edits d;
     state := <[lit "content_hash_" ++ postID := contentHash]> (state d) |}.

(** A missing row is not an error here: the result is then [("", nil)]. *)
Definition GetContentHash (d : Database) (postID : str) : str * option error :=
  match state d !! (lit "content_hash_" ++ postID) with
  | Some hash => (hash, None)
  | None => ([], None)
  end.

End Db.

(** ** The two services and the bridge's view of them

    What the bridge does to the outside is a sequence of events.  The
    services are deterministic given the events so far: each answer is a
    function of that history and of the request, and is otherwise
    arbitrary. *)

(** A record of a feed or of a search result, as decoded from JSON. *)
Record Hit : Type := mkHit {
  Uri : str;
  Cid : str;
  AuthorDisplayName : str;
  Text : str;
  ExternalUrl : str;
  RecordCreatedAt : str
}.

Inductive Event : Type :=
| EvCreatePost (text : str) (res : error + str * str)
| EvCreateReply (text parentCid parentUri : str) (res : error + str * str)
| EvDeletePost (recordID : str) (res : option error)
| EvGetStatus (postID : str)
| EvEnsureAuth
| EvResolveHandle (handle : str)
| EvAuthorFeed (actor limit : str)
| EvSearchPosts (q limit : str)
| EvSavePostMapping (mastodonID : str) (bskyIDs : list str)
| EvSaveContentHash (postID contentHash : str).

Record Services : Type := mkServices {
  (* com.atproto.repo.createRecord: the uri and cid of the new record *)
  createRecord : list Event -> str -> option (str * str) -> error + str * str;
  (* com.atproto.repo.deleteRecord, reached through Client.DeletePost *)
  deleteRecord : list Event -> str -> option error;
  (* mastodon.Client.GetPostWithEdits *)
  getStatus : list Event -> str -> error + Post;
  (* Client.ensureAuth *)
  ensureAuth : list Event -> option error;
  (* com.atproto.identity.resolveHandle: the did *)
  resolveHandleRPC : list Event -> str -> error + str;
  (* app.bsky.feed.getAuthorFeed *)
  getAuthorFeed : list Event -> str -> str -> error + list Hit;
  (* app.bsky.feed.searchPosts *)
  searchPosts : list Event -> str -> str -> error + list Hit
}.

(** Library functions whose definition is outside the repository.  The
    hash is the hexadecimal notation of 32 bytes: 64 digits. *)
Record GoLib : Type := mkGoLib {
  EqualFold : str -> str -> bool;          (* strings.EqualFold *)
  Fields : str -> list str;                (* strings.Fields *)
  sha256hex : str -> str;                  (* hex.EncodeToString of sha256 *)
  parseRFC3339 : str -> option Z;          (* time.Parse(time.RFC3339, _) *)
  sha256hex_length : forall s, len (sha256hex s) = 64%Z
}.

(** [config.Config], the one field the bridge logic reads. *)
Record Config : Type := mkConfig {
  FilterHashtag : str
}.

Record World : Type := mkWorld {
  db : Database;
  trace : list Event
}.

(** ** The monad of the bridge: state, and the outcomes of [run] *)

Definition M (A : Type) : Type := World -> run A * World.

Definition ret {A} (a : A) : M A := fun w => (Done a, w).

Definition bind {A B} (m : M A) (k : A -> M B) : M B :=
  fun w =>
    match m w with
    | (Done a, w') => k a w'
    | (Panic, w') => (Panic, w')
    | (Timeout, w') => (Timeout, w')
    end.

Definition lift {A} (r : run A) : M A := fun w => (r, w).

Declare Scope bridge_scope.
Delimit Scope bridge_scope with bridge.
Notation "x <- m ;; k" := (bind m (fun x => k))
  (at level 100, m at next level, right associativity) : bridge_scope.
Notation "m ;; k" := (bind m (fun _ => k))
  (at level 100, right associativity) : bridge_scope.

Definition emit (e : Event) : M unit :=
  fun w => (Done tt, {| db := db w; trace := trace w ++ [e] |}).

Definition history : M (list Event) := fun w => (Done (trace w), w).

Definition getDb : M Database := fun w => (Done (db w), w).

Definition putDb (d : Database) : M unit :=
  fun w => (Done tt, {| db := d; trace := trace w |}).

(** [for _, x := range xs { body x }] for a body without [break]. *)
Fixpoint forEach {A} (xs : list A) (body : A -> M unit) : M unit :=
  match xs with
  | [] => ret tt
  | x :: xs' => bind (body x) (fun _ => forEach xs' body)
  end.

(** ** bluesky/client.go *)

Module Bluesky.

Section Client.

Variable svc : Services.
Variable lib : GoLib.

Local Open Scope bridge_scope.

(** [CreatePost] and [CreateReply] answer with ["uri|cid"]. *)
Definition CreatePost (text : str) : M (error + str) :=
  h <- history ;;
  let res := createRecord svc h text None in
  emit (EvCreatePost text res) ;;
  ret (match res with
       | inl err => inl err
       | inr (uri, cid) => inr (uri ++ lit "|" ++ cid)
       end).

Definition CreateReply (text parentCid parentUri : str) : M (error + str) :=
  h <- history ;;
  let res := createRecord svc h text (Some (parentCid, parentUri)) in
  emit (EvCreateReply text parentCid parentUri res) ;;
  ret (match res with
       | inl err => inl err
       | inr (uri, cid) => inr (uri ++ lit "|" ++ cid)
       end).

Definition DeletePost (recordID : str) : M (option error) :=
  h <- history ;;
  let res := deleteRecord svc h recordID in
  emit (EvDeletePost recordID res) ;;
  ret res.

(** Lines 878-911. *)
Definition resolveHandle (handle : str) : M (error + str) :=
  h <- history ;;
  emit (EvResolveHandle handle) ;;
  ret (resolveHandleRPC svc h handle).

Definition mentions (mastodonPostID : str) (hit : Hit) : bool :=
  Contains (ExternalUrl hit) mastodonPostID || Contains (Text hit) mastodonPostID.

(** The loops of lines 957-962 and 1009-1014: the first record that
    mentions the id. *)
Fixpoint firstMention (hits : list Hit) (mastodonPostID : str) : option (str * str) :=
  match hits with
  | [] => None
  | hit :: hits' =>
      if mentions mastodonPostID hit then Some (Uri hit, Cid hit)
      else firstMention hits' mastodonPostID
  end.

(** Lines 914-965. *)
Definition findPostInUserFeed (did mastodonPostID : str) : M (error + str * str) :=
  h <- history ;;
  emit (EvAuthorFeed did (lit "100")) ;;
  ret (match getAuthorFeed svc h did (lit "100") with
       | inl err => inl err
       | inr feed =>
           match firstMention feed mastodonPostID with
           | Some found => inr found
           | None => inl (lit "no matching post found")
           end
       end).

(** Lines 968-1017. *)
Definition searchForPost (searchTerm mastodonPostID : str) : M (error + str * str) :=
  h <- history ;;
  emit (EvSearchPosts searchTerm (lit "20")) ;;
  ret (match searchPosts svc h searchTerm (lit "20") with
       | inl err => inl err
       | inr posts =>
           match firstMention posts mastodonPostID with
           | Some found => inr found
           | None => inl (lit "no matching post found in search results")
           end
       end).

(** [time.Time.Sub]: the difference in nanoseconds, saturating at the
    ends of [int64]. *)
Definition Sub (t u : Z) : Z := Z.max (- 2 ^ 63) (Z.min MaxInt (t - u)).

Definition Hour : Z := 3600 * 1000000000.

(** The loop of lines 848-872. *)
Fixpoint firstAccepted (posts : list Hit) (content displayName : str) (postDate : Z)
  : option (str * str) :=
  match posts with
  | [] => None
  | post :: posts' =>
      if eqs (AuthorDisplayName post) displayName
         || Contains (AuthorDisplayName post) displayName
         || Contains displayName (AuthorDisplayName post)
      then
        if Contains (Text post) content || Contains content (Text post) then
          match parseRFC3339 lib (RecordCreatedAt post) with
          | None => firstAccepted posts' content displayName postDate
          | Some postCreatedAt =>
              let timeDiff := Sub postCreatedAt postDate in
              if (timeDiff <? 24 * Hour)%Z && (timeDiff >? - (24 * Hour))%Z
              then Some (Uri post, Cid post)
              else firstAccepted posts' content displayName postDate
          end
        else firstAccepted posts' content displayName postDate
      else firstAccepted posts' content displayName postDate
  end.

(** Lines 804-875. *)
Definition findPostByContentAndName (content displayName : str) (postDate : Z)
  : M (error + str * str) :=
  h <- history ;;
  emit (EvSearchPosts content (lit "30")) ;;
  ret (match searchPosts svc h content (lit "30") with
       | inl err => inl err
       | inr posts =>
           match firstAccepted posts content displayName postDate with
           | Some found => inr found
           | None => inl (lit "no matching post found by content and display name")
           end
       end).

(** The loop of lines 779-788: whole words while the result stays within
    30 bytes. *)
Fixpoint firstWords (words : list str) (searchContent : str) : str :=
  match words with
  | [] => searchContent
  | word :: words' =>
      if (len searchContent + len word + 1 <=? 30)%Z then
        let searchContent :=
          if negb (eqs searchContent []) then searchContent ++ lit " "
          else searchContent in
        firstWords words' (searchContent ++ word)
      else searchContent
  end.

(** Lines 775-789. *)
Definition searchContentOf (postContent : str) : str :=
  if (len postContent >? 30)%Z then firstWords (Fields lib postContent) []
  else postContent.

(** [err == nil && uri != "" && cid != ""] *)
Definition usable (r : error + str * str) : option (str * str) :=
  match r with
  | inl _ => None
  | inr (uri, cid) =>
      if negb (eqs uri []) && negb (eqs cid []) then Some (uri, cid) else None
  end.

(** The loop of lines 742-757. *)
Fixpoint tryHandles (possibleHandles : list str) (mastodonPostID : str)
  : M (option (str * str)) :=
  match possibleHandles with
  | [] => ret None
  | handle :: rest =>
      r <- resolveHandle handle ;;
      match r with
      | inl _ => tryHandles rest mastodonPostID
      | inr did =>
          f <- findPostInUserFeed did mastodonPostID ;;
          match usable f with
          | Some found => ret (Some found)
          | None => tryHandles rest mastodonPostID
          end
      end
  end.

Definition notFound (mastodonPostID : str) : error :=
  lit "could not find Mastodon post " ++ mastodonPostID ++ lit " on Bluesky".

(** Lines 769-797: the last resolver of the chain, on content and
    display name. *)
Definition contentMatch (postContent displayName : str) (postDate : Z)
  : M (option (str * str)) :=
  if negb (eqs postContent []) then
    c <- findPostByContentAndName (searchContentOf postContent) displayName postDate ;;
    ret (usable c)
  else ret None.

(** Lines 721-801. *)
Definition LookupBridgedMastodonPost
    (mastodonPostID mastodonUser mastodonInstance postContent displayName : str)
    (postDate : Z) : M (error + str * str) :=
  h <- history ;;
  emit EvEnsureAuth ;;
  match ensureAuth svc h with
  | Some err => ret (inl (lit "authentication failed: " ++ err))
  | None =>
      let possibleHandles :=
        [ mastodonUser ++ lit "." ++ mastodonInstance ++ lit ".ap.brid.gy";
          mastodonUser ++ lit "." ++ mastodonInstance ++ lit ".ap.bridgy.fed";
          mastodonUser ++ lit "_" ++ mastodonInstance ++ lit ".ap.brid.gy";
          mastodonUser ++ lit "-" ++ mastodonInstance ++ lit ".ap.brid.gy" ] in
      viaHandle <- tryHandles possibleHandles mastodonPostID ;;
      match viaHandle with
      | Some found => ret (inr found)
      | None =>
          let searchTerm := mastodonInstance ++ lit "/" ++ mastodonPostID in
          s <- searchForPost searchTerm mastodonPostID ;;
          match usable s with
          | Some found => ret (inr found)
          | None =>
              viaContent <- contentMatch postContent displayName postDate ;;
              match viaContent with
              | Some found => ret (inr found)
              | None => ret (inl (notFound mastodonPostID))
              end
          end
      end
  end.

End Client.

End Bluesky.

(** ** main.go: what the two revisions of [ProcessPost] share *)

Module Bridge.

Section Bridge.

Variable svc : Services.
Variable lib : GoLib.
Variable cfg : Config.

Local Open Scope bridge_scope.

(** Lines 201-227: reblogs, posts that are not public and, when a filter
    hashtag is configured, posts without it are skipped. *)
Definition skipped (post : Post) : bool :=
  match Reblog post with
  | Some _ => true
  | None =>
      if negb (eqs (Visibility post) (lit "public")) then true
      else if negb (eqs (FilterHashtag cfg) []) then
        negb (existsb (fun tag => EqualFold lib tag (FilterHashtag cfg)) (Hashtags post))
      else false
  end.

(** Lines 240-245: the parent to reply to is the last part of the
    parent's thread, when that has the form ["uri|cid"]. *)
Definition lastPartOf (lastParentID : str) : str * str :=
  match Split lastParentID "|"%char with
  | [uri; cid] => (uri, cid)
  | _ => ([], [])
  end.

(** Lines 294-297. The slice is in range, [part] being longer than 300. *)
Definition truncated (part : str) : str :=
  if (len part >? 300)%Z then take 297 part ++ lit "..." else part.

(** Lines 322-327: deleting what was created so far. *)
Definition cleanUp (bskyIDs : list str) : M unit :=
  forEach bskyIDs (fun id =>
    match Split id "|"%char with
    | uri :: _ => Bluesky.DeletePost svc uri ;; ret tt
    | [] => ret tt
    end).

(** The loop of lines 292-343 from part [i] on; [inl] is the [return err]
    of line 328. *)
Fixpoint postParts (parts : list str) (i : nat)
    (parentUri parentCid lastUri lastCid : str) (bskyIDs : list str)
  : M (error + list str) :=
  match parts with
  | [] => ret (inr bskyIDs)
  | part :: parts' =>
      let part := truncated part in
      r <- (if Nat.eqb i 0 && eqs parentUri [] && eqs parentCid []
            then Bluesky.CreatePost svc part
            else Bluesky.CreateReply svc part lastCid lastUri) ;;
      match r with
      | inl err => cleanUp bskyIDs ;; ret (inl err)
      | inr result =>
          match Split result "|"%char with
          | [uri; cid] =>
              postParts parts' (S i) parentUri parentCid uri cid (bskyIDs ++ [result])
          | _ =>
              postParts parts' (S i) parentUri parentCid lastUri lastCid bskyIDs
          end
      end
  end.

(** Lines 281-343: splitting and posting. *)
Definition postContent (content parentUri parentCid : str) : M (error + list str) :=
  parts <- lift (Splitting.splitContent content) ;;
  let '(lastUri, lastCid) :=
    if negb (eqs parentUri []) && negb (eqs parentCid [])
    then (parentUri, parentCid) else ([], []) in
  postParts parts 0 parentUri parentCid lastUri lastCid [].

Definition SavePostMapping (mastodonID : str) (bskyIDs : list str) : M unit :=
  d <- getDb ;;
  emit (EvSavePostMapping mastodonID bskyIDs) ;;
  putDb (Db.SavePostMapping d mastodonID bskyIDs).

Definition SaveContentHash (postID contentHash : str) : M unit :=
  d <- getDb ;;
  emit (EvSaveContentHash postID contentHash) ;;
  putDb (Db.SaveContentHash d postID contentHash).

End Bridge.

End Bridge.

(** ** [ProcessPost] with the edit-lineage table (main.go, lines 200-359) *)

Module Lineage.

Section Lineage.

Variable svc : Services.
Variable lib : GoLib.
Variable cfg : Config.

Local Open Scope bridge_scope.

(** Lines 230-247. *)
Definition ownParent (d : Database) (post : Post) : str * str :=
  if negb (eqs (InReplyToID post) []) then
    match Db.GetBlueskyIDsForMastodonPost d (InReplyToID post) with
    | Some parentBskyIDs =>
        match last parentBskyIDs with
        | Some lastParentID => Bridge.lastPartOf lastParentID
        | None => ([], [])
        end
    | None => ([], [])
    end
  else ([], []).

(** Lines 261-269: the record key, the last segment of the uri. *)
Definition parsedID (id : str) : str :=
  match Split id "|"%char with
  | uri :: _ =>
      let uriParts := Split uri "/"%char in
      if (4 <=? length uriParts)%nat then default id (last uriParts) else id
  | [] => id
  end.

(** Lines 251-278. *)
Definition deletePrevious (origPostID : str) : M unit :=
  d <- getDb ;;
  match Db.GetBlueskyIDsForMastodonPost d origPostID with
  | None => ret tt
  | Some bskyIDs =>
      forEach bskyIDs (fun id => Bluesky.DeletePost svc (parsedID id) ;; ret tt)
  end.

Definition ProcessPost (post : Post) : M (option error) :=
  if Bridge.skipped lib cfg post then ret None
  else
    d <- getDb ;;
    let '(parentUri, parentCid) := ownParent d post in
    let '((origPostID, isEdit), d') := Db.CheckIfEdit d (ID post) (OriginalID post) in
    putDb d' ;;
    (if isEdit then deletePrevious origPostID else ret tt) ;;
    r <- Bridge.postContent svc (Content post) parentUri parentCid ;;
    match r with
    | inl err => ret (Some err)
    | inr bskyIDs =>
        Bridge.SavePostMapping (ID post) bskyIDs ;;
        (if isEdit && negb (eqs origPostID (ID post))
         then Bridge.SavePostMapping origPostID bskyIDs
         else ret tt) ;;
        ret None
    end.

End Lineage.

End Lineage.

(** ** [ProcessPost] with the content hash (the later revision of main.go) *)

Module Hashed.

Section Hashed.

Variable svc : Services.
Variable lib : GoLib.
Variable cfg : Config.

Local Open Scope bridge_scope.

Definition hashPostContent (content : str) : str := sha256hex lib content.

Definition GetPostWithEdits (postID : str) : M (error + Post) :=
  h <- history ;;
  emit (EvGetStatus postID) ;;
  ret (getStatus svc h postID).

(** The deletion of what was mirrored before, when a hash is stored and
    differs. *)
Definition deleteExisting (postID : str) : M unit :=
  d <- getDb ;;
  match Db.GetBlueskyIDsForMastodonPost d postID with
  | Some bskyIDs =>
      if (0 <? length bskyIDs)%nat
      then forEach bskyIDs (fun id => Bluesky.DeletePost svc id ;; ret tt)
      else ret tt
  | None => ret tt
  end.

(** The branch of a stored hash that is not empty and differs: the log
    line takes the first 8 bytes of the stored hash and of the new one,
    which is a panic for a hash shorter than that; then the deletion. *)
Definition changed (existingHash contentHash postID : str) : M unit :=
  lift (sliceTo existingHash 8) ;;
  lift (sliceTo contentHash 8) ;;
  deleteExisting postID.

(** The search for a parent that this process did not mirror.  [None] is
    the [return nil] inside the branch: the post is skipped. *)
Definition foreignParent (post : Post) : M (option (str * str)) :=
  p <- GetPostWithEdits (InReplyToID post) ;;
  match p with
  | inl _ => ret (Some ([], []))
  | inr parentPost =>
      if negb (eqs (Username parentPost) []) && negb (eqs (Instance parentPost) [])
      then
        r <- Bluesky.LookupBridgedMastodonPost svc lib
               (InReplyToID post) (Username parentPost) (Instance parentPost)
               (Content parentPost) (DisplayName parentPost) (CreatedAt parentPost) ;;
        match r with
        | inl _ => ret None
        | inr (parentUri, parentCid) => ret (Some (parentUri, parentCid))
        end
      else ret (Some ([], []))
  end.

(** The resolution of the parent of a reply.  [None]: the post is skipped. *)
Definition resolveParent (post : Post) : M (option (str * str)) :=
  if negb (eqs (InReplyToID post) []) then
    d <- getDb ;;
    found <-
      match Db.GetBlueskyIDsForMastodonPost d (InReplyToID post) with
      | Some parentBskyIDs =>
          match last parentBskyIDs with
          | Some lastParentID => ret (Some (Bridge.lastPartOf lastParentID))
          | None => foreignParent post
          end
      | None => foreignParent post
      end ;;
    match found with
    | None => ret None
    | Some (parentUri, parentCid) =>
        if eqs parentUri [] then ret None else ret (Some (parentUri, parentCid))
    end
  else ret (Some ([], [])).

(** Lines 1270-1460.  Of the log, what can fail is kept: the line of an
    unchanged post (1305) takes the first 8 bytes of the hash. *)
Definition ProcessPost (post : Post) : M (option error) :=
  if Bridge.skipped lib cfg post then ret None
  else
    let contentHash := hashPostContent (Content post) in
    d <- getDb ;;
    let '(existingHash, err) := Db.GetContentHash d (ID post) in
    if match err with None => eqs existingHash contentHash | Some _ => false end
    then lift (sliceTo contentHash 8) ;; ret None
    else
      (if negb (eqs existingHash [])
       then changed existingHash contentHash (ID post) else ret tt) ;;
      parent <- resolveParent post ;;
      match parent with
      | None => ret None
      | Some (parentUri, parentCid) =>
          r <- Bridge.postContent svc (Content post) parentUri parentCid ;;
          match r with
          | inl err => ret (Some err)
          | inr bskyIDs =>
              Bridge.SavePostMapping (ID post) bskyIDs ;;
              Bridge.SaveContentHash (ID post) contentHash ;;
              ret None
          end
      end.

End Hashed.

End Hashed.

(** ** UTF-8 *)

(** A continuation byte, [10xxxxxx]: an offset into well-formed text is
    the start of a character exactly when the byte there is not one. *)
Definition isContinuation (c : ascii) : bool :=
  (128 <=? nat_of_ascii c)%nat && (nat_of_ascii c <? 192)%nat.

(** [utf8.RuneCountInString] on well-formed text: the bytes that start
    a character. *)
Definition runeCount (s : str) : nat :=
  length (filter (fun c => isContinuation c = false) s).

Definition inRange (lo hi : nat) (c : ascii) : bool :=
  (lo <=? nat_of_ascii c)%nat && (nat_of_ascii c <=? hi)%nat.

(** [utf8.ValidString], by the table of well-formed byte sequences. *)
Fixpoint validUTF8 (fuel : nat) (s : str) : bool :=
  match fuel with
  | O => match s with [] => true | _ => false end
  | S fuel' =>
      match s with
      | [] => true
      | b0 :: s1 =>
          if inRange 0 127 b0 then validUTF8 fuel' s1
          else match s1 with
          | b1 :: s2 =>
              if inRange 194 223 b0 && inRange 128 191 b1 then validUTF8 fuel' s2
              else match s2 with
              | b2 :: s3 =>
                  if (inRange 224 224 b0 && inRange 160 191 b1
                      || inRange 225 236 b0 && inRange 128 191 b1
                      || inRange 237 237 b0 && inRange 128 159 b1
                      || inRange 238 239 b0 && inRange 128 191 b1)
                     && inRange 128 191 b2
                  then validUTF8 fuel' s3
                  else match s3 with
                  | b3 :: s4 =>
                      (inRange 240 240 b0 && inRange 144 191 b1
                       || inRange 241 243 b0 && inRange 128 191 b1
                       || inRange 244 244 b0 && inRange 128 143 b1)
                      && inRange 128 191 b2 && inRange 128 191 b3
                      && validUTF8 fuel' s4
                  | [] => false
                  end
              | [] => false
              end
          | [] => false
          end
      end
  end.

Definition ValidString (s : str) : bool := validUTF8 (length s) s.

(** ** Putting the parts of a split back together *)

(** The part without its last [len(indicator)] bytes. *)
Definition stripIndicators (parts : list str) : list str :=
  imap (fun i part =>
          take (length part
                - length (indicator (Z.of_nat i + 1) (Z.of_nat (length parts))))
               part)
       parts.

(** The parts in order, with a space after each part whose flag is set. *)
Fixpoint rejoin (parts : list str) (spaces : list bool) : str :=
  match parts, spaces with
  | [], _ => []
  | part :: parts', [] => part ++ rejoin parts' []
  | part :: parts', b :: spaces' =>
      part ++ (if b : bool then [space] else []) ++ rejoin parts' spaces'
  end.

(** Where the text has a space right after a part: the flags of the
    boundaries, found by walking along [text]. *)
Fixpoint spacesAt (text : str) (parts : list str) : list bool :=
  match parts with
  | [] => []
  | part :: parts' =>
      match drop (length part) text with
      | c :: rest =>
          if Ascii.eqb c space then true :: spacesAt rest parts'
          else false :: spacesAt (c :: rest) parts'
      | [] => false :: spacesAt [] parts'
      end
  end.

(** The parts in order, with a space at every boundary. *)
Definition rejoinWithSpaces (parts : list str) : str := Join parts [space].

(** ** Sample posts *)

Definition rep (n : nat) (s : str) : str := concat (replicate n s).

(** 1625 bytes: a run of 294 letters, then eight words of 147 letters
    and a last one. *)
Definition overlongPost : str :=
  rep 294 (lit "a") ++ rep 8 (rep 147 (lit "a") ++ lit " ") ++ rep 147 (lit "a").

(** 301 letters without a space, and 294 letters, a space, 7 letters. *)
Definition hardCutPost : str := rep 301 (lit "a").

Definition spaceCutPost : str := rep 294 (lit "a") ++ lit " " ++ rep 7 (lit "a").

(** U+00E9, two bytes in UTF-8. *)
Definition eAcute : str := [ascii_of_nat 195; ascii_of_nat 169].

(** 151 characters in 302 bytes. *)
Definition accentedPost : str := rep 151 eAcute.

(** A letter and 147 accented letters, so that byte 294 is the second
    byte of a character; then eight words of 147 letters and a last one. *)
Definition splitCharPost : str :=
  lit "a" ++ rep 147 eAcute
  ++ rep 8 (rep 147 (lit "a") ++ lit " ") ++ rep 147 (lit "a").

(** ** Reading a trace *)

(** The answers to the creations of posts, in order. *)
Definition creationResult (e : Event) : option (error + str * str) :=
  match e with
  | EvCreatePost _ res => Some res
  | EvCreateReply _ _ _ res => Some res
  | _ => None
  end.

Definition creationResults (t : list Event) : list (error + str * str) :=
  omap creationResult t.

(** The record ids that [DeletePost] was called with, in order. *)
Definition deletion (e : Event) : option str :=
  match e with
  | EvDeletePost recordID _ => Some recordID
  | _ => None
  end.

Definition deletions (t : list Event) : list str := omap deletion t.

(** The writes to the table of post mappings, in order. *)
Definition mappingWrite (e : Event) : option (str * list str) :=
  match e with
  | EvSavePostMapping mastodonID bskyIDs => Some (mastodonID, bskyIDs)
  | _ => None
  end.

Definition mappingWrites (t : list Event) : list (str * list str) :=
  omap mappingWrite t.

(** The answer ["uri|cid"] splits into exactly two fields, and is then
    recorded in [bskyIDs] (main.go, lines 332-342). *)
Definition recorded (created : str * str) : bool :=
  match Split (created.1 ++ lit "|" ++ created.2) "|"%char with
  | [_; _] => true
  | _ => false
  end.

(** What [cleanUp] calls [DeletePost] with for a recorded answer: its
    first field. *)
Definition firstField (id : str) : str :=
  match Split id "|"%char with
  | field :: _ => field
  | [] => []
  end.

(** [w'] continues [w] by events that all satisfy [P], on the same
    database. *)
Definition steps (P : Event -> Prop) (w w' : World) : Prop :=
  db w' = db w /\ exists evs, trace w' = trace w ++ evs /\ Forall P evs.

Definition keeps {A} (P : Event -> Prop) (m : M A) : Prop :=
  forall w, steps P w (m w).2.

(** Neither a creation nor a write of a post mapping. *)
Definition quiet (e : Event) : Prop :=
  creationResult e = None /\ mappingWrite e = None.

(** Nor a deletion. *)
Definition silent (e : Event) : Prop := quiet e /\ deletion e = None.

(** Processing the same post [n] times in a row. *)
Fixpoint iterate (process : World -> run (option error) * World) (n : nat)
    (w : World) : World :=
  match n with
  | O => w
  | S n' => iterate process n' (process w).2
  end.

(** A computation that neither panics nor runs out of fuel. *)
Definition finishes {A} (m : M A) : Prop :=
  forall w, exists a w', m w = (Done a, w').

(** ** Reading a run of [ProcessPost] *)

(** The answer ["uri|cid"] of a creation. *)
Definition joined (created : str * str) : str := created.1 ++ lit "|" ++ created.2.

(** The event is a creation answered by [created]. *)
Definition createdBy (ev : Event) (created : str * str) : Prop :=
  creationResult ev = Some (inr created).

(** The event is a call of [DeletePost] with [target]. *)
Definition deletes (ev : Event) (target : str) : Prop :=
  exists res, ev = EvDeletePost target res.

(** A run from [w] to [w'] in which a creation failed with [err]: after
    events [pre] that create nothing and write no post mapping, the parts
    [created] were created, in order; the next creation failed; what
    follows is one call of [DeletePost] for each creation that was
    recorded, with its uri, and nothing else.  No post mapping is written. *)
Definition rolledBack (w w' : World) (err : error) : Prop :=
  exists pre before failed rollback created,
    trace w' = trace w ++ pre ++ before ++ [failed] ++ rollback
    /\ Forall quiet pre
    /\ Forall2 createdBy before created
    /\ creationResult failed = Some (inl err)
    /\ Forall2 deletes rollback (map fst (List.filter recorded created))
    /\ mappingWrites (trace w') = mappingWrites (trace w)
    /\ post_mappings (db w') = post_mappings (db w).

(** A run from [w] to [w'] in which no creation failed. *)
Definition allCreated (w w' : World) : Prop :=
  exists evs,
    trace w' = trace w ++ evs
    /\ Forall (fun res => exists created, res = inr created) (creationResults evs).

(** ** Sample services and posts, for the examples

    The properties below hold for every instance of the services and of
    the library; the instances here are small ones to compute with. *)

Definition digitOf (c : ascii) : option Z :=
  let n := nat_of_ascii c in
  if (48 <=? n)%nat && (n <=? 57)%nat then Some (Z.of_nat n - 48)%Z else None.

Fixpoint decimal (s : str) (acc : Z) : option Z :=
  match s with
  | [] => Some acc
  | c :: s' =>
      match digitOf c with
      | Some d => decimal s' (10 * acc + d)%Z
      | None => None
      end
  end.

(** A stand-in for the hash: the first 64 bytes of the content, filled
    up with the digit 0. *)
Definition sampleHash (s : str) : str :=
  map (fun i => nth i s "0"%char) (seq 0 64).

(** Stand-ins: folding of case is equality, words are separated by single
    spaces, the hash is a copy of the content of 64 bytes, an instant is
    written as a number of seconds. *)
Definition sampleLib : GoLib :=
  {| EqualFold := eqs;
     Fields := fun s => List.filter (fun word => negb (eqs word [])) (Split s " "%char);
     sha256hex := sampleHash;
     parseRFC3339 := fun s =>
       match decimal s 0 with
       | Some seconds => Some (seconds * 1000000000)%Z
       | None => None
       end;
     sha256hex_length := fun s => eq_refl |}.

Definition noFilter : Config := {| FilterHashtag := [] |}.

Definition parentStatus : Post :=
  {| ID := lit "55"; Content := lit "Good morning from the harbour of Marseille";
     Reblog := None; Visibility := lit "public"; CreatedAt := 1700000000000000000;
     InReplyToID := []; Hashtags := []; EditedAt := 0; OriginalID := [];
     Username := lit "alice"; Instance := lit "example.social";
     DisplayName := lit "Alice" |}.

(** Services on which nothing is found, with the given answers to
    creations and to searches. *)
Definition servicesWith
    (create : list Event -> str -> option (str * str) -> error + str * str)
    (search : list Event -> str -> str -> error + list Hit) : Services :=
  {| createRecord := create;
     deleteRecord := fun _ _ => None;
     getStatus := fun _ _ => inr parentStatus;
     ensureAuth := fun _ => None;
     resolveHandleRPC := fun _ _ => inl (lit "handle not found");
     getAuthorFeed := fun _ _ _ => inr [];
     searchPosts := search |}.

Definition postUri (rkey : str) : str :=
  lit "at://did:plc:me/app.bsky.feed.post/" ++ rkey.

(** Every creation is refused. *)
Definition refusingServices : Services :=
  servicesWith (fun _ _ _ => inl (lit "refused")) (fun _ _ _ => inr []).

(** The n-th creation gets the record key and the cid of number n. *)
Definition numberedServices : Services :=
  servicesWith
    (fun h _ _ =>
       let n := itoa (Z.of_nat (length (creationResults h))) in
       inr (postUri (lit "3k" ++ n), lit "cid" ++ n))
    (fun _ _ _ => inr []).

(** The first creation is answered with a uri that has a "|" in it, every
    later one is refused. *)
Definition oddUriServices : Services :=
  servicesWith
    (fun h _ _ =>
       match creationResults h with
       | [] => inr (postUri (lit "3k|0"), lit "cid0")
       | _ => inl (lit "refused")
       end)
    (fun _ _ _ => inr []).

Definition samplePost (id content inReplyToID originalID : str) : Post :=
  {| ID := id; Content := content; Reblog := None; Visibility := lit "public";
     CreatedAt := 1700000100000000000; InReplyToID := inReplyToID;
     Hashtags := []; EditedAt := 0; OriginalID := originalID;
     Username := []; Instance := []; DisplayName := [] |}.

Definition emptyWorld : World := {| db := mkDatabase ∅ ∅ ∅; trace := [] |}.

(** Post 109 was mirrored as one part. *)
Definition mirroredWorld : World :=
  {| db := mkDatabase {[ lit "109" := postUri (lit "3kold") ++ lit "|cidold" ]} ∅ ∅;
     trace := [] |}.

(** Post 111, a reply to post 55, was mirrored as one part when its
    content was "I agreed". *)
Definition mirroredReplyWorld : World :=
  {| db := mkDatabase {[ lit "111" := postUri (lit "3kold") ++ lit "|cidold" ]} ∅
             {[ lit "content_hash_111" := sha256hex sampleLib (lit "I agreed") ]};
     trace := [] |}.

(** The hash of "hello" is stored for post 110. *)
Definition hashedWorld : World :=
  {| db := mkDatabase ∅ ∅
             {[ lit "content_hash_110" := sha256hex sampleLib (lit "hello") ]};
     trace := [] |}.

(** The copy of the parent on Bluesky, made by a bridge 50 seconds after
    the original. *)
Definition parentCopy : Hit :=
  {| Uri := postUri (lit "3kparent"); Cid := lit "cidparent";
     AuthorDisplayName := lit "Alice (bridged)";
     Text := lit "Good morning from the harbour of Marseille";
     ExternalUrl := [];
     RecordCreatedAt := lit "1700000050" |}.

(** A record of somebody else. *)
Definition strangerRecord : Hit :=
  {| Uri := postUri (lit "3kother"); Cid := lit "cidother";
     AuthorDisplayName := lit "Bob";
     Text := lit "Something else entirely";
     ExternalUrl := [];
     RecordCreatedAt := lit "1700000050" |}.

(** Every search finds the record of somebody else. *)
Definition strangerServices : Services :=
  servicesWith (fun _ _ _ => inl (lit "refused")) (fun _ _ _ => inr [strangerRecord]).

(** Every search finds the copy of the parent. *)
Definition findingServices : Services :=
  servicesWith (fun _ _ _ => inl (lit "refused")) (fun _ _ _ => inr [parentCopy]).

(** * More of the code *)

(** ** main.go: [truncateForLog] (lines 362-368) *)

(** The slice is in range, [text] being longer than 50. *)
Definition truncateForLog (text : str) : str :=
  if (len text <=? 50)%Z then text else take 47 text ++ lit "...".

(** ** database.go: the cursor *)

Module Cursor.

(** A missing row is not an error: the result is then [""]. *)
Definition GetLastSeenID (d : Database) : str :=
  match state d !! lit "last_seen_id" with
  | Some id => id
  | None => []
  end.

Definition SaveLastSeenID (d : Database) (id : str) : Database :=
  {| post_mappings := post_mappings d;
     edits := edits d;
     state := <[lit "last_seen_id" := id]> (state d) |}.

End Cursor.

(** ** bluesky/client.go: the record key of [DeletePost], and the first
    lookup through Bridgy Fed *)

Module BlueskyMore.

(** Lines 546-567 of [DeletePost]: the record key that is sent, from an
    answer ["uri|cid"], from a full uri, or as it is. *)
Definition recordKeyOf (recordID : str) : str :=
  if Contains recordID (lit "|") then
    match Split recordID "|"%char with
    | uri :: _ =>
        let uriParts := Split uri "/"%char in
        if (4 <=? length uriParts)%nat then default recordID (last uriParts)
        else recordID
    | [] => recordID
    end
  else if HasPrefix recordID (lit "at://") then
    let parts := Split recordID "/"%char in
    if (4 <=? length parts)%nat then default recordID (last parts) else recordID
  else recordID.

Section Client.

Variable svc : Services.

Local Open Scope bridge_scope.

(** The loop of lines 709-714: the first record whose link has the id. *)
Fixpoint firstLinked (feed : list Hit) (mastodonPostID : str) : option (str * str) :=
  match feed with
  | [] => None
  | item :: feed' =>
      if Contains (ExternalUrl item) mastodonPostID then Some (Uri item, Cid item)
      else firstLinked feed' mastodonPostID
  end.

(** Lines 618-717. *)
Definition LookupBridgyFedPost (mastodonUser mastodonInstance mastodonPostID : str)
  : M (error + str * str) :=
  h <- history ;;
  emit EvEnsureAuth ;;
  match ensureAuth svc h with
  | Some err => ret (inl (lit "authentication failed: " ++ err))
  | None =>
      let bridgyHandle :=
        mastodonUser ++ lit "." ++ mastodonInstance ++ lit ".ap.brid.gy" in
      h <- history ;;
      emit (EvResolveHandle bridgyHandle) ;;
      match resolveHandleRPC svc h bridgyHandle with
      | inl err => ret (inl err)
      | inr did =>
          if eqs did [] then
            ret (inl (lit "could not resolve handle " ++ bridgyHandle))
          else
            h <- history ;;
            emit (EvAuthorFeed did (lit "100")) ;;
            match getAuthorFeed svc h did (lit "100") with
            | inl err => ret (inl err)
            | inr feed =>
                match firstLinked feed mastodonPostID with
                | Some found => ret (inr found)
                | None =>
                    ret (inl (lit "no matching post found for Mastodon ID "
                              ++ mastodonPostID))
                end
            end
      end
  end.

End Client.

End BlueskyMore.

(** ** mastodon/client.go *)

Module Mastodon.

(** [strings.IndexByte]; [None] is -1. *)
Fixpoint IndexByte (s : str) (c : ascii) : option nat :=
  match s with
  | [] => None
  | x :: s' =>
      if Ascii.eqb x c then Some 0%nat
      else match IndexByte s' c with
           | Some i => Some (S i)
           | None => None
           end
  end.

(** Lines 280-303. *)
Definition extractInstanceFromAcct (acct defaultServer : str) : str :=
  let remote :=
    if Contains acct (lit "@") then
      match Split acct "@"%char with
      | _ :: instance :: _ => Some instance
      | _ => None
      end
    else None in
  match remote with
  | Some instance => instance
  | None =>
      let server :=
        if HasPrefix defaultServer (lit "https://") then drop 8 defaultServer
        else if HasPrefix defaultServer (lit "http://") then drop 7 defaultServer
        else defaultServer in
      match IndexByte server "/"%char with
      | Some slash => take slash server
      | None => server
      end
  end.

(** A value of type [interface{}], as the field [InReplyToID] of a status. *)
Inductive iface : Type :=
| INil
| IString (s : str)
| IOther.

(** The zero value of [time.Time], in nanoseconds from the Unix epoch. *)
Definition zeroTime : Z := (-62135596800 * 1000000000)%Z.

Definition IsZero (t : Z) : bool := (t =? zeroTime)%Z.

(** [mastodon.Status] of the library, the fields that are read. *)
#[warnings="-register-all"]
Inductive Status : Type := mkStatus {
  StatusID : str;
  StatusContent : str;
  StatusVisibility : str;
  StatusCreatedAt : Z;
  StatusInReplyToID : iface;
  StatusTags : list str;
  StatusEditedAt : Z;
  StatusReblog : option Status
}.

Section GetNewPosts.

(** [cleanHTML] (lines 161-225) rests on bluemonday and on regular
    expressions; it is a parameter here. *)
Variable cleanHTML : str -> list str -> bool -> str.

(** [status.InReplyToID != ""]: an interface value differs from the
    string [""] unless it holds that very string. *)
Definition isReplyOf (v : iface) : bool :=
  match v with
  | IString [] => false
  | _ => true
  end.

(** The closure of lines 112-119. *)
Definition replyIDOf (v : iface) : str :=
  match v with
  | IString id => id
  | _ => []
  end.

(** Lines 137-151: the post of a reblogged status. *)
Definition reblogOf (reblog : Status) : Post :=
  {| ID := StatusID reblog;
     Content := cleanHTML (StatusContent reblog) (StatusTags reblog)
                  (isReplyOf (StatusInReplyToID reblog));
     Reblog := None;
     Visibility := StatusVisibility reblog;
     CreatedAt := StatusCreatedAt reblog;
     InReplyToID := replyIDOf (StatusInReplyToID reblog);
     Hashtags := StatusTags reblog;
     EditedAt := zeroTime;
     OriginalID := [];
     Username := []; Instance := []; DisplayName := [] |}.

(** Lines 99-152: the post of a status. *)
Definition postOf (status : Status) : Post :=
  {| ID := StatusID status;
     Content := cleanHTML (StatusContent status) (StatusTags status)
                  (isReplyOf (StatusInReplyToID status));
     Reblog := match StatusReblog status with
               | Some reblog => Some (reblogOf reblog)
               | None => None
               end;
     Visibility := StatusVisibility status;
     CreatedAt := StatusCreatedAt status;
     InReplyToID := replyIDOf (StatusInReplyToID status);
     Hashtags := StatusTags status;
     EditedAt := StatusEditedAt status;
     OriginalID := if negb (IsZero (StatusEditedAt status)) then StatusID status
                   else [];
     Username := []; Instance := []; DisplayName := [] |}.

(** The loop of lines 86-155 over the timeline that the server returned. *)
Fixpoint collectPosts (timeline : list Status) (sinceTime : Z) : list Post :=
  match timeline with
  | [] => []
  | status :: timeline' =>
      if negb (IsZero sinceTime) && (StatusCreatedAt status <? sinceTime)%Z
      then collectPosts timeline' sinceTime
      else if negb (eqs (StatusVisibility status) (lit "public"))
      then collectPosts timeline' sinceTime
      else postOf status :: collectPosts timeline' sinceTime
  end.

End GetNewPosts.

End Mastodon.

(** ** main.go: a batch of new posts (lines 138-154 of [Run]) *)

Module Batch.

Section Batch.

(** Either revision of [ProcessPost]. *)
Variable process : Post -> M (option error).

Local Open Scope bridge_scope.



End Batch.

End Batch.

(** ** Reading a run, continued *)

(** Whatever the database, the computation adds only events that satisfy
    [P]. *)
Definition emitsOnly {A} (P : Event -> Prop) (m : M A) : Prop :=
  forall w, exists evs, trace (m w).2 = trace w ++ evs /\ Forall P evs.

(** The text of a creation has at most 300 bytes. *)
Definition textWithinLimit (e : Event) : Prop :=
  match e with
  | EvCreatePost text _ => (len text <= 300)%Z
  | EvCreateReply text _ _ _ => (len text <= 300)%Z
  | _ => True
  end.

(** The record that the next part replies to, after a creation that was
    answered by [res]: the record just created when its answer is
    recorded, the one before otherwise. *)
Definition answerOf (last : str * str) (res : error + str * str) : str * str :=
  match res with
  | inr created => if recorded created then created else last
  | inl _ => last
  end.

(** Every creation among the events is a reply, to the record that the
    creations before it lead to from [last] (a pair of uri and cid). *)
Fixpoint threaded (last : str * str) (evs : list Event) : Prop :=
  match evs with
  | [] => True
  | EvCreateReply _ parentCid parentUri res :: rest =>
      (parentUri, parentCid) = last /\ threaded (answerOf last res) rest
  | EvCreatePost _ _ :: _ => False
  | _ :: rest => threaded last rest
  end.

(** The computation leaves a view [f] of the database as it was. *)
Definition preserves {A B} (f : Database -> B) (m : M A) : Prop :=
  forall w, f (db (m w).2) = f (db w).

(** ** More samples *)

(** A stand-in for [cleanHTML]: the text as it is. *)
Definition keepText (input : str) (hashtags : list str) (isReply : bool) : str := input.

(** Status 109, public, edited after its creation. *)
Definition editedStatus : Mastodon.Status :=
  Mastodon.mkStatus (lit "109") (lit "hello again") (lit "public")
    1700000100000000000 Mastodon.INil [] 1700000200000000000 None.

(** A reblog, which [ProcessPost] skips. *)
Definition reblogPost (id : str) : Post :=
  {| ID := id; Content := []; Reblog := Some parentStatus; Visibility := lit "public";
     CreatedAt := 1700000300000000000; InReplyToID := []; Hashtags := [];
     EditedAt := 0; OriginalID := []; Username := []; Instance := [];
     DisplayName := [] |}.

(** Every post with a post mapping has a content hash. *)
Definition hashesKept (d : Database) : Prop :=
  forall id,
    is_Some (post_mappings d !! id) -> is_Some (state d !! (lit "content_hash_" ++ id)).

(** Whatever the world, the result of the computation, when it has one,
    satisfies [Q]. *)
Definition yields {A} (Q : A -> Prop) (m : M A) : Prop :=
  forall w a, (m w).1 = Done a -> Q a.

(** The computation adds at most [n] events, all of which satisfy [P]. *)
Definition within {A} (n : nat) (P : Event -> Prop) (m : M A) : Prop :=
  forall w,
    exists evs, trace (m w).2 = trace w ++ evs /\ Forall P evs /\ (length evs <= n)%nat.

(** A request that reads: a handle, a feed or a search. *)
Definition reads (e : Event) : Prop :=
  match e with
  | EvResolveHandle _ | EvAuthorFeed _ _ | EvSearchPosts _ _ => True
  | _ => False
  end.

(** A found record has a uri and a cid. *)
Definition complete (found : str * str) : Prop := found.1 <> [] /\ found.2 <> [].

(** The copy of the parent that Bridgy Fed made, with its link. *)
Definition linkedCopy : Hit :=
  {| Uri := postUri (lit "3klinked"); Cid := lit "cidlinked";
     AuthorDisplayName := lit "Alice";
     Text := lit "Good morning from the harbour of Marseille";
     ExternalUrl := lit "https://example.social/@alice/55";
     RecordCreatedAt := lit "1700000050" |}.

(** Every handle resolves, and every feed holds the linked copy. *)
Definition linkingServices : Services :=
  {| createRecord := fun _ _ _ => inl (lit "refused");
     deleteRecord := fun _ _ => None;
     getStatus := fun _ _ => inr parentStatus;
     ensureAuth := fun _ => None;
     resolveHandleRPC := fun _ _ => inr (lit "did:plc:alice");
     getAuthorFeed := fun _ _ _ => inr [linkedCopy];
     searchPosts := fun _ _ _ => inr [] |}.

(** The text that a creation was called with. *)
Definition creationText (e : Event) : option str :=
  match e with
  | EvCreatePost text _ => Some text
  | EvCreateReply text _ _ _ => Some text
  | _ => None
  end.

(** ** main.go, later revision: the check for edits (lines 1228-1265 of [Run]) *)

Module EditCheck.

Section EditCheck.

Variable svc : Services.
Variable lib : GoLib.
Variable cfg : Config.

Local Open Scope bridge_scope.

(** The body of the loop of lines 1238-1264 for one id.  The log line of
    1256-1257 takes the first 8 bytes of the stored hash and of the new
    one: a hash shorter than that is a panic. *)
Definition checkOne (id : str) : M unit :=
  p <- Hashed.GetPostWithEdits svc id ;;
  match p with
  | inl _ => ret tt
  | inr post =>
      let newContentHash := Hashed.hashPostContent lib (Content post) in
      d <- getDb ;;
      let '(oldContentHash, err) := Db.GetContentHash d id in
      match err with
      | Some _ => ret tt
      | None =>
          if negb (eqs newContentHash oldContentHash) then
            lift (sliceTo oldContentHash 8) ;;
            lift (sliceTo newContentHash 8) ;;
            Hashed.ProcessPost svc lib cfg post ;;
            ret tt
          else ret tt
      end
  end.

(** [recentIDs] is what [GetRecentPostsToCheckForEdits] returned: ids
    of the table of post mappings. *)
Definition checkForEdits (recentIDs : list str) : M unit := forEach recentIDs checkOne.

End EditCheck.

End EditCheck.

(** Every stored content hash has at least 8 bytes. *)
Definition hashesLong (d : Database) : Prop :=
  forall id hash,
    state d !! (lit "content_hash_" ++ id) = Some hash -> (8 <= len hash)%Z.

(** Post 110 was mirrored as one part, with the hash of "hello". *)
Definition settledWorld : World :=
  {| db := mkDatabase {[ lit "110" := postUri (lit "3kold") ++ lit "|cidold" ]} ∅
             {[ lit "content_hash_110" := sha256hex sampleLib (lit "hello") ]};
     trace := [] |}.

(** * Properties *)

(** ** Decimal notation *)

Section Decimal.

Local Open Scope Z_scope.

Lemma utoa_length_ge fuel n acc :
  (length acc <= length (utoa fuel n acc))%nat.
Proof.
  revert n acc. induction fuel as [|fuel IH]; intros n acc; simpl; [lia|].
  destruct (n / 10 =? 0); simpl; [lia|].
  specialize (IH (n / 10) (digitChar (n mod 10) :: acc)). simpl in IH. lia.
Qed.

Lemma utoa_length_pos fuel n acc :
  (0 < fuel)%nat -> (length acc + 1 <= length (utoa fuel n acc))%nat.
Proof.
  destruct fuel as [|fuel]; [lia|]. intros _. simpl.
  destruct (n / 10 =? 0); simpl; [lia|].
  pose proof (utoa_length_ge fuel (n / 10) (digitChar (n mod 10) :: acc)) as H.
  simpl in H. lia.
Qed.

Lemma utoa_length fuel n acc k :
  0 <= n < 2 ^ Z.of_nat fuel -> (1 <= k)%nat ->
  n < 10 ^ Z.of_nat k <-> (length (utoa fuel n acc) <= length acc + k)%nat.
Proof.
  revert n acc k. induction fuel as [|fuel IH]; intros n acc k Hn Hk.
  - simpl in *. assert (n = 0) by lia. subst n.
    split; [lia|]. intros _. apply Z.pow_pos_nonneg; lia.
  - simpl utoa.
    assert (H10 : 10 ^ Z.of_nat k = 10 * 10 ^ Z.of_nat (k - 1)).
    { replace (Z.of_nat k) with (Z.succ (Z.of_nat (k - 1))) by lia.
      rewrite Z.pow_succ_r by lia. reflexivity. }
    assert (Hp : 0 < 10 ^ Z.of_nat (k - 1)) by (apply Z.pow_pos_nonneg; lia).
    destruct (Z.eqb_spec (n / 10) 0) as [Hq|Hq].
    + simpl. split; [lia|]. intros _.
      assert (n < 10) by (apply Z.div_small_iff in Hq; lia). lia.
    + assert (Hn10 : 10 <= n).
      { destruct (Z_lt_le_dec n 10) as [Hlt|]; [|lia].
        exfalso. apply Hq. apply Z.div_small. lia. }
      assert (Hf : 0 <= n / 10 < 2 ^ Z.of_nat fuel).
      { split; [apply Z.div_pos; lia|].
        apply Z.div_lt_upper_bound; [lia|].
        replace (Z.of_nat (S fuel)) with (Z.succ (Z.of_nat fuel)) in Hn by lia.
        rewrite Z.pow_succ_r in Hn by lia. lia. }
      destruct (decide (k = 1%nat)) as [->|Hk1].
      * split; [simpl in *; lia|]. intros Hlen. exfalso.
        assert (0 < fuel)%nat.
        { destruct fuel; [|lia]. simpl in Hf. assert (n / 10 = 0) by lia. lia. }
        pose proof (utoa_length_pos fuel (n / 10) (digitChar (n mod 10) :: acc)) as H1.
        simpl in H1. lia.
      * specialize (IH (n / 10) (digitChar (n mod 10) :: acc) (k - 1)%nat Hf).
        simpl length in IH. rewrite H10.
        assert (Hdiv : n / 10 < 10 ^ Z.of_nat (k - 1) <-> n < 10 * 10 ^ Z.of_nat (k - 1)).
        { pose proof (Z.div_mod n 10 ltac:(lia)).
          pose proof (Z.mod_pos_bound n 10 ltac:(lia)). lia. }
        rewrite <- Hdiv, IH by lia. lia.
Qed.

Lemma log2_fuel n : 0 <= n -> 0 <= n < 2 ^ Z.of_nat (S (Z.to_nat (Z.log2 n))).
Proof.
  intros Hn. split; [lia|].
  rewrite Nat2Z.inj_succ, Z2Nat.id by apply Z.log2_nonneg.
  destruct (decide (n = 0)) as [->|]; [reflexivity|].
  apply Z.log2_spec. lia.
Qed.

Lemma itoa_nonneg_length n k :
  0 <= n -> (1 <= k)%nat ->
  n < 10 ^ Z.of_nat k <-> (length (itoa n) <= k)%nat.
Proof.
  intros Hn Hk. unfold itoa.
  destruct (Z.ltb_spec n 0); [lia|].
  rewrite (utoa_length _ n [] k (log2_fuel n Hn) Hk). simpl. lia.
Qed.

Lemma itoa_length_pos n : (1 <= length (itoa n))%nat.
Proof.
  unfold itoa. destruct (n <? 0); simpl; [lia|].
  destruct (n / 10 =? 0); simpl; [lia|].
  pose proof (utoa_length_ge (Z.to_nat (Z.log2 n)) (n / 10) [digitChar (n mod 10)]) as H.
  simpl in H. lia.
Qed.

Lemma itoa_negative n : n < 0 -> itoa n = "-"%char :: itoa (- n).
Proof.
  intros Hn. unfold itoa.
  destruct (Z.ltb_spec n 0); [|lia]. destruct (Z.ltb_spec (- n) 0); [lia|].
  reflexivity.
Qed.

Lemma itoa_length_bound n k :
  (1 <= k)%nat -> - 10 ^ Z.of_nat k < n < 10 ^ Z.of_nat k ->
  (length (itoa n) <= k + 1)%nat.
Proof.
  intros Hk Hn. destruct (Z_lt_le_dec n 0) as [Hneg|Hpos].
  - assert (Hm : 0 <= - n) by lia.
    pose proof (proj1 (itoa_nonneg_length (- n) k Hm Hk) ltac:(lia)) as H.
    rewrite itoa_negative by lia. simpl. lia.
  - pose proof (proj1 (itoa_nonneg_length n k Hpos Hk) ltac:(lia)). lia.
Qed.

Lemma itoa_length_mono n m :
  0 <= n <= m -> (length (itoa n) <= length (itoa m))%nat.
Proof.
  intros Hnm. pose proof (itoa_length_pos m) as Hm.
  apply (itoa_nonneg_length n (length (itoa m))); [lia|lia|].
  assert (m < 10 ^ Z.of_nat (length (itoa m)))
    by (apply (itoa_nonneg_length m (length (itoa m))); lia).
  lia.
Qed.

End Decimal.

(** ** The window of [splitContent] *)

Section Window.

Local Open Scope Z_scope.

Lemma len_app (s t : str) : len (s ++ t) = len s + len t.
Proof. unfold len. rewrite length_app. lia. Qed.

Lemma len_nonneg (s : str) : 0 <= len s.
Proof. unfold len. lia. Qed.

Lemma indicator_length i total :
  len (indicator i total) = 4 + len (itoa i) + len (itoa total).
Proof. unfold indicator. rewrite !len_app. unfold len. simpl. lia. Qed.

Lemma wrap_range z : - 2 ^ 63 <= wrap z <= MaxInt.
Proof.
  unfold wrap, MaxInt.
  pose proof (Z.mod_pos_bound (z + 2 ^ 63) (2 ^ 64) ltac:(lia)). lia.
Qed.

Lemma wrap_id z : - 2 ^ 63 <= z <= MaxInt -> wrap z = z.
Proof.
  unfold wrap, MaxInt. intros Hz.
  rewrite Z.mod_small by lia. lia.
Qed.

Lemma estimatedTotal_range content :
  - 10 ^ 17 < Splitting.estimatedTotal content < 10 ^ 17.
Proof.
  unfold Splitting.estimatedTotal, Splitting.maxLength.
  pose proof (wrap_range (wrap (len content + 300) - 1)) as Hw.
  unfold MaxInt in Hw. change (300 - 10) with 290.
  set (w := wrap (wrap (len content + 300) - 1)) in *. clearbody w.
  pose proof (Z.quot_rem' w 290) as Hq.
  pose proof (Z.rem_bound_abs w 290 ltac:(lia)) as Hr.
  lia.
Qed.

(** Without overflow, the estimate is the quotient it is written as. *)
Lemma estimatedTotal_exact content :
  len content + 300 <= MaxInt ->
  Splitting.estimatedTotal content = (len content + 299) / 290.
Proof.
  intros Hfit. unfold Splitting.estimatedTotal, Splitting.maxLength.
  pose proof (len_nonneg content). unfold MaxInt in *.
  rewrite (wrap_id (len content + 300)) by (unfold MaxInt; lia).
  rewrite wrap_id by (unfold MaxInt; lia).
  rewrite Z.quot_div_nonneg by lia. f_equal. lia.
Qed.

Lemma window_bounds content :
  260 <= Splitting.effectiveMaxLength content <= 294.
Proof.
  unfold Splitting.effectiveMaxLength, Splitting.suffixSize, Splitting.maxLength.
  rewrite indicator_length.
  pose proof (itoa_length_pos (Splitting.estimatedTotal content)).
  pose proof (itoa_length_bound (Splitting.estimatedTotal content) 17 ltac:(lia)
                (estimatedTotal_range content)).
  unfold len. lia.
Qed.

End Window.

(** ** One iteration of the loop of [splitContent] *)

Section Iteration.

Local Open Scope Z_scope.

Lemma index_in_range (s : str) i :
  0 <= i < len s -> exists c, index s i = Done c /\ s !! Z.to_nat i = Some c.
Proof.
  intros Hi. unfold index.
  destruct (Z.leb_spec 0 i); [|lia]. destruct (Z.ltb_spec i (len s)); [|lia].
  simpl. destruct (s !! Z.to_nat i) as [c|] eqn:Hc; [eauto|].
  apply lookup_ge_None in Hc. unfold len in *. lia.
Qed.

Lemma scanBack_spec n (remaining : str) breakPoint :
  0 <= breakPoint <= Z.of_nat n -> breakPoint < len remaining ->
  exists b, Splitting.scanBack n remaining breakPoint = Done b
            /\ 0 <= b <= breakPoint.
Proof.
  revert breakPoint. induction n as [|n IH]; intros bp Hbp Hlen.
  - assert (bp = 0) by lia. subst bp. exists 0. simpl. split; [reflexivity|lia].
  - simpl. destruct (Z.gtb_spec bp 0) as [Hpos|Hzero].
    + destruct (index_in_range remaining bp ltac:(lia)) as (c & -> & _). simpl.
      destruct (Ascii.eqb c space).
      * exists bp. split; [reflexivity|lia].
      * destruct (IH (bp - 1) ltac:(lia) ltac:(lia)) as (b & Hb & Hrange).
        exists b. split; [exact Hb|lia].
    + exists bp. split; [reflexivity|lia].
Qed.

Lemma scanForward_spec n (remaining : str) limit breakPoint i :
  0 <= i -> limit <= len remaining -> limit - i <= Z.of_nat n ->
  exists b, Splitting.scanForward n remaining limit breakPoint i = Done b
            /\ (b = breakPoint \/ i <= b < limit).
Proof.
  revert i. induction n as [|n IH]; intros i Hi Hlim Hn.
  - simpl. destruct (Z.ltb_spec i limit); [lia|]. eauto.
  - simpl. destruct (Z.ltb_spec i limit) as [Hlt|Hge]; [|eauto].
    destruct (index_in_range remaining i ltac:(lia)) as (c & -> & _). simpl.
    destruct (Ascii.eqb c space).
    + exists i. split; [reflexivity|lia].
    + destruct (IH (i + 1) ltac:(lia) Hlim ltac:(lia)) as (b & Hb & Hrange).
      exists b. split; [exact Hb|lia].
Qed.

Lemma quot2_bounds eff : 2 <= eff -> 1 <= Z.quot eff 2 <= eff.
Proof.
  intros Heff. rewrite Z.quot_div_nonneg by lia.
  pose proof (Z.div_mod eff 2 ltac:(lia)).
  pose proof (Z.mod_pos_bound eff 2 ltac:(lia)). lia.
Qed.

(** The cut lies in the upper half of the window. *)
Lemma breakPointOf_spec eff (remaining : str) :
  2 <= eff < len remaining ->
  exists b, Splitting.breakPointOf eff remaining = Done b
            /\ Z.quot eff 2 <= b <= eff.
Proof.
  intros Heff. unfold Splitting.breakPointOf.
  pose proof (quot2_bounds eff ltac:(lia)) as Hq.
  destruct (scanBack_spec (Z.to_nat eff) remaining eff ltac:(lia) ltac:(lia))
    as (b0 & -> & Hb0). simpl.
  destruct (Z.ltb_spec b0 (Z.quot eff 2)) as [Hlow|Hhigh].
  - destruct (scanForward_spec (Z.to_nat eff) remaining
                (Z.min eff (len remaining)) (Z.quot eff 2) (Z.quot eff 2)
                ltac:(lia) ltac:(lia) ltac:(lia)) as (b & -> & Hb). simpl.
    destruct (Z.ltb_spec b (Z.quot eff 2)); simpl.
    + exists eff. split; [reflexivity|lia].
    + destruct (Z.eqb_spec b (Z.quot eff 2)).
      * exists eff. split; [reflexivity|lia].
      * exists b. split; [reflexivity|lia].
  - exists b0. split; [reflexivity|lia].
Qed.

Lemma sliceTo_in_range (s : str) hi :
  0 <= hi <= len s -> sliceTo s hi = Done (take (Z.to_nat hi) s).
Proof.
  intros H. unfold sliceTo.
  destruct (Z.leb_spec 0 hi); [|lia]. destruct (Z.leb_spec hi (len s)); [|lia].
  reflexivity.
Qed.

Lemma sliceFrom_in_range (s : str) lo :
  0 <= lo <= len s -> sliceFrom s lo = Done (drop (Z.to_nat lo) s).
Proof.
  intros H. unfold sliceFrom.
  destruct (Z.leb_spec 0 lo); [|lia]. destruct (Z.leb_spec lo (len s)); [|lia].
  reflexivity.
Qed.

(** What a cut leaves: the rest of the text, less the space cut at.  A
    space is dropped exactly when the text has one at the cut. *)
Lemma advance_spec (remaining : str) b :
  0 <= b < len remaining ->
  exists rest (sp : bool),
    Splitting.advance remaining b = Done rest
    /\ remaining = take (Z.to_nat b) remaining
                   ++ (if sp then [space] else []) ++ rest
    /\ (sp = false -> exists c rest', rest = c :: rest' /\ c <> space).
Proof.
  intros Hb. unfold Splitting.advance.
  destruct (Z.ltb_spec b (len remaining)); [|lia].
  destruct (index_in_range remaining b Hb) as (c & -> & Hc). simpl.
  destruct (Ascii.eqb_spec c space) as [->|Hne].
  - rewrite sliceFrom_in_range by lia.
    exists (drop (Z.to_nat (b + 1)) remaining), true. split; [reflexivity|].
    split; [|discriminate].
    replace (Z.to_nat (b + 1)) with (S (Z.to_nat b)) by lia.
    symmetry. apply take_drop_middle. exact Hc.
  - rewrite sliceFrom_in_range by lia.
    exists (drop (Z.to_nat b) remaining), false. split; [reflexivity|].
    split; [simpl; symmetry; apply take_drop|].
    intros _. exists c, (drop (S (Z.to_nat b)) remaining).
    split; [|exact Hne]. apply drop_S. exact Hc.
Qed.

End Iteration.

(** ** The loop and the whole of [splitContent] *)

Section Loop.

Local Open Scope Z_scope.

Lemma spacesAt_cons (text part : str) parts :
  spacesAt text (part :: parts)
  = match drop (length part) text with
    | c :: rest =>
        if Ascii.eqb c space then true :: spacesAt rest parts
        else false :: spacesAt (c :: rest) parts
    | [] => false :: spacesAt [] parts
    end.
Proof. reflexivity. Qed.

Lemma rejoin_cons (part : str) parts (b : bool) spaces :
  rejoin (part :: parts) (b :: spaces)
  = part ++ (if b then [space] else []) ++ rejoin parts spaces.
Proof. reflexivity. Qed.

(** The shape of what the loop appends, for a window of at least two
    bytes and enough fuel: parts no longer than the window, which give
    back [remaining] once a space is put back wherever [remaining] has one
    right after a part. *)
Lemma splitLoop_spec eff fuel :
  2 <= eff ->
  forall (remaining : str) (parts : list str),
    (length remaining < fuel)%nat ->
    exists new : list str,
      Splitting.splitLoop fuel eff remaining parts = Done (parts ++ new)
      /\ Forall (fun part => len part <= eff) new
      /\ rejoin new (spacesAt remaining new) = remaining
      /\ (0 < len remaining -> new <> [])
      /\ (eff + 1 < len remaining -> (2 <= length new)%nat).
Proof.
  intros Heff. induction fuel as [|fuel IH]; intros remaining parts Hfuel; [lia|].
  simpl. destruct (Z.gtb_spec (len remaining) 0) as [Hpos|Hempty].
  - destruct (Z.leb_spec (len remaining) eff) as [Hfits|Hlong].
    + exists [remaining]. simpl. rewrite drop_all. simpl. rewrite app_nil_r.
      repeat split; [|discriminate|lia]. constructor; [lia|constructor].
    + destruct (breakPointOf_spec eff remaining ltac:(lia)) as (b & -> & Hb).
      pose proof (quot2_bounds eff Heff) as Hq. simpl.
      rewrite sliceTo_in_range by lia. simpl.
      destruct (advance_spec remaining b ltac:(lia))
        as (rest & sp & -> & Hcut & Hhard).
      simpl.
      assert (Htake : length (take (Z.to_nat b) remaining) = Z.to_nat b).
      { rewrite length_take. unfold len in *. lia. }
      assert (Hrest : length remaining
                      = (Z.to_nat b + length (if sp then [space] else []) + length rest)%nat).
      { rewrite Hcut at 1. rewrite !length_app, Htake. lia. }
      destruct (IH rest (parts ++ [take (Z.to_nat b) remaining]) ltac:(lia))
        as (new & Hrun & Hlen & Hjoin & Hne & _).
      exists (take (Z.to_nat b) remaining :: new).
      rewrite Hrun, <- app_assoc.
      assert (Hdrop : drop (length (take (Z.to_nat b) remaining)) remaining
                      = (if sp then [space] else []) ++ rest).
      { rewrite Hcut at 2. rewrite drop_app_length. reflexivity. }
      split; [reflexivity|]. split; [constructor; [unfold len; lia|exact Hlen]|].
      split; [|split].
      * rewrite spacesAt_cons, Hdrop. destruct sp.
        -- cbn [app]. rewrite Ascii.eqb_refl, rejoin_cons, Hjoin.
           symmetry. exact Hcut.
        -- destruct (Hhard eq_refl) as (c & rest' & Hrest' & Hc).
           rewrite Hrest'. cbn [app].
           destruct (Ascii.eqb_spec c space) as [->|_]; [congruence|].
           rewrite rejoin_cons, <- Hrest', Hjoin. symmetry. exact Hcut.
      * discriminate.
      * intros Hmore. destruct new as [|part new]; [|simpl; lia].
        exfalso. apply Hne; [|reflexivity].
        unfold len in *. destruct sp; simpl in Hrest; lia.
  - exists []. rewrite app_nil_r.
    assert (remaining = []) by (destruct remaining; [reflexivity|unfold len in *; simpl in *; lia]).
    subst remaining. repeat split; [constructor|lia|unfold len; simpl; lia].
Qed.

Lemma addIndicators_length parts :
  length (Splitting.addIndicators parts) = length parts.
Proof. unfold Splitting.addIndicators. apply length_imap. Qed.

Lemma addIndicators_lookup parts i part :
  Splitting.addIndicators parts !! i = Some part ->
  exists body, parts !! i = Some body
               /\ part = body ++ indicator (Z.of_nat i + 1) (Z.of_nat (length parts)).
Proof.
  unfold Splitting.addIndicators. rewrite list_lookup_imap.
  destruct (parts !! i) as [body|]; simpl; [|discriminate].
  intros [= <-]. eauto.
Qed.

Lemma stripIndicators_addIndicators bodies :
  stripIndicators (Splitting.addIndicators bodies) = bodies.
Proof.
  apply list_eq. intros i. unfold stripIndicators.
  rewrite list_lookup_imap, addIndicators_length.
  unfold Splitting.addIndicators. rewrite list_lookup_imap.
  destruct (bodies !! i) as [body|]; simpl; [|reflexivity].
  f_equal. rewrite length_app, Nat.add_sub.
  apply take_app_length.
Qed.

(** A text of more than 300 bytes: the parts are bodies cut from the
    text, no longer than the window, each followed by its indicator. *)
Lemma splitContent_long content :
  300 < len content ->
  exists bodies : list str,
    Splitting.splitContent content = Done (Splitting.addIndicators bodies)
    /\ Forall (fun body => len body <= Splitting.effectiveMaxLength content) bodies
    /\ rejoin bodies (spacesAt content bodies) = content
    /\ (2 <= length bodies)%nat.
Proof.
  intros Hlong. unfold Splitting.splitContent, Splitting.maxLength.
  destruct (Z.leb_spec (len content) 300); [lia|].
  pose proof (window_bounds content) as Hw.
  destruct (splitLoop_spec (Splitting.effectiveMaxLength content) (S (length content))
              ltac:(lia) content [] ltac:(lia))
    as (bodies & -> & Hlen & Hjoin & _ & Htwo).
  simpl. exists bodies. repeat split; try assumption.
  apply Htwo. lia.
Qed.

Lemma splitContent_short content :
  len content <= 300 -> Splitting.splitContent content = Done [content].
Proof.
  intros Hshort. unfold Splitting.splitContent, Splitting.maxLength.
  destruct (Z.leb_spec (len content) 300); [reflexivity|lia].
Qed.

(** [splitContent] returns, and returns at least one part. *)
Lemma splitContent_returns (content : str) :
  exists parts, Splitting.splitContent content = Done parts /\ parts <> [].
Proof.
  destruct (Z_le_gt_dec (len content) 300) as [Hshort|Hlong].
  - exists [content]. split; [apply splitContent_short; exact Hshort|discriminate].
  - destruct (splitContent_long content ltac:(lia))
      as (bodies & Hrun & _ & _ & Htwo).
    exists (Splitting.addIndicators bodies). split; [exact Hrun|].
    intros Hnil. apply (f_equal (@length str)) in Hnil.
    rewrite addIndicators_length in Hnil. simpl in Hnil. lia.
Qed.

End Loop.

(** ** What the specification says of [splitContent] *)

Section SplitClaims.

Local Open Scope Z_scope.

(** C10.  [splitContent] ends on every text and returns at least one
    part: the window it computes is positive (at least 260 bytes, at most
    294), each iteration of the loop on a text longer than the window cuts
    a part off and leaves strictly less text, and the run, within the
    [len(content) + 1] iterations it is given, ends with a list that is
    not empty. *)
Theorem splitContent_terminates (content : str) :
  0 < Splitting.effectiveMaxLength content
  /\ (forall remaining : str,
        Splitting.effectiveMaxLength content < len remaining ->
        exists b part rest,
          Splitting.breakPointOf (Splitting.effectiveMaxLength content) remaining = Done b
          /\ sliceTo remaining b = Done part
          /\ Splitting.advance remaining b = Done rest
          /\ 1 <= len part
          /\ len rest < len remaining)
  /\ exists parts, Splitting.splitContent content = Done parts /\ parts <> [].
Proof.
  pose proof (window_bounds content) as Hw.
  split; [lia|]. split.
  - intros remaining Hlong.
    destruct (breakPointOf_spec (Splitting.effectiveMaxLength content) remaining
                ltac:(lia)) as (b & Hb & Hrange).
    pose proof (quot2_bounds (Splitting.effectiveMaxLength content) ltac:(lia)).
    destruct (advance_spec remaining b ltac:(lia)) as (rest & sp & Hadv & Hcut & _).
    exists b, (take (Z.to_nat b) remaining), rest.
    rewrite sliceTo_in_range by lia.
    assert (Htake : length (take (Z.to_nat b) remaining) = Z.to_nat b).
    { rewrite length_take. unfold len in *. lia. }
    repeat split; try assumption.
    + unfold len. lia.
    + apply (f_equal (@length ascii)) in Hcut.
      rewrite !length_app, Htake in Hcut. unfold len. lia.
  - apply splitContent_returns.
Qed.

(** C6, as stated, fails.  A text of 301 letters is cut inside the word,
    so that no space was removed, and putting a space at the boundary does
    not give the text back.  The parts do not determine the text either: a
    text cut at a space gives the very same parts. *)
Lemma rejoin_with_spaces_fails :
  exists parts,
    Splitting.splitContent hardCutPost = Done parts
    /\ Splitting.splitContent spaceCutPost = Done parts
    /\ hardCutPost <> spaceCutPost
    /\ rejoinWithSpaces (stripIndicators parts) <> hardCutPost.
Proof.
  eexists. split; [vm_compute; reflexivity|].
  split; [vm_compute; reflexivity|].
  split; intros H; apply (f_equal (@length ascii)) in H; vm_compute in H;
    discriminate.
Qed.

(** C6, amended.  For a text of more than 300 bytes, the parts without
    their indicators, in order, with one space put back at each boundary
    where the text has a space right after the part, and nothing at a
    boundary where the text was cut inside a word, are the text. *)
Theorem splitContent_rejoin (content : str) :
  300 < len content ->
  exists parts : list str,
    Splitting.splitContent content = Done parts
    /\ rejoin (stripIndicators parts) (spacesAt content (stripIndicators parts))
       = content.
Proof.
  intros Hlong.
  destruct (splitContent_long content Hlong) as (bodies & Hrun & _ & Hjoin & _).
  exists (Splitting.addIndicators bodies).
  rewrite stripIndicators_addIndicators. auto.
Qed.

Lemma splitContent_rejoin_witness :
  300 < len spaceCutPost
  /\ exists parts : list str,
       Splitting.splitContent spaceCutPost = Done parts
       /\ rejoin (stripIndicators parts)
            (spacesAt spaceCutPost (stripIndicators parts))
          = spaceCutPost.
Proof.
  assert (H : 300 < len spaceCutPost) by (vm_compute; reflexivity).
  split; [exact H|apply (splitContent_rejoin spaceCutPost H)].
Defined.

(** C1, at a text on which it fails: [overlongPost] has 1625 bytes, the
    estimate is 6 parts and the window 294 bytes; the text is cut into 10
    parts, and the first, 294 bytes long, has 301 bytes with its indicator
    " (1/10)". *)
Theorem splitContent_part_over_limit :
  Splitting.estimatedTotal overlongPost = 6
  /\ Splitting.effectiveMaxLength overlongPost = 294
  /\ exists parts part,
       Splitting.splitContent overlongPost = Done parts
       /\ length parts = 10%nat
       /\ parts !! 0%nat = Some part
       /\ part = rep 294 (lit "a") ++ lit " (1/10)"
       /\ len part = 301.
Proof.
  split; [vm_compute; reflexivity|]. split; [vm_compute; reflexivity|].
  eexists. eexists. split; [vm_compute; reflexivity|].
  repeat split; vm_compute; reflexivity.
Qed.

(** The reserve does suffice whenever the number of parts has no more
    digits than the estimate. *)
Lemma parts_fit_when_estimate_has_the_digits (content : str) parts :
  Splitting.splitContent content = Done parts ->
  (length (itoa (Z.of_nat (length parts)))
   <= length (itoa (Splitting.estimatedTotal content)))%nat ->
  Forall (fun part => len part <= 300) parts.
Proof.
  intros Hrun Hdigits.
  destruct (Z_le_gt_dec (len content) 300) as [Hshort|Hlong].
  - rewrite splitContent_short in Hrun by exact Hshort.
    injection Hrun as <-. constructor; [exact Hshort|constructor].
  - destruct (splitContent_long content ltac:(lia))
      as (bodies & Hrun' & Hlen & _ & _).
    rewrite Hrun' in Hrun. injection Hrun as <-.
    rewrite addIndicators_length in Hdigits.
    apply Forall_lookup_2. intros i part Hi.
    apply addIndicators_lookup in Hi as (body & Hbody & ->).
    pose proof (Forall_lookup_1 _ _ _ _ Hlen Hbody) as Hb. simpl in Hb.
    apply lookup_lt_Some in Hbody.
    unfold Splitting.effectiveMaxLength, Splitting.suffixSize, Splitting.maxLength in Hb.
    rewrite indicator_length in Hb. rewrite len_app, indicator_length.
    pose proof (itoa_length_mono (Z.of_nat i + 1) (Z.of_nat (length bodies))
                  ltac:(lia)).
    unfold len in *. lia.
Qed.

End SplitClaims.

(** ** Bytes and characters *)

Section Bytes.

Local Open Scope Z_scope.

Lemma digitChar_ascii n : isContinuation (digitChar (n mod 10)) = false.
Proof.
  pose proof (Z.mod_pos_bound n 10 ltac:(lia)) as Hd.
  unfold digitChar, isContinuation.
  rewrite nat_ascii_embedding by lia.
  apply andb_false_intro1. apply Nat.leb_gt. lia.
Qed.

Lemma utoa_ascii fuel n acc :
  Forall (fun c => isContinuation c = false) acc ->
  Forall (fun c => isContinuation c = false) (utoa fuel n acc).
Proof.
  revert n acc. induction fuel as [|fuel IH]; intros n acc Hacc; simpl; [exact Hacc|].
  destruct (n / 10 =? 0).
  - constructor; [apply digitChar_ascii|exact Hacc].
  - apply IH. constructor; [apply digitChar_ascii|exact Hacc].
Qed.

Lemma itoa_ascii n : Forall (fun c => isContinuation c = false) (itoa n).
Proof.
  unfold itoa. destruct (n <? 0).
  - constructor; [reflexivity|]. apply utoa_ascii. constructor.
  - apply utoa_ascii. constructor.
Qed.

Lemma indicator_ascii i total :
  Forall (fun c => isContinuation c = false) (indicator i total).
Proof.
  unfold indicator. repeat apply Forall_app_2; try apply itoa_ascii;
    repeat constructor.
Qed.

(** From byte 294 on, a part that [splitContent] returns for a text of
    more than 300 bytes is its indicator. *)
Lemma part_tail_is_indicator (content : str) parts part j c :
  300 < len content ->
  Splitting.splitContent content = Done parts ->
  part ∈ parts ->
  (294 <= j)%nat -> part !! j = Some c ->
  isContinuation c = false.
Proof.
  intros Hlong Hrun Hin Hj Hc.
  destruct (splitContent_long content Hlong)
    as (bodies & Hrun' & Hlen & _ & _).
  rewrite Hrun' in Hrun. injection Hrun as <-.
  apply list_elem_of_lookup in Hin as (i & Hi).
  apply addIndicators_lookup in Hi as (body & Hbody & ->).
  pose proof (Forall_lookup_1 _ _ _ _ Hlen Hbody) as Hb. simpl in Hb.
  pose proof (window_bounds content) as Hw.
  rewrite lookup_app_r in Hc by (unfold len in *; lia).
  exact (Forall_lookup_1 _ _ _ _ (indicator_ascii _ _) Hc).
Qed.

End Bytes.

Section ByteClaims.

Local Open Scope Z_scope.

(** C9, as stated, fails in its last part: the truncation at byte 297
    never falls inside a character.  Whatever the text, in a part of more
    than 300 bytes the byte at offset 297, the first one dropped, is a byte
    of the indicator and no continuation byte. *)
Lemma truncation_splits_no_character :
  ~ exists (content : str) (parts : list str) (part : str) (c : ascii),
      Splitting.splitContent content = Done parts
      /\ part ∈ parts
      /\ 300 < len part
      /\ part !! 297%nat = Some c
      /\ isContinuation c = true.
Proof.
  intros (content & parts & part & c & Hrun & Hin & Hover & Hc & Hcont).
  destruct (Z_le_gt_dec (len content) 300) as [Hshort|Hlong].
  - rewrite splitContent_short in Hrun by exact Hshort.
    injection Hrun as <-. apply list_elem_of_singleton in Hin. subst part. lia.
  - rewrite (part_tail_is_indicator content parts part 297 c) in Hcont;
      [discriminate|lia|assumption..|lia|assumption].
Qed.

(** C9, amended.  The limits count bytes: every text of more than 300
    bytes is split, however few characters it has (151 characters in 302
    bytes are split in two); a part of more than 300 bytes is cut down to
    its first 297 bytes and "..."; that cut falls in the indicator, whose
    bytes are all ASCII, since the text of a part ends before byte 294.  A
    character is split where [splitContent] itself cuts inside a word: for
    [splitCharPost], which is well-formed UTF-8, the first part is not, and
    neither is what is left of it after the truncation. *)
Theorem limits_count_bytes :
  (forall content : str,
      300 < len content ->
      exists parts, Splitting.splitContent content = Done parts
                    /\ (2 <= length parts)%nat)
  /\ (forall part : str,
        300 < len part ->
        Bridge.truncated part = take 297 part ++ lit "..."
        /\ len (Bridge.truncated part) = 300)
  /\ (forall (content : str) parts part j c,
        300 < len content ->
        Splitting.splitContent content = Done parts ->
        part ∈ parts ->
        (294 <= j)%nat -> part !! j = Some c ->
        isContinuation c = false)
  /\ (ValidString accentedPost = true
      /\ runeCount accentedPost = 151%nat
      /\ len accentedPost = 302)
  /\ (ValidString splitCharPost = true
      /\ exists parts part,
           Splitting.splitContent splitCharPost = Done parts
           /\ parts !! 0%nat = Some part
           /\ len part = 301
           /\ ValidString part = false
           /\ ValidString (Bridge.truncated part) = false).
Proof.
  split.
  { intros content Hlong.
    destruct (splitContent_long content Hlong)
      as (bodies & Hrun & _ & _ & Htwo).
    exists (Splitting.addIndicators bodies). rewrite addIndicators_length. auto. }
  split.
  { intros part Hover. unfold Bridge.truncated.
    destruct (Z.gtb_spec (len part) 300); [|lia].
    split; [reflexivity|]. rewrite len_app. unfold len in *.
    rewrite length_take. change (length (lit "...")) with 3%nat. lia. }
  split; [exact part_tail_is_indicator|].
  split; [repeat split; vm_compute; reflexivity|].
  split; [vm_compute; reflexivity|].
  eexists. eexists. split; [vm_compute; reflexivity|].
  repeat split; vm_compute; reflexivity.
Qed.

Lemma limits_count_bytes_witness :
  300 < len accentedPost
  /\ exists parts, Splitting.splitContent accentedPost = Done parts
                   /\ (2 <= length parts)%nat.
Proof.
  assert (H : 300 < len accentedPost) by (vm_compute; reflexivity).
  split; [exact H|exact (proj1 limits_count_bytes accentedPost H)].
Defined.

End ByteClaims.

(** ** The edit-lineage table *)

Section LineageTable.

(** C8.  [CheckIfEdit] writes: called with an [originalID] that is not
    empty and differs from the post id, it answers [(originalID, true)]
    and leaves the row [mastodonID -> originalID] in the table of edits,
    new or in place of the row that was there, the other tables being as
    before; called otherwise, it leaves the database as it was. *)
Theorem CheckIfEdit_writes_lineage (d : Database) (mastodonID originalID : str) :
  (originalID <> [] -> originalID <> mastodonID ->
   Db.CheckIfEdit d mastodonID originalID
   = ((originalID, true), Db.MarkAsEdit d mastodonID originalID)
   /\ edits (Db.CheckIfEdit d mastodonID originalID).2
      = <[mastodonID := originalID]> (edits d)
   /\ edits (Db.CheckIfEdit d mastodonID originalID).2 !! mastodonID
      = Some originalID
   /\ post_mappings (Db.CheckIfEdit d mastodonID originalID).2 = post_mappings d
   /\ state (Db.CheckIfEdit d mastodonID originalID).2 = state d)
  /\ (originalID = [] \/ originalID = mastodonID ->
      (Db.CheckIfEdit d mastodonID originalID).2 = d).
Proof.
  unfold Db.CheckIfEdit, eqs. split.
  - intros Hne Hdiff.
    rewrite !bool_decide_eq_false_2 by assumption. simpl.
    repeat split; try reflexivity. apply lookup_insert_eq.
  - intros [->| ->].
    + rewrite bool_decide_eq_true_2 by reflexivity. simpl.
      destruct (edits d !! mastodonID); reflexivity.
    + rewrite (bool_decide_eq_true_2 (mastodonID = mastodonID)) by reflexivity.
      rewrite andb_false_r.
      destruct (edits d !! mastodonID); reflexivity.
Qed.

Lemma CheckIfEdit_writes_lineage_witness :
  (lit "109" <> [] /\ lit "109" <> lit "110")
  /\ edits (Db.CheckIfEdit (mkDatabase ∅ ∅ ∅) (lit "110") (lit "109")).2
     !! lit "110" = Some (lit "109").
Proof.
  assert (H1 : lit "109" <> []) by discriminate.
  assert (H2 : lit "109" <> lit "110") by discriminate.
  split; [split; assumption|].
  exact (proj1 (proj2 (proj2
    (proj1 (CheckIfEdit_writes_lineage (mkDatabase ∅ ∅ ∅) (lit "110") (lit "109"))
       H1 H2)))).
Defined.

End LineageTable.

(** ** Frames: what a computation leaves alone *)

Section Frames.

Context {P : Event -> Prop}.

Lemma steps_refl w : steps P w w.
Proof. split; [reflexivity|]. exists []. rewrite app_nil_r. auto. Qed.

Lemma steps_trans w1 w2 w3 : steps P w1 w2 -> steps P w2 w3 -> steps P w1 w3.
Proof.
  intros [Hd1 (e1 & Ht1 & Hp1)] [Hd2 (e2 & Ht2 & Hp2)].
  split; [congruence|]. exists (e1 ++ e2).
  rewrite Ht2, Ht1, app_assoc. split; [reflexivity|]. apply Forall_app; auto.
Qed.

Lemma keeps_ret {A} (a : A) : keeps P (ret a).
Proof. intros w. apply steps_refl. Qed.

Lemma keeps_lift {A} (r : run A) : keeps P (lift r).
Proof. intros w. apply steps_refl. Qed.

Lemma keeps_history : keeps P history.
Proof. intros w. apply steps_refl. Qed.

Lemma keeps_getDb : keeps P getDb.
Proof. intros w. apply steps_refl. Qed.

Lemma keeps_emit e : P e -> keeps P (emit e).
Proof.
  intros He w. split; [reflexivity|]. exists [e]. split; [reflexivity|].
  constructor; [exact He|constructor].
Qed.

Lemma keeps_bind {A B} (m : M A) (k : A -> M B) :
  keeps P m -> (forall a, keeps P (k a)) -> keeps P (bind m k).
Proof.
  intros Hm Hk w. unfold bind. specialize (Hm w).
  destruct (m w) as [[a| |] w1]; simpl in *; try exact Hm.
  eapply steps_trans; [exact Hm|apply Hk].
Qed.

Lemma keeps_forEach {A} (xs : list A) (body : A -> M unit) :
  (forall x, keeps P (body x)) -> keeps P (forEach xs body).
Proof.
  intros Hbody. induction xs as [|x xs IH]; simpl.
  - apply keeps_ret.
  - apply keeps_bind; [apply Hbody|intros _; exact IH].
Qed.

End Frames.

(** Steps through the structure of a computation. *)
Ltac keeps_step :=
  first
    [ apply keeps_ret | apply keeps_lift | apply keeps_history | apply keeps_getDb
    | apply keeps_forEach; intros
    | apply keeps_emit
    | apply keeps_bind; [|intros] ].

Ltac keeps_auto :=
  repeat (keeps_step
          || match goal with
             | |- keeps _ (match ?x with _ => _ end) => destruct x
             | |- keeps _ (if ?b then _ else _) => destruct b
             | |- keeps _ (let '(_, _) := ?x in _) => destruct x
             end).

Section ClientFrames.

Variable svc : Services.
Variable lib : GoLib.
Variable P : Event -> Prop.

Lemma keeps_DeletePost recordID :
  (forall id res, P (EvDeletePost id res)) -> keeps P (Bluesky.DeletePost svc recordID).
Proof. intros HP. unfold Bluesky.DeletePost. keeps_auto. apply HP. Qed.

Hypothesis P_auth : P EvEnsureAuth.
Hypothesis P_resolve : forall handle, P (EvResolveHandle handle).
Hypothesis P_feed : forall actor limit, P (EvAuthorFeed actor limit).
Hypothesis P_search : forall q limit, P (EvSearchPosts q limit).

Lemma keeps_tryHandles handles mastodonPostID :
  keeps P (Bluesky.tryHandles svc handles mastodonPostID).
Proof using P_resolve P_feed.
  induction handles as [|handle rest IH]; simpl.
  - apply keeps_ret.
  - unfold Bluesky.resolveHandle, Bluesky.findPostInUserFeed. keeps_auto; auto.
Qed.

Lemma keeps_LookupBridgedMastodonPost id user inst content name date :
  keeps P (Bluesky.LookupBridgedMastodonPost svc lib id user inst content name date).
Proof using P_auth P_resolve P_feed P_search.
  unfold Bluesky.LookupBridgedMastodonPost. 
  apply keeps_bind; [apply keeps_history|intros h].
  apply keeps_bind; [apply keeps_emit, P_auth|intros _].
  destruct (ensureAuth svc h); [apply keeps_ret|].
  apply keeps_bind; [apply keeps_tryHandles|intros viaHandle].
  destruct viaHandle; [apply keeps_ret|].
  unfold Bluesky.searchForPost, Bluesky.contentMatch,
    Bluesky.findPostByContentAndName.
  keeps_auto; auto.
Qed.

End ClientFrames.

(** ** [ProcessPost] with the content hash: posts left alone *)

Section HashedFrames.

Lemma finishes_bind {A B} (m : M A) (k : A -> M B) :
  finishes m -> (forall a, finishes (k a)) -> finishes (bind m k).
Proof.
  intros Hm Hk w. unfold bind. destruct (Hm w) as (a & w1 & ->). apply Hk.
Qed.

Lemma finishes_ret {A} (a : A) : finishes (ret a).
Proof. intros w. eauto. Qed.

Lemma finishes_forEach {A} (xs : list A) (body : A -> M unit) :
  (forall x, finishes (body x)) -> finishes (forEach xs body).
Proof.
  intros Hbody. induction xs as [|x xs IH]; simpl.
  - apply finishes_ret.
  - apply finishes_bind; [apply Hbody|intros _; exact IH].
Qed.

Lemma finishes_DeletePost svc id : finishes (Bluesky.DeletePost svc id).
Proof. intros w. eexists _, _. unfold Bluesky.DeletePost, bind, history, emit, ret. simpl. reflexivity. Qed.

Lemma finishes_deleteExisting svc id : finishes (Hashed.deleteExisting svc id).
Proof.
  unfold Hashed.deleteExisting. intros w. unfold bind at 1. simpl.
  destruct (Db.GetBlueskyIDsForMastodonPost (db w) id) as [ids|]; [|apply finishes_ret].
  destruct (0 <? length ids)%nat; [|apply finishes_ret].
  apply finishes_forEach. intros x. apply finishes_bind; [apply finishes_DeletePost|].
  intros _. apply finishes_ret.
Qed.

Lemma quiet_delete id res : quiet (EvDeletePost id res).
Proof. split; reflexivity. Qed.

Lemma keeps_deleteExisting svc id : keeps quiet (Hashed.deleteExisting svc id).
Proof.
  unfold Hashed.deleteExisting. keeps_auto. apply quiet_delete.
Qed.

(** The first 8 bytes of a hash of the library. *)
Lemma hash_prefix lib content :
  sliceTo (Hashed.hashPostContent lib content) 8
  = Done (take 8 (Hashed.hashPostContent lib content)).
Proof.
  unfold sliceTo, Hashed.hashPostContent. rewrite sha256hex_length. reflexivity.
Qed.

(** The branch of a changed post: the deletion when the stored hash has
    its 8 bytes, a panic before anything is done otherwise. *)
Lemma changed_long svc lib existingHash content id w :
  (8 <= len existingHash)%Z ->
  Hashed.changed svc existingHash (Hashed.hashPostContent lib content) id w
  = Hashed.deleteExisting svc id w.
Proof.
  intros Hlong. unfold Hashed.changed, bind at 1, lift. unfold sliceTo at 1.
  destruct (Z.leb_spec 8 (len existingHash)); [|lia]. cbn [andb Z.leb].
  unfold bind at 1. rewrite hash_prefix. reflexivity.
Qed.

Lemma changed_short svc existingHash contentHash id w :
  (len existingHash < 8)%Z ->
  Hashed.changed svc existingHash contentHash id w = (Panic, w).
Proof.
  intros Hshort. unfold Hashed.changed, bind at 1, lift. unfold sliceTo at 1.
  destruct (Z.leb_spec 8 (len existingHash)); [lia|]. reflexivity.
Qed.

Lemma keeps_changed svc existingHash contentHash id :
  keeps quiet (Hashed.changed svc existingHash contentHash id).
Proof.
  unfold Hashed.changed.
  apply keeps_bind; [apply keeps_lift|intros _].
  apply keeps_bind; [apply keeps_lift|intros _].
  apply keeps_deleteExisting.
Qed.

Lemma quiet_lookup_events :
  quiet EvEnsureAuth /\ (forall h, quiet (EvResolveHandle h))
  /\ (forall a l, quiet (EvAuthorFeed a l)) /\ (forall q l, quiet (EvSearchPosts q l))
  /\ (forall id, quiet (EvGetStatus id)).
Proof. repeat split. Qed.

Lemma keeps_foreignParent svc lib post : keeps quiet (Hashed.foreignParent svc lib post).
Proof.
  destruct quiet_lookup_events as (Ha & Hr & Hf & Hs & Hg).
  unfold Hashed.foreignParent.
  apply keeps_bind.
  { unfold Hashed.GetPostWithEdits. keeps_auto. apply Hg. }
  intros [err|parentPost]; [apply keeps_ret|].
  destruct (_ && _); [|apply keeps_ret].
  apply keeps_bind; [apply keeps_LookupBridgedMastodonPost; assumption|].
  intros [err|[uri cid]]; apply keeps_ret.
Qed.

Lemma keeps_resolveParent svc lib post : keeps quiet (Hashed.resolveParent svc lib post).
Proof.
  unfold Hashed.resolveParent.
  destruct (negb _); [|apply keeps_ret].
  apply keeps_bind; [apply keeps_getDb|intros d].
  apply keeps_bind.
  - destruct (Db.GetBlueskyIDsForMastodonPost d (InReplyToID post)) as [ids|];
      [destruct (last ids)|]; try apply keeps_foreignParent. apply keeps_ret.
  - intros [[uri cid]|]; [destruct (eqs uri [])|]; apply keeps_ret.
Qed.

Lemma quiet_frame w w' :
  steps quiet w w' ->
  db w' = db w
  /\ creationResults (trace w') = creationResults (trace w)
  /\ mappingWrites (trace w') = mappingWrites (trace w).
Proof.
  intros [Hdb (evs & -> & Hquiet)]. split; [exact Hdb|].
  unfold creationResults, mappingWrites. rewrite !omap_app.
  assert (omap creationResult evs = [] /\ omap mappingWrite evs = []) as [-> ->].
  { induction Hquiet as [|e evs [Hc Hm] _ [IHc IHm]]; [split; reflexivity|].
    simpl. rewrite Hc, Hm. auto. }
  rewrite !app_nil_r. auto.
Qed.

End HashedFrames.

(** ** The fields of an answer ["uri|cid"] *)

Section SplitFields.

Variable sep : ascii.

Lemma Split_nonempty s : Split s sep <> [].
Proof.
  destruct s as [|c s]; simpl; [discriminate|].
  destruct (Ascii.eqb c sep); [discriminate|].
  destruct (Split s sep); discriminate.
Qed.

Lemma Split_without_sep s : sep ∉ s -> Split s sep = [s].
Proof.
  induction s as [|c s IH]; intros Hs; simpl; [reflexivity|].
  apply not_elem_of_cons in Hs as [Hc Hs].
  destruct (Ascii.eqb_spec c sep); [congruence|].
  rewrite IH by exact Hs. reflexivity.
Qed.

Lemma Split_at_first_sep u c :
  sep ∉ u -> Split (u ++ sep :: c) sep = u :: Split c sep.
Proof.
  induction u as [|x u IH]; intros Hu; simpl.
  - rewrite Ascii.eqb_refl. reflexivity.
  - apply not_elem_of_cons in Hu as [Hx Hu].
    destruct (Ascii.eqb_spec x sep); [congruence|].
    rewrite IH by exact Hu. reflexivity.
Qed.

Lemma Split_length_with_sep s : sep ∈ s -> (2 <= length (Split s sep))%nat.
Proof.
  induction s as [|x s IH]; intros Hs; [inversion Hs|]. simpl.
  destruct (Ascii.eqb_spec x sep) as [->|Hx].
  - pose proof (Split_nonempty s). destruct (Split s sep); [congruence|simpl; lia].
  - apply elem_of_cons in Hs as [->|Hs]; [congruence|].
    specialize (IH Hs). destruct (Split s sep); simpl in *; lia.
Qed.

Lemma Split_length_app u c :
  sep ∈ u -> (3 <= length (Split (u ++ sep :: c) sep))%nat.
Proof.
  induction u as [|x u IH]; intros Hu; [inversion Hu|]. simpl.
  destruct (Ascii.eqb_spec x sep) as [->|Hx].
  - assert (sep ∈ u ++ sep :: c) by (apply elem_of_app; right; left).
    pose proof (Split_length_with_sep _ H). simpl. lia.
  - apply elem_of_cons in Hu as [->|Hu]; [congruence|].
    specialize (IH Hu). destruct (Split (u ++ sep :: c) sep); simpl in *; lia.
Qed.

Lemma Split_one_field s f : Split s sep = [f] -> f = s.
Proof.
  intros H. destruct (decide (sep ∈ s)) as [Hin|Hout].
  - apply Split_length_with_sep in Hin. rewrite H in Hin. simpl in Hin. lia.
  - rewrite Split_without_sep in H by exact Hout. congruence.
Qed.

(** An answer that splits into two fields splits into its uri and cid. *)
Lemma Split_two_fields u c a b :
  Split (u ++ sep :: c) sep = [a; b] -> a = u /\ b = c.
Proof.
  intros H. destruct (decide (sep ∈ u)) as [Hin|Hout].
  - apply (Split_length_app u c) in Hin. rewrite H in Hin. simpl in Hin. lia.
  - rewrite Split_at_first_sep in H by exact Hout.
    injection H as <- H. split; [reflexivity|]. apply Split_one_field. exact H.
Qed.

End SplitFields.

(** ** What the specification says of the later [ProcessPost] *)

Section HashedClaims.

(** C4.  When the hash stored for a post is the hash of its content,
    [ProcessPost] returns without an error and leaves the world as it
    was: no event is added to the trace, so that nothing is created and
    nothing deleted, and the database, the post mappings among it, is the
    same.  Processing the post again, any number of times, therefore gives
    the same world still. *)
Theorem unchanged_post_is_left_alone
    (svc : Services) (lib : GoLib) (cfg : Config) (post : Post) (w : World) :
  state (db w) !! (lit "content_hash_" ++ ID post)
  = Some (Hashed.hashPostContent lib (Content post)) ->
  Hashed.ProcessPost svc lib cfg post w = (Done None, w)
  /\ forall n, iterate (Hashed.ProcessPost svc lib cfg post) n w = w.
Proof.
  intros Hstored.
  assert (Hone : Hashed.ProcessPost svc lib cfg post w = (Done None, w)).
  { unfold Hashed.ProcessPost.
    destruct (Bridge.skipped lib cfg post); [reflexivity|].
    unfold bind at 1. simpl. unfold Db.GetContentHash. rewrite Hstored.
    unfold eqs. rewrite bool_decide_eq_true_2 by reflexivity.
    unfold bind, lift. rewrite hash_prefix. reflexivity. }
  split; [exact Hone|].
  induction n as [|n IH]; simpl; [reflexivity|].
  rewrite Hone. exact IH.
Qed.

Lemma unchanged_post_is_left_alone_witness :
  state (db hashedWorld) !! (lit "content_hash_" ++ ID (samplePost (lit "110") (lit "hello") [] []))
  = Some (Hashed.hashPostContent sampleLib (Content (samplePost (lit "110") (lit "hello") [] [])))
  /\ Hashed.ProcessPost refusingServices sampleLib noFilter
       (samplePost (lit "110") (lit "hello") [] []) hashedWorld
     = (Done None, hashedWorld)
  /\ forall n,
       iterate (Hashed.ProcessPost refusingServices sampleLib noFilter
                  (samplePost (lit "110") (lit "hello") [] [])) n hashedWorld
       = hashedWorld.
Proof.
  assert (H : state (db hashedWorld)
              !! (lit "content_hash_" ++ ID (samplePost (lit "110") (lit "hello") [] []))
              = Some (Hashed.hashPostContent sampleLib
                        (Content (samplePost (lit "110") (lit "hello") [] []))))
    by (vm_compute; reflexivity).
  split; [exact H|].
  exact (unchanged_post_is_left_alone refusingServices sampleLib noFilter _ _ H).
Defined.

(** C3, as stated, fails for the earlier revision of [ProcessPost], which
    has no resolvers and does not skip: a reply whose parent has no post
    mapping is posted as a post of its own. *)
Lemma Lineage_posts_reply_without_parent :
  exists w',
    Lineage.ProcessPost numberedServices sampleLib noFilter
      (samplePost (lit "111") (lit "I agree") (lit "55") []) emptyWorld
    = (Done None, w')
    /\ trace w'
       = [EvCreatePost (lit "I agree") (inr (postUri (lit "3k0"), lit "cid0"));
          EvSavePostMapping (lit "111") [postUri (lit "3k0") ++ lit "|cid0"]].
Proof. eexists. split; vm_compute; reflexivity. Qed.

End HashedClaims.

(** ** The posting loop *)

Section Posting.

Variable svc : Services.

Lemma cleanUp_run bskyIDs w :
  exists w',
    Bridge.cleanUp svc bskyIDs w = (Done tt, w')
    /\ db w' = db w
    /\ exists evs, trace w' = trace w ++ evs
                   /\ Forall2 deletes evs (map firstField bskyIDs).
Proof.
  revert w. induction bskyIDs as [|id ids IH]; intros w.
  - exists w. split; [reflexivity|]. split; [reflexivity|].
    exists []. rewrite app_nil_r. split; [reflexivity|constructor].
  - unfold Bridge.cleanUp. simpl. fold (Bridge.cleanUp svc ids).
    unfold firstField at 1. pose proof (Split_nonempty "|"%char id) as Hne.
    destruct (Split id "|"%char) as [|uri fields]; [congruence|].
    unfold bind at 1. unfold bind at 1.
    unfold Bluesky.DeletePost, bind, history, emit, ret. simpl.
    fold (@bind unit unit). 
    match goal with |- context [Bridge.cleanUp svc ids ?w1] =>
      destruct (IH w1) as (w' & Hrun & Hdb & evs & Htrace & Hdel) end.
    exists w'. split; [exact Hrun|]. split; [exact Hdb|].
    exists (EvDeletePost uri (deleteRecord svc (trace w) uri) :: evs).
    split; [rewrite Htrace; simpl; rewrite <- app_assoc; reflexivity|].
    constructor; [eexists; reflexivity|exact Hdel].
Qed.

Lemma firstField_joined created :
  recorded created = true -> firstField (joined created) = created.1.
Proof.
  destruct created as [u c]. unfold recorded, firstField, joined. simpl.
  destruct (Split (u ++ "|"%char :: c) "|"%char) as [|a [|b [|x l]]] eqn:Hs;
    try discriminate.
  intros _. apply Split_two_fields in Hs as [-> _]. reflexivity.
Qed.

(** One creation: an event with the answer of the service. *)
Lemma create_run (first : bool) part lastCid lastUri w :
  exists ev res,
    (if first then Bluesky.CreatePost svc part
     else Bluesky.CreateReply svc part lastCid lastUri) w
    = (Done (match res with
             | inl err => inl err
             | inr created => inr (joined created)
             end),
       {| db := db w; trace := trace w ++ [ev] |})
    /\ creationResult ev = Some res.
Proof.
  destruct first.
  - exists (EvCreatePost part (createRecord svc (trace w) part None)),
      (createRecord svc (trace w) part None).
    split; [|reflexivity].
    unfold Bluesky.CreatePost, bind, history, emit, ret. simpl.
    destruct (createRecord svc (trace w) part None) as [err|[uri cid]]; reflexivity.
  - exists (EvCreateReply part lastCid lastUri
              (createRecord svc (trace w) part (Some (lastCid, lastUri)))),
      (createRecord svc (trace w) part (Some (lastCid, lastUri))).
    split; [|reflexivity].
    unfold Bluesky.CreateReply, bind, history, emit, ret. simpl.
    destruct (createRecord svc (trace w) part (Some (lastCid, lastUri)))
      as [err|[uri cid]]; reflexivity.
Qed.

(** The posting loop: successful creations, in order, and then either
    the end of the parts, or one failed creation followed by a call of
    [DeletePost] for each recorded answer. *)
Lemma postParts_run parts :
  forall i parentUri parentCid lastUri lastCid bskyIDs w,
  exists outcome w',
    Bridge.postParts svc parts i parentUri parentCid lastUri lastCid bskyIDs w
    = (Done outcome, w')
    /\ db w' = db w
    /\ exists before created,
         Forall2 createdBy before created
         /\ match outcome with
            | inr out =>
                trace w' = trace w ++ before
                /\ out = bskyIDs ++ map joined (List.filter recorded created)
                /\ length created = length parts
            | inl err =>
                exists failed rollback,
                  trace w' = trace w ++ before ++ [failed] ++ rollback
                  /\ creationResult failed = Some (inl err)
                  /\ Forall2 deletes rollback
                       (map firstField bskyIDs
                        ++ map fst (List.filter recorded created))
                  /\ (length created < length parts)%nat
            end.
Proof.
  induction parts as [|part parts IH];
    intros i parentUri parentCid lastUri lastCid bskyIDs w.
  - exists (inr bskyIDs), w. split; [reflexivity|]. split; [reflexivity|].
    exists [], []. split; [constructor|]. simpl. rewrite !app_nil_r. auto.
  - simpl. unfold bind at 1.
    destruct (create_run (Nat.eqb i 0 && eqs parentUri [] && eqs parentCid [])
                (Bridge.truncated part) lastCid lastUri w)
      as (ev & res & -> & Hev).
    destruct res as [err|created].
    + unfold bind at 1.
      match goal with |- context [Bridge.cleanUp svc bskyIDs ?w1] =>
        destruct (cleanUp_run bskyIDs w1) as (w' & -> & Hdb & evs & Htrace & Hdel)
      end.
      exists (inl err), w'. split; [reflexivity|]. split; [exact Hdb|].
      exists [], []. split; [constructor|].
      exists ev, evs. simpl in *. rewrite Htrace, <- app_assoc. simpl.
      rewrite app_nil_r. repeat split; auto. lia.
    + assert (Hstep : forall lastUri' lastCid' bskyIDs',
                 bskyIDs' = bskyIDs ++ (if recorded created then [joined created] else []) ->
                 exists outcome w',
                   Bridge.postParts svc parts (S i) parentUri parentCid
                     lastUri' lastCid' bskyIDs'
                     {| db := db w; trace := trace w ++ [ev] |} = (Done outcome, w')
                   /\ db w' = db w
                   /\ exists before created0,
                        Forall2 createdBy before created0
                        /\ match outcome with
                           | inr out =>
                               trace w' = trace w ++ before
                               /\ out = bskyIDs
                                        ++ map joined (List.filter recorded created0)
                               /\ length created0 = length (part :: parts)
                           | inl err =>
                               exists failed rollback,
                                 trace w' = trace w ++ before ++ [failed] ++ rollback
                                 /\ creationResult failed = Some (inl err)
                                 /\ Forall2 deletes rollback
                                      (map firstField bskyIDs
                                       ++ map fst (List.filter recorded created0))
                                 /\ (length created0 < length (part :: parts))%nat
                           end).
      { intros lastUri' lastCid' bskyIDs' ->.
        destruct (IH (S i) parentUri parentCid lastUri' lastCid'
                    (bskyIDs ++ (if recorded created then [joined created] else []))
                    {| db := db w; trace := trace w ++ [ev] |})
          as (outcome & w' & Hrun & Hdb & before & created0 & Hbefore & Hout).
        exists outcome, w'. split; [exact Hrun|]. split; [exact Hdb|].
        exists (ev :: before), (created :: created0).
        split; [constructor; assumption|].
        simpl in Hout. simpl List.filter in *.
        destruct outcome as [err|out].
        - destruct Hout as (failed & rollback & Htrace & Hfail & Hdel & Hlen).
          exists failed, rollback. rewrite Htrace, <- !app_assoc. simpl.
          repeat split; auto; [|simpl; lia].
          rewrite map_app, <- app_assoc in Hdel.
          destruct (recorded created) eqn:Hrec; simpl in *; [|exact Hdel].
          rewrite firstField_joined in Hdel by exact Hrec. exact Hdel.
        - destruct Hout as (Htrace & -> & Hlen).
          rewrite Htrace, <- !app_assoc. simpl. repeat split; [|lia].
          destruct (recorded created); simpl; rewrite <- ?app_assoc; reflexivity. }
      destruct created as [u c].
      change (Split (joined (u, c)) "|"%char)
        with (Split (u ++ lit "|" ++ c) "|"%char).
      destruct (Split (u ++ lit "|" ++ c) "|"%char) as [|a [|b [|x l]]] eqn:Hs;
        apply Hstep; unfold recorded; cbn [fst snd]; rewrite Hs;
        rewrite ?app_nil_r; reflexivity.
Qed.

End Posting.

(** ** The runs of [ProcessPost] *)

Section Runs.

Variable svc : Services.
Variable lib : GoLib.
Variable cfg : Config.

Lemma created_events before created :
  Forall2 createdBy before created ->
  creationResults before = map inr created
  /\ mappingWrites before = []
  /\ deletions before = [].
Proof.
  induction 1 as [|ev c before created Hev _ (IHc & IHm & IHd)]; [auto|].
  unfold createdBy in Hev.
  unfold creationResults, mappingWrites, deletions in *.
  destruct ev; try discriminate; simpl in Hev; injection Hev as ->;
    cbn [omap list_omap creationResult mappingWrite deletion];
    rewrite IHc, IHm, IHd; auto.
Qed.

Lemma deleted_events evs targets :
  Forall2 deletes evs targets ->
  creationResults evs = []
  /\ mappingWrites evs = []
  /\ deletions evs = targets
  /\ Forall quiet evs.
Proof.
  induction 1 as [|ev t evs targets [res ->] _ (IHc & IHm & IHd & IHq)].
  - repeat split; constructor.
  - unfold creationResults, mappingWrites, deletions in *.
    cbn [omap list_omap creationResult mappingWrite deletion].
    rewrite IHc, IHm, IHd. repeat split. constructor; [split; reflexivity|exact IHq].
Qed.

(** A loop of deletions: one call for each element, in order. *)
Lemma forEach_delete_run {A} (target : A -> str) (xs : list A) w :
  exists w',
    forEach xs (fun x => bind (Bluesky.DeletePost svc (target x)) (fun _ => ret tt)) w
    = (Done tt, w')
    /\ db w' = db w
    /\ exists evs, trace w' = trace w ++ evs /\ Forall2 deletes evs (map target xs).
Proof.
  revert w. induction xs as [|x xs IH]; intros w.
  - exists w. split; [reflexivity|]. split; [reflexivity|].
    exists []. rewrite app_nil_r. split; [reflexivity|constructor].
  - simpl. unfold bind at 1. unfold bind at 1.
    unfold Bluesky.DeletePost, bind, history, emit, ret. simpl.
    fold (@bind unit unit).
    match goal with |- context [forEach xs ?body ?w1] =>
      destruct (IH w1) as (w' & Hrun & Hdb & evs & Htrace & Hdel) end.
    exists w'. split; [exact Hrun|]. split; [exact Hdb|].
    eexists (_ :: evs).
    split; [rewrite Htrace; simpl; rewrite <- app_assoc; reflexivity|].
    constructor; [eexists; reflexivity|exact Hdel].
Qed.

Lemma postContent_run content parentUri parentCid w :
  exists parts outcome w',
    Splitting.splitContent content = Done parts
    /\ Bridge.postContent svc content parentUri parentCid w = (Done outcome, w')
    /\ db w' = db w
    /\ exists before created,
         Forall2 createdBy before created
         /\ match outcome with
            | inr out =>
                trace w' = trace w ++ before
                /\ out = map joined (List.filter recorded created)
                /\ length created = length parts
            | inl err =>
                exists failed rollback,
                  trace w' = trace w ++ before ++ [failed] ++ rollback
                  /\ creationResult failed = Some (inl err)
                  /\ Forall2 deletes rollback (map fst (List.filter recorded created))
                  /\ (length created < length parts)%nat
            end.
Proof.
  destruct (splitContent_returns content) as (parts & Hsplit & _).
  unfold Bridge.postContent, bind, lift. rewrite Hsplit.
  destruct (if negb (eqs parentUri []) && negb (eqs parentCid [])
            then (parentUri, parentCid) else ([], [])) as [lastUri lastCid].
  destruct (postParts_run svc parts 0 parentUri parentCid lastUri lastCid [] w)
    as (outcome & w' & Hrun & Hdb & Hrest).
  exists parts, outcome, w'. auto.
Qed.

Lemma CheckIfEdit_post_mappings d mastodonID originalID :
  post_mappings (Db.CheckIfEdit d mastodonID originalID).2 = post_mappings d.
Proof.
  unfold Db.CheckIfEdit. destruct (_ && _); [reflexivity|].
  destruct (edits d !! mastodonID); reflexivity.
Qed.

Lemma deletePrevious_run origPostID w :
  exists w',
    Lineage.deletePrevious svc origPostID w = (Done tt, w')
    /\ db w' = db w
    /\ exists evs,
         trace w' = trace w ++ evs
         /\ Forall2 deletes evs
              (map Lineage.parsedID
                 (default [] (Db.GetBlueskyIDsForMastodonPost (db w) origPostID))).
Proof.
  unfold Lineage.deletePrevious. unfold bind at 1. simpl.
  destruct (Db.GetBlueskyIDsForMastodonPost (db w) origPostID) as [ids|]; simpl.
  - apply forEach_delete_run.
  - exists w. split; [reflexivity|]. split; [reflexivity|].
    exists []. rewrite app_nil_r. split; [reflexivity|constructor].
Qed.

(** The runs of the earlier [ProcessPost] on a post that is not skipped. *)
Lemma Lineage_ProcessPost_run post w origPostID isEdit d' :
  Bridge.skipped lib cfg post = false ->
  Db.CheckIfEdit (db w) (ID post) (OriginalID post) = ((origPostID, isEdit), d') ->
  exists outcome w' pre before created,
    Lineage.ProcessPost svc lib cfg post w = (Done outcome, w')
    /\ Forall2 deletes pre
         (if isEdit
          then map Lineage.parsedID
                 (default [] (Db.GetBlueskyIDsForMastodonPost (db w) origPostID))
          else [])
    /\ Forall2 createdBy before created
    /\ match outcome with
       | None =>
           let bskyIDs := map joined (List.filter recorded created) in
           trace w' = trace w ++ pre ++ before
                      ++ EvSavePostMapping (ID post) bskyIDs
                         :: (if isEdit && negb (eqs origPostID (ID post))
                             then [EvSavePostMapping origPostID bskyIDs] else [])
           /\ db w' = (if isEdit && negb (eqs origPostID (ID post))
                       then Db.SavePostMapping
                              (Db.SavePostMapping d' (ID post) bskyIDs)
                              origPostID bskyIDs
                       else Db.SavePostMapping d' (ID post) bskyIDs)
       | Some err =>
           exists failed rollback,
             trace w' = trace w ++ pre ++ before ++ [failed] ++ rollback
             /\ creationResult failed = Some (inl err)
             /\ Forall2 deletes rollback (map fst (List.filter recorded created))
             /\ post_mappings (db w') = post_mappings (db w)
       end.
Proof.
  intros Hskip Hcheck. unfold Lineage.ProcessPost. rewrite Hskip.
  unfold bind at 1. simpl.
  destruct (Lineage.ownParent (db w) post) as [parentUri parentCid].
  rewrite Hcheck. unfold bind at 1. simpl.
  pose proof (CheckIfEdit_post_mappings (db w) (ID post) (OriginalID post)) as Hpm.
  rewrite Hcheck in Hpm. simpl in Hpm.
  set (w0 := {| db := d'; trace := trace w |}).
  assert (Hdel : exists w1 pre,
             (if isEdit then Lineage.deletePrevious svc origPostID else ret ()) w0
             = (Done tt, w1)
             /\ db w1 = d' /\ trace w1 = trace w ++ pre
             /\ Forall2 deletes pre
                  (if isEdit
                   then map Lineage.parsedID
                          (default [] (Db.GetBlueskyIDsForMastodonPost (db w) origPostID))
                   else [])).
  { destruct isEdit.
    - destruct (deletePrevious_run origPostID w0) as (w1 & Hrun & Hdb & evs & Ht & Hd).
      exists w1, evs. repeat split; try assumption.
      unfold Db.GetBlueskyIDsForMastodonPost in *. simpl in Hd.
      rewrite Hpm in Hd. exact Hd.
    - exists w0, []. simpl. rewrite app_nil_r. repeat split. constructor. }
  destruct Hdel as (w1 & pre & Hrun1 & Hdb1 & Ht1 & Hpre).
  unfold bind at 1. rewrite Hrun1.
  destruct (postContent_run (Content post) parentUri parentCid w1)
    as (parts & outcome & w2 & _ & Hrun2 & Hdb2 & before & created & Hbefore & Hout).
  unfold bind at 1. rewrite Hrun2.
  destruct outcome as [err|bskyIDs].
  - exists (Some err), w2, pre, before, created. split; [reflexivity|].
    split; [exact Hpre|]. split; [exact Hbefore|].
    destruct Hout as (failed & rollback & Ht2 & Hfail & Hroll & _).
    exists failed, rollback. rewrite Ht2, Ht1, <- app_assoc.
    repeat split; try assumption. rewrite Hdb2, Hdb1. exact Hpm.
  - destruct Hout as (Ht2 & -> & _).
    destruct (isEdit && negb (eqs origPostID (ID post))) eqn:Hboth;
      (eexists None, _, pre, before, created; split;
       [unfold Bridge.SavePostMapping, bind, getDb, emit, putDb, ret; simpl;
        reflexivity|]);
      (split; [exact Hpre|]); (split; [exact Hbefore|]);
      simpl; rewrite Ht2, Ht1, Hdb2, Hdb1, <- !app_assoc; split; reflexivity.
Qed.

End Runs.

(** ** Computations that finish *)

Lemma finishes_emit e : finishes (emit e).
Proof. intros w. eexists _, _. reflexivity. Qed.

Lemma finishes_history : finishes history.
Proof. intros w. eexists _, _. reflexivity. Qed.

Lemma finishes_getDb : finishes getDb.
Proof. intros w. eexists _, _. reflexivity. Qed.

Ltac finishes_step :=
  first
    [ apply finishes_ret | apply finishes_history | apply finishes_getDb
    | apply finishes_emit
    | apply finishes_forEach; intros
    | apply finishes_bind; [|intros] ].

Ltac finishes_auto :=
  repeat (finishes_step
          || match goal with
             | |- finishes (match ?x with _ => _ end) => destruct x
             | |- finishes (if ?b then _ else _) => destruct b
             end).

Section Total.

Variable svc : Services.
Variable lib : GoLib.

Lemma finishes_tryHandles handles mastodonPostID :
  finishes (Bluesky.tryHandles svc handles mastodonPostID).
Proof.
  induction handles as [|handle rest IH]; simpl.
  - apply finishes_ret.
  - unfold Bluesky.resolveHandle, Bluesky.findPostInUserFeed. finishes_auto; auto.
Qed.

Lemma finishes_LookupBridgedMastodonPost id user inst content name date :
  finishes (Bluesky.LookupBridgedMastodonPost svc lib id user inst content name date).
Proof.
  unfold Bluesky.LookupBridgedMastodonPost.
  apply finishes_bind; [apply finishes_history|intros h].
  apply finishes_bind; [apply finishes_emit|intros _].
  destruct (ensureAuth svc h); [apply finishes_ret|].
  apply finishes_bind; [apply finishes_tryHandles|intros viaHandle].
  destruct viaHandle; [apply finishes_ret|].
  unfold Bluesky.searchForPost, Bluesky.contentMatch,
    Bluesky.findPostByContentAndName.
  finishes_auto.
Qed.

Lemma finishes_resolveParent post :
  finishes (Hashed.resolveParent svc lib post).
Proof.
  unfold Hashed.resolveParent.
  destruct (negb _); [|apply finishes_ret].
  apply finishes_bind; [apply finishes_getDb|intros d].
  apply finishes_bind.
  - assert (finishes (Hashed.foreignParent svc lib post)) as Hf.
    { unfold Hashed.foreignParent.
      apply finishes_bind.
      { unfold Hashed.GetPostWithEdits. finishes_auto. }
      intros [err|parentPost]; [apply finishes_ret|].
      destruct (_ && _); [|apply finishes_ret].
      apply finishes_bind; [apply finishes_LookupBridgedMastodonPost|].
      intros [err|[uri cid]]; apply finishes_ret. }
    destruct (Db.GetBlueskyIDsForMastodonPost d (InReplyToID post)) as [ids|];
      [destruct (last ids)|]; try exact Hf. apply finishes_ret.
  - intros [[uri cid]|]; [destruct (eqs uri [])|]; apply finishes_ret.
Qed.

End Total.

(** ** Failed and successful runs *)

Section RollBack.

Variable svc : Services.
Variable lib : GoLib.
Variable cfg : Config.

Lemma quiet_mappingWrites evs : Forall quiet evs -> mappingWrites evs = [].
Proof.
  induction 1 as [|e evs [_ Hm] _ IH]; [reflexivity|].
  unfold mappingWrites in *. cbn [omap list_omap]. rewrite Hm. exact IH.
Qed.

Lemma quiet_creationResults evs : Forall quiet evs -> creationResults evs = [].
Proof.
  induction 1 as [|e evs [Hc _] _ IH]; [reflexivity|].
  unfold creationResults in *. cbn [omap list_omap]. rewrite Hc. exact IH.
Qed.

Lemma rolledBack_intro w w' err pre before failed rollback created :
  trace w' = trace w ++ pre ++ before ++ [failed] ++ rollback ->
  Forall quiet pre ->
  Forall2 createdBy before created ->
  creationResult failed = Some (inl err) ->
  Forall2 deletes rollback (map fst (List.filter recorded created)) ->
  post_mappings (db w') = post_mappings (db w) ->
  rolledBack w w' err.
Proof.
  intros Ht Hpre Hbefore Hfail Hroll Hpm.
  exists pre, before, failed, rollback, created. repeat split; try assumption.
  rewrite Ht. unfold mappingWrites. rewrite !omap_app.
  fold (mappingWrites pre) (mappingWrites before) (mappingWrites rollback).
  rewrite (quiet_mappingWrites pre Hpre).
  destruct (created_events before created Hbefore) as (_ & -> & _).
  destruct (deleted_events rollback _ Hroll) as (_ & -> & _).
  destruct failed; try discriminate; simpl; rewrite app_nil_r; reflexivity.
Qed.

Lemma allCreated_intro w w' pre before created saves :
  trace w' = trace w ++ pre ++ before ++ saves ->
  Forall quiet pre ->
  Forall2 createdBy before created ->
  creationResults saves = [] ->
  allCreated w w'.
Proof.
  intros Ht Hpre Hbefore Hsaves. exists (pre ++ before ++ saves).
  split; [exact Ht|]. unfold creationResults in *. rewrite !omap_app, Hsaves.
  fold (creationResults pre) (creationResults before).
  rewrite (quiet_creationResults pre Hpre).
  destruct (created_events before created Hbefore) as (-> & _).
  rewrite app_nil_r. simpl. apply List.Forall_map, Forall_forall.
  intros c _. eauto.
Qed.

Lemma Lineage_outcome post w :
  exists outcome w',
    Lineage.ProcessPost svc lib cfg post w = (Done outcome, w')
    /\ match outcome with
       | Some err => rolledBack w w' err
       | None => allCreated w w'
       end.
Proof.
  destruct (Bridge.skipped lib cfg post) eqn:Hskip.
  { exists None, w. unfold Lineage.ProcessPost. rewrite Hskip.
    split; [reflexivity|]. exists []. rewrite app_nil_r. split; [reflexivity|constructor]. }
  destruct (Db.CheckIfEdit (db w) (ID post) (OriginalID post))
    as [[origPostID isEdit] d'] eqn:Hcheck.
  destruct (Lineage_ProcessPost_run svc lib cfg post w origPostID isEdit d' Hskip Hcheck)
    as (outcome & w' & pre & before & created & Hrun & Hpre & Hbefore & Hout).
  exists outcome, w'. split; [exact Hrun|].
  destruct (deleted_events pre _ Hpre) as (_ & _ & _ & Hquiet).
  destruct outcome as [err|].
  - destruct Hout as (failed & rollback & Ht & Hfail & Hroll & Hpm).
    eapply rolledBack_intro; eassumption.
  - simpl in Hout. destruct Hout as [Hout _].
    eapply allCreated_intro; try eassumption.
    destruct (isEdit && negb (eqs origPostID (ID post))); reflexivity.
Qed.

(** What is deleted of a post that was mirrored before. *)
Lemma deleteExisting_run id w :
  exists w1,
    Hashed.deleteExisting svc id w = (Done tt, w1)
    /\ db w1 = db w
    /\ exists evs,
         trace w1 = trace w ++ evs
         /\ Forall2 deletes evs (default [] (Db.GetBlueskyIDsForMastodonPost (db w) id)).
Proof.
  unfold Hashed.deleteExisting, bind at 1, getDb. cbn [fst snd].
  destruct (Db.GetBlueskyIDsForMastodonPost (db w) id) as [bskyIDs|]; cbn [default].
  - destruct bskyIDs as [|first rest].
    + exists w. split; [reflexivity|]. split; [reflexivity|].
      exists []. rewrite app_nil_r. split; [reflexivity|constructor].
    + cbn [length Nat.ltb Nat.leb].
      destruct (forEach_delete_run svc (fun id0 : str => id0) (first :: rest) w)
        as (w1 & Hrun & Hdb & evs & Ht & Hd).
      exists w1. split; [exact Hrun|]. split; [exact Hdb|].
      exists evs. split; [exact Ht|]. rewrite map_id in Hd. exact Hd.
  - exists w. split; [reflexivity|]. split; [reflexivity|].
    exists []. rewrite app_nil_r. split; [reflexivity|constructor].
Qed.

(** What comes before the parent is resolved: with a stored hash of one
    to seven bytes a panic, before anything is done; otherwise the
    deletion of what the post mapping holds, when a hash is stored. *)
Lemma prelude_run existingHash content id w :
  let del := if negb (eqs existingHash [])
             then Hashed.changed svc existingHash (Hashed.hashPostContent lib content) id
             else ret () in
  (existingHash <> [] /\ (len existingHash < 8)%Z /\ del w = (Panic, w))
  \/ ((existingHash = [] \/ (8 <= len existingHash)%Z)
      /\ exists w1,
           del w = (Done tt, w1)
           /\ db w1 = db w
           /\ w1 = (if eqs existingHash [] then w
                    else (Hashed.deleteExisting svc id w).2)
           /\ exists evs,
                trace w1 = trace w ++ evs
                /\ Forall2 deletes evs
                     (if eqs existingHash [] then []
                      else default [] (Db.GetBlueskyIDsForMastodonPost (db w) id))).
Proof.
  cbn zeta. unfold eqs. case_bool_decide as Hempty; cbn [negb].
  - right. split; [left; exact Hempty|]. exists w. split; [reflexivity|].
    split; [reflexivity|]. split; [reflexivity|].
    exists []. rewrite app_nil_r. split; [reflexivity|constructor].
  - destruct (Z_lt_ge_dec (len existingHash) 8) as [Hshort|Hlong].
    + left. split; [exact Hempty|]. split; [exact Hshort|].
      apply changed_short. exact Hshort.
    + right. split; [right; lia|].
      rewrite changed_long by lia.
      destruct (deleteExisting_run id w) as (w1 & Hrun & Hdb & evs & Ht & Hd).
      exists w1. split; [exact Hrun|]. split; [exact Hdb|].
      split; [rewrite Hrun; reflexivity|]. exists evs. auto.
Qed.

Lemma Hashed_outcome post w :
  exists r w',
    Hashed.ProcessPost svc lib cfg post w = (r, w')
    /\ match r with
       | Done (Some err) => rolledBack w w' err
       | Done None => allCreated w w'
       | Panic =>
           w' = w
           /\ (Db.GetContentHash (db w) (ID post)).1 <> []
           /\ (len (Db.GetContentHash (db w) (ID post)).1 < 8)%Z
       | Timeout => False
       end.
Proof.
  assert (Hnone : allCreated w w).
  { exists []. rewrite app_nil_r. split; [reflexivity|constructor]. }
  unfold Hashed.ProcessPost.
  destruct (Bridge.skipped lib cfg post); [exists (Done None), w; auto|].
  unfold bind at 1. simpl.
  destruct (Db.GetContentHash (db w) (ID post)) as [existingHash err].
  destruct (match err with None => _ | Some _ => _ end).
  { unfold bind, lift. rewrite hash_prefix. exists (Done None), w. auto. }
  clear Hnone. cbn [fst].
  destruct (prelude_run existingHash (Content post) (ID post) w)
    as [(Hne & Hshort & Hdel)|(_ & w1 & Hdel & Hdb1 & _ & pre1 & Ht1 & Hpre1)];
    unfold bind at 1; rewrite Hdel.
  { exists Panic, w. auto. }
  destruct (deleted_events pre1 _ Hpre1) as (_ & _ & _ & Hquiet1).
  assert (Hs1 : steps quiet w w1) by (split; [exact Hdb1|eauto]).
  destruct (finishes_resolveParent svc lib post w1) as (parent & w2 & Hres).
  pose proof (keeps_resolveParent svc lib post w1) as Hs2. rewrite Hres in Hs2.
  simpl in Hs2. unfold bind at 1. rewrite Hres.
  destruct (steps_trans _ _ _ Hs1 Hs2) as (Hdb2 & pre & Ht2 & Hpre).
  destruct parent as [[parentUri parentCid]|].
  - destruct (postContent_run svc (Content post) parentUri parentCid w2)
      as (parts & outcome & w3 & _ & Hrun3 & Hdb3 & before & created & Hbefore & Hout).
    unfold bind at 1. rewrite Hrun3. destruct outcome as [err'|bskyIDs].
    + exists (Done (Some err')), w3. split; [reflexivity|].
      destruct Hout as (failed & rollback & Ht3 & Hfail & Hroll & _).
      eapply rolledBack_intro; try eassumption.
      * rewrite Ht3, Ht2, <- app_assoc. reflexivity.
      * rewrite Hdb3, Hdb2. reflexivity.
    + destruct Hout as (Ht3 & -> & _).
      eexists (Done None), _. split.
      * unfold Bridge.SavePostMapping, Bridge.SaveContentHash,
          bind, getDb, emit, putDb, ret. simpl. reflexivity.
      * eapply (allCreated_intro _ _ pre before created
                  [EvSavePostMapping _ _; EvSaveContentHash _ _]);
          try eassumption; [|reflexivity].
        simpl. rewrite Ht3, Ht2, <- !app_assoc. reflexivity.
  - exists (Done None), w2. split; [reflexivity|].
    eapply (allCreated_intro _ _ pre [] [] []); try eassumption;
      [rewrite Ht2, !app_nil_r; reflexivity|constructor|reflexivity].
Qed.

End RollBack.

(** ** What the specification says of a failed creation *)

Section RollBackClaims.

(** C2, as stated, fails.  The first of two parts is created, with an
    answer whose uri has a "|" in it; that answer does not split into two
    fields and is not recorded.  The creation of the second part fails:
    [ProcessPost] returns its error, and has not called [DeletePost] at
    all, although part 0 exists. *)
Lemma unrecorded_part_is_not_deleted :
  exists w' err created,
    Lineage.ProcessPost oddUriServices sampleLib noFilter
      (samplePost (lit "110") hardCutPost [] []) emptyWorld
    = (Done (Some err), w')
    /\ creationResults (trace w') = [inr created; inl err]
    /\ recorded created = false
    /\ deletions (trace w') = [].
Proof.
  eexists _, _, _. split; [vm_compute; reflexivity|].
  repeat split; vm_compute; reflexivity.
Qed.

(** C2, amended.  The earlier revision of [ProcessPost] always returns;
    the later one returns unless the hash stored for the post has one to
    seven bytes, when it panics before anything is done.  Both return an
    error exactly when a creation failed.  In that case (see
    [rolledBack]) the failed creation is the last one, its error is the
    one returned, it is followed by one call of [DeletePost], with the
    uri, for each part created before it whose answer was recorded, the
    answers of these calls being ignored, and by nothing else; an answer
    that does not split into exactly two fields at "|" is not recorded,
    and the part it belongs to is not deleted; no post mapping is
    written. *)
Theorem creation_failure_is_rolled_back
    (svc : Services) (lib : GoLib) (cfg : Config) (post : Post) (w : World) :
  (exists outcome w',
      Lineage.ProcessPost svc lib cfg post w = (Done outcome, w')
      /\ match outcome with
         | Some err => rolledBack w w' err
         | None => allCreated w w'
         end)
  /\ (exists r w',
        Hashed.ProcessPost svc lib cfg post w = (r, w')
        /\ match r with
           | Done (Some err) => rolledBack w w' err
           | Done None => allCreated w w'
           | Panic =>
               w' = w
               /\ (Db.GetContentHash (db w) (ID post)).1 <> []
               /\ (len (Db.GetContentHash (db w) (ID post)).1 < 8)%Z
           | Timeout => False
           end).
Proof. split; [apply Lineage_outcome|apply Hashed_outcome]. Qed.

End RollBackClaims.

(** ** What the specification says of a reply without a parent *)

Section SkipClaims.

Lemma silent_events evs :
  Forall silent evs ->
  creationResults evs = [] /\ mappingWrites evs = [] /\ deletions evs = [].
Proof.
  induction 1 as [|e evs [[Hc Hm] Hd] _ (IHc & IHm & IHd)]; [auto|].
  unfold creationResults, mappingWrites, deletions in *.
  cbn [omap list_omap]. rewrite Hc, Hm, Hd. auto.
Qed.

(** The search for a parent without a post mapping, when the lookup of
    this parent fails at this point: nothing is found, and on the way
    nothing is created, deleted or written. *)
Lemma resolveParent_not_found svc lib post w1 :
  InReplyToID post <> [] ->
  post_mappings (db w1) !! InReplyToID post = None ->
  (forall parentPost,
      getStatus svc (trace w1) (InReplyToID post) = inr parentPost ->
      Username parentPost <> [] -> Instance parentPost <> [] ->
      exists err w2,
        Bluesky.LookupBridgedMastodonPost svc lib (InReplyToID post)
          (Username parentPost) (Instance parentPost) (Content parentPost)
          (DisplayName parentPost) (CreatedAt parentPost)
          {| db := db w1; trace := trace w1 ++ [EvGetStatus (InReplyToID post)] |}
        = (Done (inl err), w2)) ->
  exists w2,
    Hashed.resolveParent svc lib post w1 = (Done None, w2)
    /\ steps silent w1 w2.
Proof.
  intros Hreply Hmap Hlookup. unfold Hashed.resolveParent, eqs.
  rewrite bool_decide_eq_false_2 by exact Hreply. cbn [negb].
  unfold bind at 1, getDb. cbn [fst snd].
  unfold Db.GetBlueskyIDsForMastodonPost. rewrite Hmap.
  unfold Hashed.foreignParent, Hashed.GetPostWithEdits.
  unfold bind at 1. unfold bind at 1. unfold bind at 1, history. cbn [fst snd].
  unfold bind at 1, emit, ret. cbn [fst snd].
  set (asked := {| db := db w1; trace := trace w1 ++ [EvGetStatus (InReplyToID post)] |}).
  assert (Hasked : steps silent w1 asked).
  { split; [reflexivity|]. exists [EvGetStatus (InReplyToID post)].
    split; [reflexivity|]. repeat constructor. }
  destruct (getStatus svc (trace w1) (InReplyToID post)) as [err|parentPost] eqn:Hstatus.
  { exists asked. split; [|exact Hasked]. cbn.
    rewrite bool_decide_eq_true_2 by reflexivity. reflexivity. }
  unfold eqs. case_bool_decide as Hu; cbn [negb andb].
  { exists asked. split; [|exact Hasked]. cbn.
    rewrite bool_decide_eq_true_2 by reflexivity. reflexivity. }
  case_bool_decide as Hi; cbn [negb andb].
  { exists asked. split; [|exact Hasked]. cbn.
    rewrite bool_decide_eq_true_2 by reflexivity. reflexivity. }
  destruct (Hlookup parentPost eq_refl Hu Hi) as (err & w2 & Hrun).
  change (Bluesky.LookupBridgedMastodonPost svc lib (InReplyToID post)
            (Username parentPost) (Instance parentPost) (Content parentPost)
            (DisplayName parentPost) (CreatedAt parentPost) asked
          = (Done (inl err), w2)) in Hrun.
  pose proof (keeps_LookupBridgedMastodonPost svc lib silent
                ltac:(repeat split) ltac:(repeat split) ltac:(repeat split)
                ltac:(repeat split) (InReplyToID post)
                (Username parentPost) (Instance parentPost) (Content parentPost)
                (DisplayName parentPost) (CreatedAt parentPost) asked) as Hkeep.
  rewrite Hrun in Hkeep. cbn [snd] in Hkeep.
  unfold bind at 1. rewrite Hrun.
  exists w2. split; [reflexivity|]. eapply steps_trans; eassumption.
Qed.

(** C3, amended.  In the later revision, for a reply whose parent has no
    post mapping and for which the lookup of this parent, as the service
    describes it at this point, fails or is not made, [ProcessPost]
    returns without an error, having created no post and written no post
    mapping; the database is as before.  It is not always that nothing
    is done: when the reply itself was mirrored before and its content
    has changed, what its post mapping holds is deleted first, and
    nothing else is.  (The hash stored for the reply, when one is, has its
    8 bytes.) *)
Theorem unresolvable_reply_is_skipped
    (svc : Services) (lib : GoLib) (cfg : Config) (post : Post) (w : World) :
  let existingHash := (Db.GetContentHash (db w) (ID post)).1 in
  let reprocessed :=
    negb (Bridge.skipped lib cfg post)
    && negb (eqs existingHash (Hashed.hashPostContent lib (Content post)))
    && negb (eqs existingHash []) in
  let w1 := if reprocessed then (Hashed.deleteExisting svc (ID post) w).2 else w in
  InReplyToID post <> [] ->
  post_mappings (db w) !! InReplyToID post = None ->
  existingHash = [] \/ (8 <= len existingHash)%Z ->
  (forall parentPost,
      getStatus svc (trace w1) (InReplyToID post) = inr parentPost ->
      Username parentPost <> [] -> Instance parentPost <> [] ->
      exists err w2,
        Bluesky.LookupBridgedMastodonPost svc lib (InReplyToID post)
          (Username parentPost) (Instance parentPost) (Content parentPost)
          (DisplayName parentPost) (CreatedAt parentPost)
          {| db := db w1; trace := trace w1 ++ [EvGetStatus (InReplyToID post)] |}
        = (Done (inl err), w2)) ->
  exists w',
    Hashed.ProcessPost svc lib cfg post w = (Done None, w')
    /\ db w' = db w
    /\ creationResults (trace w') = creationResults (trace w)
    /\ mappingWrites (trace w') = mappingWrites (trace w)
    /\ deletions (trace w')
       = deletions (trace w)
         ++ (if reprocessed
             then default [] (Db.GetBlueskyIDsForMastodonPost (db w) (ID post))
             else []).
Proof.
  cbn zeta. intros Hreply Hmap Hhash Hlookup.
  assert (Hsame : exists w',
             (Done None : run (option error), w) = (Done None, w')
             /\ db w' = db w
             /\ creationResults (trace w') = creationResults (trace w)
             /\ mappingWrites (trace w') = mappingWrites (trace w)
             /\ deletions (trace w') = deletions (trace w) ++ []).
  { exists w. rewrite app_nil_r. auto. }
  unfold Hashed.ProcessPost.
  destruct (Bridge.skipped lib cfg post); [exact Hsame|].
  unfold bind at 1, getDb. cbn [fst snd negb andb] in *.
  assert (Herr : (Db.GetContentHash (db w) (ID post)).2 = None).
  { unfold Db.GetContentHash. destruct (state (db w) !! _); reflexivity. }
  destruct (Db.GetContentHash (db w) (ID post)) as [existingHash err].
  cbn [fst snd] in *. subst err.
  destruct (eqs existingHash (Hashed.hashPostContent lib (Content post))).
  { unfold bind, lift. rewrite hash_prefix. exact Hsame. }
  clear Hsame. cbn [negb andb] in *.
  destruct (prelude_run svc lib existingHash (Content post) (ID post) w)
    as [(Hne & Hshort & _)|(_ & w1 & Hdel & Hdb1 & Hw1 & dels & Ht1 & Hdels)];
    [destruct Hhash; [contradiction|lia]|].
  unfold bind at 1. rewrite Hdel.
  assert (Hw1' : (if negb (eqs existingHash [])
                  then (Hashed.deleteExisting svc (ID post) w).2 else w) = w1).
  { rewrite Hw1. destruct (eqs existingHash []); reflexivity. }
  rewrite Hw1' in Hlookup.
  destruct (resolveParent_not_found svc lib post w1 Hreply
              ltac:(rewrite Hdb1; exact Hmap) Hlookup)
    as (w2 & Hres & Hdb2 & evs & Ht2 & Hsilent).
  unfold bind. rewrite Hres. exists w2. split; [reflexivity|].
  split; [rewrite Hdb2; exact Hdb1|].
  destruct (silent_events evs Hsilent) as (Hc2 & Hm2 & Hd2).
  destruct (deleted_events dels _ Hdels) as (Hc1 & Hm1 & Hd1 & _).
  rewrite Ht2, Ht1. unfold creationResults, mappingWrites, deletions in *.
  rewrite !omap_app, Hc1, Hc2, Hm1, Hm2, Hd1, Hd2, !app_nil_r.
  repeat split. destruct (eqs existingHash []); reflexivity.
Qed.

End SkipClaims.

Lemma unresolvable_reply_is_skipped_witness :
  (exists w',
     Hashed.ProcessPost strangerServices sampleLib noFilter
       (samplePost (lit "111") (lit "I agree") (lit "55") []) emptyWorld
     = (Done None, w')
     /\ db w' = db emptyWorld
     /\ creationResults (trace w') = creationResults (trace emptyWorld)
     /\ mappingWrites (trace w') = mappingWrites (trace emptyWorld)
     /\ deletions (trace w') = deletions (trace emptyWorld) ++ [])
  /\ (exists w',
        Hashed.ProcessPost strangerServices sampleLib noFilter
          (samplePost (lit "111") (lit "I agree") (lit "55") []) mirroredReplyWorld
        = (Done None, w')
        /\ db w' = db mirroredReplyWorld
        /\ creationResults (trace w') = creationResults (trace mirroredReplyWorld)
        /\ mappingWrites (trace w') = mappingWrites (trace mirroredReplyWorld)
        /\ deletions (trace w')
           = deletions (trace mirroredReplyWorld)
             ++ [postUri (lit "3kold") ++ lit "|cidold"]).
Proof.
  split.
  - apply (unresolvable_reply_is_skipped strangerServices sampleLib noFilter
             (samplePost (lit "111") (lit "I agree") (lit "55") []) emptyWorld).
    + discriminate.
    + reflexivity.
    + left. reflexivity.
    + intros parentPost Hstatus _ _. injection Hstatus as <-.
      eexists _, _. vm_compute. reflexivity.
  - apply (unresolvable_reply_is_skipped strangerServices sampleLib noFilter
             (samplePost (lit "111") (lit "I agree") (lit "55") [])
             mirroredReplyWorld).
    + discriminate.
    + reflexivity.
    + right. vm_compute. discriminate.
    + intros parentPost Hstatus _ _. injection Hstatus as <-.
      eexists _, _. vm_compute. reflexivity.
Defined.

(** ** What the specification says of an edit *)

Section EditClaims.

(** C5, as stated, fails.  Post 110 is an edit of post 109, which was
    mirrored; the creation of its one part is refused.  The part of 109 is
    deleted, [ProcessPost] returns the error, and no post mapping is
    written, under either id. *)
Lemma failed_edit_writes_no_mapping :
  exists d' err w',
    Bridge.skipped sampleLib noFilter
      (samplePost (lit "110") (lit "hello again") [] (lit "109")) = false
    /\ Db.CheckIfEdit (db mirroredWorld) (lit "110") (lit "109")
       = ((lit "109", true), d')
    /\ Lineage.ProcessPost refusingServices sampleLib noFilter
         (samplePost (lit "110") (lit "hello again") [] (lit "109")) mirroredWorld
       = (Done (Some err), w')
    /\ deletions (trace w') = [lit "3kold"]
    /\ mappingWrites (trace w') = []
    /\ post_mappings (db w') = post_mappings (db mirroredWorld).
Proof.
  eexists _, _, _. split; [vm_compute; reflexivity|].
  split; [vm_compute; reflexivity|]. split; [vm_compute; reflexivity|].
  repeat split; vm_compute; reflexivity.
Qed.

(** C5, amended.  For a post that [CheckIfEdit] classifies as an edit and
    whose parts are all created, so that [ProcessPost] returns without an
    error: the post mappings written are one under the id of the post and,
    when the original id differs from it, one more, with the same parts,
    under the original id; and [DeletePost] is called once for each id that
    the post mapping of the original id held, with the record key of that
    id, and not otherwise. *)
Theorem edit_is_remirrored
    (svc : Services) (lib : GoLib) (cfg : Config) (post : Post) (w w' : World)
    (origPostID : str) (d' : Database) :
  Bridge.skipped lib cfg post = false ->
  Db.CheckIfEdit (db w) (ID post) (OriginalID post) = ((origPostID, true), d') ->
  Lineage.ProcessPost svc lib cfg post w = (Done None, w') ->
  exists evs bskyIDs,
    trace w' = trace w ++ evs
    /\ mappingWrites evs
       = (ID post, bskyIDs)
         :: (if eqs origPostID (ID post) then [] else [(origPostID, bskyIDs)])
    /\ deletions evs
       = map Lineage.parsedID
           (default [] (Db.GetBlueskyIDsForMastodonPost (db w) origPostID))
    /\ post_mappings (db w') !! ID post = Some (Join bskyIDs (lit ","))
    /\ post_mappings (db w') !! origPostID = Some (Join bskyIDs (lit ",")).
Proof.
  intros Hskip Hcheck Hrun.
  destruct (Lineage_ProcessPost_run svc lib cfg post w origPostID true d' Hskip Hcheck)
    as (outcome & w'' & pre & before & created & Hrun' & Hpre & Hbefore & Hout).
  rewrite Hrun in Hrun'. injection Hrun' as <- <-.
  simpl in Hout, Hpre. destruct Hout as [Ht Hdb].
  set (bskyIDs := map joined (List.filter recorded created)) in *.
  exists (pre ++ before
          ++ EvSavePostMapping (ID post) bskyIDs
             :: (if negb (eqs origPostID (ID post))
                 then [EvSavePostMapping origPostID bskyIDs] else [])),
    bskyIDs.
  destruct (deleted_events pre _ Hpre) as (_ & Hpm & Hpd & _).
  destruct (created_events before created Hbefore) as (_ & Hbm & Hbd).
  split; [exact Ht|].
  unfold mappingWrites, deletions in *. rewrite !omap_app, Hpm, Hpd, Hbm, Hbd.
  rewrite Hdb. unfold eqs.
  destruct (decide (origPostID = ID post)) as [->|Hne].
  - rewrite bool_decide_eq_true_2 by reflexivity. simpl.
    rewrite app_nil_r, lookup_insert_eq. auto.
  - rewrite bool_decide_eq_false_2 by exact Hne. simpl.
    rewrite app_nil_r, lookup_insert_eq, lookup_insert_ne, lookup_insert_eq by exact Hne.
    auto.
Qed.

Lemma edit_is_remirrored_witness :
  exists d' w',
    (Bridge.skipped sampleLib noFilter
       (samplePost (lit "110") (lit "hello again") [] (lit "109")) = false
     /\ Db.CheckIfEdit (db mirroredWorld) (lit "110") (lit "109")
        = ((lit "109", true), d')
     /\ Lineage.ProcessPost numberedServices sampleLib noFilter
          (samplePost (lit "110") (lit "hello again") [] (lit "109")) mirroredWorld
        = (Done None, w'))
    /\ exists evs bskyIDs,
         trace w' = trace mirroredWorld ++ evs
         /\ mappingWrites evs = [(lit "110", bskyIDs); (lit "109", bskyIDs)]
         /\ deletions evs = [lit "3kold"].
Proof.
  eexists _, _.
  assert (H1 : Bridge.skipped sampleLib noFilter
                 (samplePost (lit "110") (lit "hello again") [] (lit "109")) = false)
    by (vm_compute; reflexivity).
  pose proof (eq_refl : Db.CheckIfEdit (db mirroredWorld) (lit "110") (lit "109")
                        = ((lit "109", true), _)) as H2.
  pose proof (eq_refl : Lineage.ProcessPost numberedServices sampleLib noFilter
                (samplePost (lit "110") (lit "hello again") [] (lit "109"))
                mirroredWorld = (Done None, _)) as H3.
  split; [split; [exact H1|split; [exact H2|exact H3]]|].
  destruct (edit_is_remirrored numberedServices sampleLib noFilter _ _ _ _ _ H1 H2 H3)
    as (evs & bskyIDs & Ht & Hm & Hd & _).
  exists evs, bskyIDs. split; [exact Ht|]. split; [exact Hm|exact Hd].
Defined.

End EditClaims.

(** ** The resolver on content and display name *)

Section Substrings.

Lemma HasPrefix_spec (s prefix : str) :
  HasPrefix s prefix = true <-> exists rest, s = prefix ++ rest.
Proof.
  revert s. induction prefix as [|p prefix IH]; intros s; simpl.
  - destruct s; split; eauto.
  - destruct s as [|c s]; simpl;
      [split; [discriminate|intros [rest H]; discriminate]|].
    rewrite andb_true_iff, IH. split.
    + intros [Hc [rest ->]]. apply Ascii.eqb_eq in Hc as ->. eauto.
    + intros [rest [= -> ->]]. split; [apply Ascii.eqb_refl|eauto].
Qed.

Lemma Contains_nil (substr : str) : Contains [] substr = HasPrefix [] substr.
Proof. destruct substr; reflexivity. Qed.

Lemma Contains_cons c (s substr : str) :
  Contains (c :: s) substr = HasPrefix (c :: s) substr || Contains s substr.
Proof. reflexivity. Qed.

Lemma Contains_spec (s substr : str) :
  Contains s substr = true <-> exists before after, s = before ++ substr ++ after.
Proof.
  induction s as [|c s IH].
  - rewrite Contains_nil, HasPrefix_spec. split.
    + intros [rest H]. exists [], rest. exact H.
    + intros (before & after & H). destruct before; [eauto|discriminate].
  - rewrite Contains_cons, orb_true_iff, IH, HasPrefix_spec. split.
    + intros [[rest H]|(before & after & ->)].
      * exists [], rest. exact H.
      * exists (c :: before), after. reflexivity.
    + intros (before & after & H). destruct before as [|b before].
      * left. eauto.
      * injection H as -> ->. right. eauto.
Qed.

End Substrings.

Section Resolver.

Variable svc : Services.
Variable lib : GoLib.

Local Open Scope Z_scope.

Lemma firstWords_length words (searchContent : str) :
  len searchContent <= 30 -> len (Bluesky.firstWords words searchContent) <= 30.
Proof.
  revert searchContent. induction words as [|word words IH]; intros sc Hsc; simpl.
  - exact Hsc.
  - destruct (Z.leb_spec (len sc + len word + 1) 30) as [Hfit|]; [|exact Hsc].
    apply IH. destruct (negb (eqs sc [])); rewrite !len_app; unfold len in *;
      simpl; lia.
Qed.

Lemma Join_snoc (elems : list str) (e sep : str) :
  Join (elems ++ [e]) sep
  = if decide (elems = []) then e else Join elems sep ++ sep ++ e.
Proof.
  induction elems as [|x elems IH]; [reflexivity|].
  destruct (decide (x :: elems = [])); [discriminate|].
  destruct elems as [|y elems]; [reflexivity|].
  change (Join ((x :: y :: elems) ++ [e]) sep)
    with (x ++ sep ++ Join ((y :: elems) ++ [e]) sep).
  rewrite IH. destruct (decide (y :: elems = [])); [discriminate|].
  change (Join (x :: y :: elems) sep) with (x ++ sep ++ Join (y :: elems) sep).
  rewrite <- !app_assoc. reflexivity.
Qed.

Lemma Join_nonempty (elems : list str) sep :
  Forall (fun e => e <> []) elems -> elems <> [] -> Join elems sep <> [].
Proof.
  intros Hall Hne. destruct elems as [|x elems]; [congruence|].
  inversion Hall as [|? ? Hx _]; subst.
  destruct elems; simpl; [exact Hx|]. destruct x; [congruence|discriminate].
Qed.

Lemma firstWords_cons word words (searchContent : str) :
  Bluesky.firstWords (word :: words) searchContent
  = if len searchContent + len word + 1 <=? 30
    then Bluesky.firstWords words
           ((if negb (eqs searchContent []) then searchContent ++ lit " "
             else searchContent) ++ word)
    else searchContent.
Proof. reflexivity. Qed.

(** The words taken are the first ones, whole. *)
Lemma firstWords_whole words (taken : list str) :
  Forall (fun word => word <> []) taken ->
  Forall (fun word => word <> []) words ->
  exists k,
    Bluesky.firstWords words (Join taken (lit " "))
    = Join (taken ++ take k words) (lit " ").
Proof.
  revert taken. induction words as [|word words IH]; intros taken Htaken Hwords.
  - exists 0%nat. simpl. rewrite app_nil_r. reflexivity.
  - rewrite firstWords_cons.
    destruct (_ <=? 30); [|exists 0%nat; simpl; rewrite app_nil_r; reflexivity].
    inversion Hwords as [|? ? Hword Hrest]; subst.
    destruct (IH (taken ++ [word])) as (k & Hk);
      [apply Forall_app; split; [exact Htaken|constructor; [exact Hword|constructor]]
      |exact Hrest|].
    exists (S k).
    assert (Harg : (if negb (eqs (Join taken (lit " ")) [])
                    then Join taken (lit " ") ++ lit " "
                    else Join taken (lit " ")) ++ word
                   = Join (taken ++ [word]) (lit " ")).
    { rewrite Join_snoc. unfold eqs. destruct (decide (taken = [])) as [->|Hne].
      - reflexivity.
      - rewrite bool_decide_eq_false_2 by (apply Join_nonempty; assumption).
        simpl. rewrite <- app_assoc. reflexivity. }
    rewrite Harg, Hk, <- app_assoc. reflexivity.
Qed.

(** What the loop over the search results accepts. *)
Lemma firstAccepted_spec posts (content displayName : str) postDate uri cid :
  Bluesky.firstAccepted lib posts content displayName postDate = Some (uri, cid) ->
  exists post postCreatedAt,
    post ∈ posts
    /\ Uri post = uri /\ Cid post = cid
    /\ (AuthorDisplayName post = displayName
        \/ Contains (AuthorDisplayName post) displayName = true
        \/ Contains displayName (AuthorDisplayName post) = true)
    /\ (Contains (Text post) content = true \/ Contains content (Text post) = true)
    /\ parseRFC3339 lib (RecordCreatedAt post) = Some postCreatedAt
    /\ - (24 * Bluesky.Hour) < postCreatedAt - postDate < 24 * Bluesky.Hour.
Proof.
  induction posts as [|post posts IH]; [discriminate|].
  assert (Hnext : Bluesky.firstAccepted lib posts content displayName postDate
                  = Some (uri, cid) ->
                  exists post0 postCreatedAt,
                    post0 ∈ post :: posts
                    /\ Uri post0 = uri /\ Cid post0 = cid
                    /\ (AuthorDisplayName post0 = displayName
                        \/ Contains (AuthorDisplayName post0) displayName = true
                        \/ Contains displayName (AuthorDisplayName post0) = true)
                    /\ (Contains (Text post0) content = true
                        \/ Contains content (Text post0) = true)
                    /\ parseRFC3339 lib (RecordCreatedAt post0) = Some postCreatedAt
                    /\ - (24 * Bluesky.Hour) < postCreatedAt - postDate
                       < 24 * Bluesky.Hour).
  { intros H. destruct (IH H) as (post0 & t & Hin & Hrest).
    exists post0, t. split; [right; exact Hin|exact Hrest]. }
  simpl.
  destruct (eqs (AuthorDisplayName post) displayName
            || Contains (AuthorDisplayName post) displayName
            || Contains displayName (AuthorDisplayName post)) eqn:Hname;
    [|exact Hnext].
  destruct (Contains (Text post) content || Contains content (Text post)) eqn:Htext;
    [|exact Hnext].
  destruct (parseRFC3339 lib (RecordCreatedAt post)) as [postCreatedAt|] eqn:Hparse;
    [|exact Hnext].
  destruct (Z.ltb_spec (Bluesky.Sub postCreatedAt postDate) (24 * Bluesky.Hour))
    as [Hlt|]; [|exact Hnext].
  destruct (Z.gtb_spec (Bluesky.Sub postCreatedAt postDate) (- (24 * Bluesky.Hour)))
    as [Hgt|]; [|exact Hnext].
  simpl. intros [= <- <-]. exists post, postCreatedAt.
  split; [left|]. repeat split; try assumption.
  - apply orb_true_iff in Hname as [Hname|Hname]; [|auto].
    apply orb_true_iff in Hname as [Hname|Hname]; [|auto].
    left. unfold eqs in Hname. apply bool_decide_eq_true in Hname. exact Hname.
  - apply orb_true_iff in Htext as [Htext|Htext]; auto.
  - unfold Bluesky.Sub, Bluesky.Hour, MaxInt in *. lia.
  - unfold Bluesky.Sub, Bluesky.Hour, MaxInt in *. lia.
Qed.

End Resolver.

Section ResolverClaims.

Local Open Scope Z_scope.

(** C7.  The last resolver searches with the post content itself when
    that has at most 30 bytes, and otherwise with its first whole words,
    joined by single spaces, as many as fit in 30 bytes (so at most 30
    characters); and a post that it accepts is one of the search results
    for which all three hold: the display name of its author equals the
    display name given, or one contains the other; its text contains the
    content searched for, or is contained in it; its creation time is
    read without error and is less than 24 hours before or after the
    creation time given. *)
Theorem content_match_conditions (svc : Services) (lib : GoLib) :
  (forall postContent : str,
      len (Bluesky.searchContentOf lib postContent) <= 30
      /\ (runeCount (Bluesky.searchContentOf lib postContent) <= 30)%nat
      /\ (len postContent <= 30 ->
          Bluesky.searchContentOf lib postContent = postContent)
      /\ (30 < len postContent ->
          Forall (fun word => word <> []) (Fields lib postContent) ->
          exists k,
            Bluesky.searchContentOf lib postContent
            = Join (take k (Fields lib postContent)) (lit " ")))
  /\ (forall (postContent displayName : str) postDate w uri cid w',
        Bluesky.contentMatch svc lib postContent displayName postDate w
        = (Done (Some (uri, cid)), w') ->
        let searchContent := Bluesky.searchContentOf lib postContent in
        trace w' = trace w ++ [EvSearchPosts searchContent (lit "30")]
        /\ exists posts post postCreatedAt,
             searchPosts svc (trace w) searchContent (lit "30") = inr posts
             /\ post ∈ posts
             /\ Uri post = uri /\ Cid post = cid
             /\ (AuthorDisplayName post = displayName
                 \/ Contains (AuthorDisplayName post) displayName = true
                 \/ Contains displayName (AuthorDisplayName post) = true)
             /\ (Contains (Text post) searchContent = true
                 \/ Contains searchContent (Text post) = true)
             /\ parseRFC3339 lib (RecordCreatedAt post) = Some postCreatedAt
             /\ - (24 * Bluesky.Hour) < postCreatedAt - postDate
                < 24 * Bluesky.Hour).
Proof.
  split.
  - intros postContent.
    assert (Hlen : len (Bluesky.searchContentOf lib postContent) <= 30).
    { unfold Bluesky.searchContentOf.
      destruct (Z.gtb_spec (len postContent) 30); [|lia].
      apply firstWords_length. unfold len. simpl. lia. }
    split; [exact Hlen|]. split.
    { unfold runeCount.
      pose proof (length_filter (fun c => isContinuation c = false)
                    (Bluesky.searchContentOf lib postContent)).
      unfold len in Hlen. lia. }
    unfold Bluesky.searchContentOf. split.
    + intros Hshort. destruct (Z.gtb_spec (len postContent) 30); [lia|reflexivity].
    + intros Hlong Hwords. destruct (Z.gtb_spec (len postContent) 30); [|lia].
      destruct (firstWords_whole (Fields lib postContent) [] ltac:(constructor) Hwords)
        as (k & Hk).
      exists k. exact Hk.
  - intros postContent displayName postDate w uri cid w' Hrun searchContent.
    unfold Bluesky.contentMatch in Hrun.
    destruct (negb (eqs postContent [])); [|discriminate].
    unfold Bluesky.findPostByContentAndName, bind, history, emit, ret in Hrun.
    fold searchContent in Hrun. set (limit := lit "30") in *.
    cbn beta iota in Hrun.
    destruct (searchPosts svc (trace w) searchContent limit) as [err|posts];
      [discriminate|].
    destruct (Bluesky.firstAccepted lib posts searchContent displayName postDate)
      as [[uri' cid']|] eqn:Hacc; [|discriminate].
    simpl in Hrun. destruct (negb (eqs uri' []) && negb (eqs cid' [])); [|discriminate].
    injection Hrun as <- <- <-. split; [reflexivity|].
    destruct (firstAccepted_spec lib posts searchContent displayName postDate
                uri' cid' Hacc) as (post & t & Hin & Hrest).
    exists posts, post, t. split; [reflexivity|]. split; [exact Hin|exact Hrest].
Qed.

Lemma content_match_conditions_witness :
  exists uri cid w',
    (30 < len (Content parentStatus)
     /\ Forall (fun word => word <> []) (Fields sampleLib (Content parentStatus))
     /\ Bluesky.contentMatch findingServices sampleLib
          (Content parentStatus) (lit "Alice") (CreatedAt parentStatus) emptyWorld
        = (Done (Some (uri, cid)), w'))
    /\ Bluesky.searchContentOf sampleLib (Content parentStatus)
       = lit "Good morning from the harbour"
    /\ (exists k,
          Bluesky.searchContentOf sampleLib (Content parentStatus)
          = Join (take k (Fields sampleLib (Content parentStatus))) (lit " "))
    /\ trace w' = [EvSearchPosts (lit "Good morning from the harbour") (lit "30")]
    /\ exists post postCreatedAt,
         Uri post = uri /\ Cid post = cid
         /\ parseRFC3339 sampleLib (RecordCreatedAt post) = Some postCreatedAt
         /\ - (24 * Bluesky.Hour) < postCreatedAt - CreatedAt parentStatus
            < 24 * Bluesky.Hour.
Proof.
  eexists _, _, _.
  assert (H1 : 30 < len (Content parentStatus)) by (vm_compute; reflexivity).
  assert (H2 : Forall (fun word => word <> [])
                 (Fields sampleLib (Content parentStatus)))
    by (vm_compute; repeat constructor; discriminate).
  pose proof (eq_refl : Bluesky.contentMatch findingServices sampleLib
                (Content parentStatus) (lit "Alice") (CreatedAt parentStatus)
                emptyWorld = (Done (Some _), _)) as H3.
  split; [split; [exact H1|split; [exact H2|exact H3]]|].
  split; [vm_compute; reflexivity|].
  destruct (content_match_conditions findingServices sampleLib) as [Hsearch Haccept].
  split; [exact (proj2 (proj2 (proj2 (Hsearch (Content parentStatus)))) H1 H2)|].
  destruct (Haccept _ _ _ _ _ _ _ H3)
    as (Ht & posts & post & t & _ & _ & Huri & Hcid & _ & _ & Hparse & Htime).
  split; [exact Ht|]. exists post, t. auto.
Defined.

End ResolverClaims.

(** * Properties of more of the code *)

(** ** The sizes of the parts of [splitContent] *)

Section Sizes.

Local Open Scope Z_scope.

(** What the loop appends: parts that are not empty, each but the last of
    at least half a window. *)
Lemma splitLoop_sizes eff fuel :
  2 <= eff ->
  forall (remaining : str) (parts : list str),
    (length remaining < fuel)%nat ->
    exists new : list str,
      Splitting.splitLoop fuel eff remaining parts = Done (parts ++ new)
      /\ Forall (fun part => 1 <= len part) new
      /\ (new = [] \/ Z.quot eff 2 * (Z.of_nat (length new) - 1) < len remaining).
Proof.
  intros Heff. induction fuel as [|fuel IH]; intros remaining parts Hfuel; [lia|].
  simpl. destruct (Z.gtb_spec (len remaining) 0) as [Hpos|Hempty].
  - destruct (Z.leb_spec (len remaining) eff) as [Hfits|Hlong].
    + exists [remaining]. split; [reflexivity|].
      split; [constructor; [lia|constructor]|]. right. simpl. lia.
    + destruct (breakPointOf_spec eff remaining ltac:(lia)) as (b & -> & Hb).
      pose proof (quot2_bounds eff Heff) as Hq. simpl.
      rewrite sliceTo_in_range by lia. simpl.
      destruct (advance_spec remaining b ltac:(lia)) as (rest & sp & -> & Hcut & _).
      simpl.
      assert (Htake : length (take (Z.to_nat b) remaining) = Z.to_nat b).
      { rewrite length_take. unfold len in *. lia. }
      assert (Hrest : length remaining
                      = (Z.to_nat b + length (if sp then [space] else []) + length rest)%nat).
      { rewrite Hcut at 1. rewrite !length_app, Htake. lia. }
      destruct (IH rest (parts ++ [take (Z.to_nat b) remaining]) ltac:(lia))
        as (new & Hrun & Hne & Hcount).
      exists (take (Z.to_nat b) remaining :: new).
      rewrite Hrun, <- app_assoc. split; [reflexivity|].
      split; [constructor; [unfold len; lia|exact Hne]|].
      right. simpl length. unfold len in *.
      destruct Hcount as [->|Hcount]; [simpl; lia|]. nia.
  - exists []. rewrite app_nil_r. split; [reflexivity|]. split; [constructor|auto].
Qed.

Lemma addIndicators_inj bodies bodies' :
  Splitting.addIndicators bodies = Splitting.addIndicators bodies' -> bodies = bodies'.
Proof.
  intros H. rewrite <- (stripIndicators_addIndicators bodies), H.
  apply stripIndicators_addIndicators.
Qed.

(** A text of more than 300 bytes, with all that is known of its parts. *)
Lemma splitContent_bodies (content : str) :
  300 < len content ->
  exists bodies : list str,
    Splitting.splitContent content = Done (Splitting.addIndicators bodies)
    /\ Forall (fun body => 1 <= len body
                           /\ len body <= Splitting.effectiveMaxLength content)
         bodies
    /\ (2 <= length bodies)%nat
    /\ Z.quot (Splitting.effectiveMaxLength content) 2
       * (Z.of_nat (length bodies) - 1) < len content.
Proof.
  intros Hlong.
  destruct (splitContent_long content Hlong) as (bodies & Hrun & Hmax & _ & Htwo).
  pose proof (window_bounds content) as Hw.
  destruct (splitLoop_sizes (Splitting.effectiveMaxLength content)
              (S (length content)) ltac:(lia) content [] ltac:(lia))
    as (bodies' & Hloop & Hmin & Hcount).
  assert (bodies' = bodies) as ->.
  { apply addIndicators_inj.
    unfold Splitting.splitContent, Splitting.maxLength in Hrun.
    destruct (Z.leb_spec (len content) 300); [lia|].
    rewrite Hloop in Hrun. simpl in Hrun. congruence. }
  exists bodies. split; [exact Hrun|]. split.
  - apply Forall_forall. intros body Hin. split.
    + exact (proj1 (Forall_forall _ _) Hmin body Hin).
    + exact (proj1 (Forall_forall _ _) Hmax body Hin).
  - split; [exact Htwo|]. destruct Hcount as [->|Hcount]; [simpl in Htwo; lia|exact Hcount].
Qed.

End Sizes.

Section SizeProperties.

Local Open Scope Z_scope.

(** X1.  [splitContent] returns a single part exactly for a text of at
    most 300 bytes, and that part is then the text itself, without an
    indicator. *)
Theorem single_part_iff_short (content : str) (parts : list str) :
  Splitting.splitContent content = Done parts ->
  (length parts = 1%nat <-> len content <= 300)
  /\ (len content <= 300 -> parts = [content]).
Proof.
  intros Hrun. destruct (Z_le_gt_dec (len content) 300) as [Hshort|Hlong].
  - rewrite splitContent_short in Hrun by exact Hshort. injection Hrun as <-.
    split; [split; [intros _; exact Hshort|reflexivity]|reflexivity].
  - destruct (splitContent_long content ltac:(lia)) as (bodies & Hrun' & _ & _ & Htwo).
    rewrite Hrun' in Hrun. injection Hrun as <-.
    rewrite addIndicators_length. split; [split|]; lia.
Qed.

Lemma single_part_iff_short_witness :
  Splitting.splitContent (lit "Hello world") = Done [lit "Hello world"]
  /\ (length [lit "Hello world"] = 1%nat <-> len (lit "Hello world") <= 300).
Proof.
  assert (H : Splitting.splitContent (lit "Hello world") = Done [lit "Hello world"])
    by reflexivity.
  split; [exact H|exact (proj1 (single_part_iff_short _ _ H))].
Defined.

(** A part of what is put back together is a piece of the result. *)
Lemma rejoin_piece (bodies : list str) :
  forall (spaces : list bool) (i : nat) (body : str),
    bodies !! i = Some body ->
    exists before after, rejoin bodies spaces = before ++ body ++ after.
Proof.
  induction bodies as [|first rest IH]; intros spaces i body Hi; [discriminate|].
  destruct i as [|i].
  - injection Hi as ->. destruct spaces as [|b spaces].
    + exists [], (rejoin rest []). reflexivity.
    + exists [], ((if b then [space] else []) ++ rejoin rest spaces).
      rewrite rejoin_cons. reflexivity.
  - cbn in Hi. destruct spaces as [|b spaces].
    + destruct (IH [] i body Hi) as (before & after & Hrest).
      exists (first ++ before), after.
      change (rejoin (first :: rest) []) with (first ++ rejoin rest []).
      rewrite Hrest, <- app_assoc. reflexivity.
    + destruct (IH spaces i body Hi) as (before & after & Hrest).
      exists (first ++ (if b then [space] else []) ++ before), after.
      rewrite rejoin_cons, Hrest, <- !app_assoc. reflexivity.
Qed.

(** X2.  The parts of a text of more than 300 bytes are numbered: part
    number i (from 0) is a piece of the text that is not empty, followed
    by " (i+1/total)", where total is the number of parts returned. *)
Theorem parts_are_numbered (content : str) (parts : list str) (i : nat) (part : str) :
  300 < len content ->
  Splitting.splitContent content = Done parts ->
  parts !! i = Some part ->
  exists body before after,
    body <> []
    /\ content = before ++ body ++ after
    /\ part = body ++ indicator (Z.of_nat i + 1) (Z.of_nat (length parts))
    /\ part = body ++ lit " (" ++ itoa (Z.of_nat i + 1) ++ lit "/"
                   ++ itoa (Z.of_nat (length parts)) ++ lit ")".
Proof.
  intros Hlong Hrun Hi.
  destruct (splitContent_bodies content Hlong) as (bodies & Hrun' & Hall & _ & _).
  destruct (splitContent_long content Hlong) as (bodies' & Hrun'' & _ & Hjoin & _).
  assert (bodies' = bodies) as ->
    by (apply addIndicators_inj; congruence).
  rewrite Hrun' in Hrun. injection Hrun as <-.
  rewrite addIndicators_length.
  apply addIndicators_lookup in Hi as (body & Hbody & ->).
  destruct (rejoin_piece bodies (spacesAt content bodies) i body Hbody)
    as (before & after & Hpiece).
  rewrite Hjoin in Hpiece.
  exists body, before, after. split; [|split; [exact Hpiece|split; reflexivity]].
  pose proof (proj1 (Forall_forall _ _) Hall body
                (proj2 (list_elem_of_lookup _ _) (ex_intro _ i Hbody))) as [Hpos _].
  intros ->. simpl in Hpos. unfold len in Hpos. simpl in Hpos. lia.
Qed.

Lemma parts_are_numbered_witness :
  (300 < len hardCutPost
   /\ Splitting.splitContent hardCutPost
      = Done [rep 294 (lit "a") ++ lit " (1/2)"; rep 7 (lit "a") ++ lit " (2/2)"]
   /\ [rep 294 (lit "a") ++ lit " (1/2)"; rep 7 (lit "a") ++ lit " (2/2)"] !! 1%nat
      = Some (rep 7 (lit "a") ++ lit " (2/2)"))
  /\ exists body before after,
       body <> []
       /\ hardCutPost = before ++ body ++ after
       /\ rep 7 (lit "a") ++ lit " (2/2)" = body ++ indicator 2 2.
Proof.
  assert (H1 : 300 < len hardCutPost) by (vm_compute; reflexivity).
  assert (H2 : Splitting.splitContent hardCutPost
               = Done [rep 294 (lit "a") ++ lit " (1/2)";
                       rep 7 (lit "a") ++ lit " (2/2)"]) by (vm_compute; reflexivity).
  assert (H3 : [rep 294 (lit "a") ++ lit " (1/2)"; rep 7 (lit "a") ++ lit " (2/2)"]
               !! 1%nat = Some (rep 7 (lit "a") ++ lit " (2/2)")) by reflexivity.
  split; [auto|].
  destruct (parts_are_numbered _ _ _ _ H1 H2 H3)
    as (body & before & after & Hne & Hpiece & Hpart & _).
  exists body, before, after. auto.
Defined.

(** X3.  [splitContent] returns at least one part, and the number of
    parts is bounded by the length of the text: 130 * (parts - 1) is less
    than the length, half a window being at least 130 bytes. *)
Theorem number_of_parts_is_bounded (content : str) (parts : list str) :
  Splitting.splitContent content = Done parts ->
  (1 <= length parts)%nat
  /\ 130 * (Z.of_nat (length parts) - 1) < Z.max 1 (len content).
Proof.
  intros Hrun. destruct (Z_le_gt_dec (len content) 300) as [Hshort|Hlong].
  - rewrite splitContent_short in Hrun by exact Hshort. injection Hrun as <-.
    simpl. lia.
  - destruct (splitContent_bodies content ltac:(lia))
      as (bodies & Hrun' & _ & Htwo & Hcount).
    rewrite Hrun' in Hrun. injection Hrun as <-.
    rewrite addIndicators_length.
    pose proof (window_bounds content) as Hw.
    pose proof (quot2_bounds (Splitting.effectiveMaxLength content) ltac:(lia)) as Hq.
    assert (130 <= Z.quot (Splitting.effectiveMaxLength content) 2).
    { rewrite Z.quot_div_nonneg by lia.
      apply Z.div_le_lower_bound; lia. }
    split; [lia|]. nia.
Qed.

Lemma number_of_parts_is_bounded_witness :
  Splitting.splitContent hardCutPost
  = Done [rep 294 (lit "a") ++ lit " (1/2)"; rep 7 (lit "a") ++ lit " (2/2)"]
  /\ 130 * (2 - 1) < Z.max 1 (len hardCutPost).
Proof.
  assert (H : Splitting.splitContent hardCutPost
              = Done [rep 294 (lit "a") ++ lit " (1/2)";
                      rep 7 (lit "a") ++ lit " (2/2)"]) by (vm_compute; reflexivity).
  split; [exact H|exact (proj2 (number_of_parts_is_bounded _ _ H))].
Defined.

End SizeProperties.

Section Reserve.

Local Open Scope Z_scope.

Lemma itoa_one_digit n : 0 <= n <= 9 -> length (itoa n) = 1%nat.
Proof.
  intros Hn. pose proof (itoa_length_pos n).
  pose proof (proj1 (itoa_nonneg_length n 1 ltac:(lia) ltac:(lia)) ltac:(simpl; lia)).
  lia.
Qed.

(** X4.  The reserve for the indicator suffices whenever the number of
    parts has no more digits than the estimate; in particular every part
    of a text of at most 1323 bytes has at most 300 bytes.  (A text of 1625
    bytes can have a part of 301 bytes.) *)
Theorem reserve_suffices (content : str) (parts : list str) :
  Splitting.splitContent content = Done parts ->
  ((length (itoa (Z.of_nat (length parts)))
    <= length (itoa (Splitting.estimatedTotal content)))%nat ->
   Forall (fun part => len part <= 300) parts)
  /\ (len content <= 1323 -> Forall (fun part => len part <= 300) parts).
Proof.
  intros Hrun. split.
  - apply parts_fit_when_estimate_has_the_digits. exact Hrun.
  - intros Hsmall.
    apply (parts_fit_when_estimate_has_the_digits content parts Hrun).
    destruct (Z_le_gt_dec (len content) 300) as [Hshort|Hlong].
    + rewrite splitContent_short in Hrun by exact Hshort. injection Hrun as <-.
      pose proof (itoa_length_pos (Splitting.estimatedTotal content)).
      change (Z.of_nat (length [content])) with 1.
      rewrite (itoa_one_digit 1) by lia. lia.
    + assert (Hest : 0 <= Splitting.estimatedTotal content <= 9).
      { rewrite estimatedTotal_exact by (unfold MaxInt; lia).
        split; [apply Z.div_pos; lia|].
        apply Z.lt_succ_r, Z.div_lt_upper_bound; lia. }
      destruct (splitContent_bodies content ltac:(lia))
        as (bodies & Hrun' & _ & Htwo & Hcount).
      rewrite Hrun' in Hrun. injection Hrun as <-.
      rewrite addIndicators_length.
      assert (Hwin : Splitting.effectiveMaxLength content = 294).
      { unfold Splitting.effectiveMaxLength, Splitting.suffixSize, Splitting.maxLength.
        rewrite indicator_length. unfold len.
        rewrite (itoa_one_digit _ Hest). lia. }
      rewrite Hwin in Hcount. change (Z.quot 294 2) with 147 in Hcount.
      rewrite (itoa_one_digit (Z.of_nat (length bodies))) by lia.
      pose proof (itoa_length_pos (Splitting.estimatedTotal content)). lia.
Qed.

Lemma reserve_suffices_witness :
  (Splitting.splitContent hardCutPost
   = Done [rep 294 (lit "a") ++ lit " (1/2)"; rep 7 (lit "a") ++ lit " (2/2)"]
   /\ len hardCutPost <= 1323)
  /\ Forall (fun part => len part <= 300)
       [rep 294 (lit "a") ++ lit " (1/2)"; rep 7 (lit "a") ++ lit " (2/2)"].
Proof.
  assert (H1 : Splitting.splitContent hardCutPost
               = Done [rep 294 (lit "a") ++ lit " (1/2)";
                       rep 7 (lit "a") ++ lit " (2/2)"]) by (vm_compute; reflexivity).
  assert (H2 : len hardCutPost <= 1323) by (vm_compute; discriminate).
  split; [auto|exact (proj2 (reserve_suffices _ _ H1) H2)].
Defined.

End Reserve.

(** ** What is sent to the creation of records *)

Section Emits.

Context {P : Event -> Prop}.

Lemma emitsOnly_ret {A} (a : A) : emitsOnly P (ret a).
Proof. intros w. exists []. rewrite app_nil_r. auto. Qed.

Lemma emitsOnly_putDb d : emitsOnly P (putDb d).
Proof. intros w. exists []. simpl. rewrite app_nil_r. auto. Qed.

Lemma emitsOnly_keeps {A} (m : M A) : keeps P m -> emitsOnly P m.
Proof. intros H w. destruct (H w) as (_ & evs & Ht & Hp). eauto. Qed.

Lemma emitsOnly_bind {A B} (m : M A) (k : A -> M B) :
  emitsOnly P m -> (forall a, emitsOnly P (k a)) -> emitsOnly P (bind m k).
Proof.
  intros Hm Hk w. unfold bind. destruct (Hm w) as (e1 & Ht1 & Hp1).
  destruct (m w) as [[a| |] w1]; simpl in *; eauto.
  destruct (Hk a w1) as (e2 & Ht2 & Hp2). exists (e1 ++ e2).
  rewrite Ht2, Ht1, app_assoc. split; [reflexivity|]. apply Forall_app; auto.
Qed.

End Emits.

Section Limit.

Variable svc : Services.
Variable lib : GoLib.
Variable cfg : Config.

Local Open Scope Z_scope.

Lemma truncated_within_limit (part : str) : len (Bridge.truncated part) <= 300.
Proof.
  unfold Bridge.truncated. destruct (Z.gtb_spec (len part) 300); [|lia].
  rewrite len_app. unfold len in *. rewrite length_take.
  change (length (lit "...")) with 3%nat. lia.
Qed.

Lemma keeps_deletes {A} (target : A -> str) (xs : list A) P :
  (forall id res, P (EvDeletePost id res)) ->
  keeps P (forEach xs (fun x => bind (Bluesky.DeletePost svc (target x)) (fun _ => ret tt))).
Proof. intros HP. keeps_auto. apply HP. Qed.

Lemma emitsOnly_postParts parts :
  forall i parentUri parentCid lastUri lastCid bskyIDs,
    emitsOnly textWithinLimit
      (Bridge.postParts svc parts i parentUri parentCid lastUri lastCid bskyIDs).
Proof.
  induction parts as [|part parts IH]; intros; simpl; [apply emitsOnly_ret|].
  apply emitsOnly_bind.
  - apply emitsOnly_keeps.
    destruct (_ && _); unfold Bluesky.CreatePost, Bluesky.CreateReply;
      keeps_auto; apply truncated_within_limit.
  - intros [err|result].
    + apply emitsOnly_bind; [|intros; apply emitsOnly_ret].
      apply emitsOnly_keeps. unfold Bridge.cleanUp. keeps_auto. exact I.
    + destruct (Split result "|"%char) as [|a [|b [|x l]]]; apply IH.
Qed.

Lemma emitsOnly_postContent content parentUri parentCid :
  emitsOnly textWithinLimit (Bridge.postContent svc content parentUri parentCid).
Proof.
  unfold Bridge.postContent. apply emitsOnly_bind.
  - apply emitsOnly_keeps, keeps_lift.
  - intros parts. destruct (negb _ && negb _); apply emitsOnly_postParts.
Qed.

Lemma emitsOnly_SavePostMapping id ids :
  emitsOnly textWithinLimit (Bridge.SavePostMapping id ids).
Proof.
  unfold Bridge.SavePostMapping.
  apply emitsOnly_bind; [apply emitsOnly_keeps, keeps_getDb|intros d].
  apply emitsOnly_bind; [apply emitsOnly_keeps, keeps_emit; exact I|intros _].
  apply emitsOnly_putDb.
Qed.

Lemma emitsOnly_SaveContentHash id h :
  emitsOnly textWithinLimit (Bridge.SaveContentHash id h).
Proof.
  unfold Bridge.SaveContentHash.
  apply emitsOnly_bind; [apply emitsOnly_keeps, keeps_getDb|intros d].
  apply emitsOnly_bind; [apply emitsOnly_keeps, keeps_emit; exact I|intros _].
  apply emitsOnly_putDb.
Qed.

Lemma quiet_within_limit e : quiet e -> textWithinLimit e.
Proof. intros [Hc _]. destruct e; simpl in *; try exact I; discriminate. Qed.

Lemma emitsOnly_quiet {A} (m : M A) : keeps quiet m -> emitsOnly textWithinLimit m.
Proof.
  intros H w. destruct (H w) as (_ & evs & Ht & Hp). exists evs. split; [done|].
  eapply Forall_impl; [exact Hp|]. apply quiet_within_limit.
Qed.

Lemma emitsOnly_Lineage post :
  emitsOnly textWithinLimit (Lineage.ProcessPost svc lib cfg post).
Proof.
  unfold Lineage.ProcessPost. destruct (Bridge.skipped _ _ _); [apply emitsOnly_ret|].
  apply emitsOnly_bind; [apply emitsOnly_keeps, keeps_getDb|intros d].
  destruct (Lineage.ownParent d post) as [parentUri parentCid].
  destruct (Db.CheckIfEdit _ _ _) as [[origPostID isEdit] d'].
  apply emitsOnly_bind; [apply emitsOnly_putDb|intros _].
  apply emitsOnly_bind.
  { destruct isEdit; [|apply emitsOnly_ret]. unfold Lineage.deletePrevious.
    apply emitsOnly_bind; [apply emitsOnly_keeps, keeps_getDb|intros d0].
    destruct (Db.GetBlueskyIDsForMastodonPost _ _); [|apply emitsOnly_ret].
    apply emitsOnly_keeps, keeps_deletes. intros; exact I. }
  intros _. apply emitsOnly_bind; [apply emitsOnly_postContent|].
  intros [err|ids]; [apply emitsOnly_ret|].
  apply emitsOnly_bind; [apply emitsOnly_SavePostMapping|intros _].
  apply emitsOnly_bind; [|intros; apply emitsOnly_ret].
  destruct (_ && _); [apply emitsOnly_SavePostMapping|apply emitsOnly_ret].
Qed.

Lemma emitsOnly_Hashed post :
  emitsOnly textWithinLimit (Hashed.ProcessPost svc lib cfg post).
Proof.
  unfold Hashed.ProcessPost. destruct (Bridge.skipped _ _ _); [apply emitsOnly_ret|].
  apply emitsOnly_bind; [apply emitsOnly_keeps, keeps_getDb|intros d].
  destruct (Db.GetContentHash d (ID post)) as [existingHash err].
  destruct (match err with Some _ => _ | None => _ end).
  { apply emitsOnly_bind; [apply emitsOnly_keeps, keeps_lift|intros _].
    apply emitsOnly_ret. }
  apply emitsOnly_bind.
  { destruct (negb _); [|apply emitsOnly_ret].
    apply emitsOnly_quiet, keeps_changed. }
  intros _. apply emitsOnly_bind; [apply emitsOnly_quiet, keeps_resolveParent|].
  intros [[parentUri parentCid]|]; [|apply emitsOnly_ret].
  apply emitsOnly_bind; [apply emitsOnly_postContent|].
  intros [e|ids]; [apply emitsOnly_ret|].
  apply emitsOnly_bind; [apply emitsOnly_SavePostMapping|intros _].
  apply emitsOnly_bind; [apply emitsOnly_SaveContentHash|intros _].
  apply emitsOnly_ret.
Qed.

(** X5.  Whatever the post, the services and the database, every text
    that [ProcessPost] sends to the creation of a record has at most 300
    bytes, in both revisions: a part that [splitContent] returned longer
    is cut before it is sent. *)
Theorem posted_text_within_limit (post : Post) (w : World) :
  (exists evs,
     trace (Lineage.ProcessPost svc lib cfg post w).2 = trace w ++ evs
     /\ Forall textWithinLimit evs)
  /\ (exists evs,
        trace (Hashed.ProcessPost svc lib cfg post w).2 = trace w ++ evs
        /\ Forall textWithinLimit evs).
Proof. split; [apply emitsOnly_Lineage|apply emitsOnly_Hashed]. Qed.

End Limit.

(** ** The thread of the parts *)

Section Thread.

Variable svc : Services.

Lemma threaded_deletes last evs targets :
  Forall2 deletes evs targets -> threaded last evs.
Proof.
  intros H. induction H as [|ev target evs targets [res ->] _ IH]; simpl; auto.
Qed.

Lemma answerOf_fields last u c :
  answerOf last (inr (u, c))
  = match Split (u ++ lit "|" ++ c) "|"%char with
    | [uri; cid] => (uri, cid)
    | _ => last
    end.
Proof.
  unfold answerOf, recorded. cbn [fst snd].
  destruct (Split (u ++ lit "|" ++ c) "|"%char) as [|a [|b [|x l]]] eqn:Hs;
    try reflexivity.
  apply Split_two_fields in Hs as [-> ->]. reflexivity.
Qed.

Lemma postParts_threaded parts :
  forall i parentUri parentCid lastUri lastCid bskyIDs w,
    Nat.eqb i 0 && eqs parentUri [] && eqs parentCid [] = false ->
    exists evs,
      trace (Bridge.postParts svc parts i parentUri parentCid lastUri lastCid
               bskyIDs w).2 = trace w ++ evs
      /\ threaded (lastUri, lastCid) evs
      /\ (parts <> [] ->
          exists text res rest, evs = EvCreateReply text lastCid lastUri res :: rest).
Proof.
  induction parts as [|part parts IH]; intros i pu pc lu lc ids w Hcond.
  - exists []. simpl. rewrite app_nil_r. repeat split; auto. congruence.
  - cbn [Bridge.postParts]. rewrite Hcond. unfold bind at 1.
    unfold Bluesky.CreateReply, bind, history, emit, ret. cbn [fst snd trace db].
    set (text := Bridge.truncated part).
    pose proof (answerOf_fields (lu, lc)) as Hnext.
    destruct (createRecord svc (trace w) text (Some (lc, lu))) as [err|[u c]] eqn:Hres.
    + match goal with |- context [Bridge.cleanUp svc ids ?w1] =>
        destruct (cleanUp_run svc ids w1) as (w' & -> & _ & dels & Ht & Hd) end.
      exists (EvCreateReply text lc lu (inl err) :: dels).
      cbn [fst snd trace] in *. rewrite Ht, <- app_assoc. split; [reflexivity|].
      split; [|eauto]. split; [reflexivity|]. eapply threaded_deletes, Hd.
    + specialize (Hnext u c).
      match goal with |- context [trace (match ?s with _ => _ end ?w1).2] =>
        assert (Hstep : exists evs,
                  trace (match s with
                         | [uri; cid] =>
                             Bridge.postParts svc parts (S i) pu pc uri cid
                               (ids ++ [u ++ lit "|" ++ c])
                         | _ => Bridge.postParts svc parts (S i) pu pc lu lc ids
                         end w1).2 = trace w1 ++ evs
                  /\ threaded (answerOf (lu, lc) (inr (u, c))) evs) end.
      { rewrite Hnext.
        destruct (Split (u ++ lit "|" ++ c) "|"%char) as [|a [|b [|x l]]];
          (edestruct IH as (evs & Ht & Hth & _); [|exists evs; split; [exact Ht|exact Hth]]);
          reflexivity. }
      destruct Hstep as (evs & Ht & Hth).
      exists (EvCreateReply text lc lu (inr (u, c)) :: evs).
      rewrite Ht. cbn [trace]. rewrite <- app_assoc. split; [reflexivity|].
      split; [|eauto]. split; [reflexivity|exact Hth].
Qed.

(** With a parent whose uri and cid are known, the first event is the
    creation of a reply to it. *)
Lemma postContent_reply (content parentUri parentCid : str) (w : World) :
  parentUri <> [] -> parentCid <> [] ->
  exists text res rest,
    trace (Bridge.postContent svc content parentUri parentCid w).2
    = trace w ++ EvCreateReply text parentCid parentUri res :: rest.
Proof.
  intros Hu Hc. unfold Bridge.postContent.
  destruct (splitContent_returns content) as (parts & Hrun & Hne).
  unfold bind at 1. unfold lift. rewrite Hrun.
  assert (Hlast : negb (eqs parentUri []) && negb (eqs parentCid []) = true).
  { unfold eqs. rewrite !bool_decide_eq_false_2 by assumption. reflexivity. }
  rewrite Hlast.
  destruct (postParts_threaded parts 0 parentUri parentCid parentUri parentCid [] w)
    as (evs & Ht & _ & Hfirst).
  { unfold eqs. rewrite (bool_decide_eq_false_2 (parentUri = [])) by assumption.
    reflexivity. }
  destruct (Hfirst Hne) as (text & res & rest & ->). eauto.
Qed.

(** X6.  The parts of a post form one thread.  Without a parent the first
    part is created as a post, and with one as a reply: to the parent
    when both its uri and its cid are known, to the empty reference
    otherwise.  Every later part is a reply to the latest part before it
    whose answer was recorded, and to what the first part replied to
    while there is none. *)
Theorem parts_form_a_thread (content parentUri parentCid : str) (w : World) :
  exists first rest,
    trace (Bridge.postContent svc content parentUri parentCid w).2
    = trace w ++ first :: rest
    /\ if eqs parentUri [] && eqs parentCid [] then
         exists text res,
           first = EvCreatePost text res /\ threaded (answerOf ([], []) res) rest
       else
         let last := if negb (eqs parentUri []) && negb (eqs parentCid [])
                     then (parentUri, parentCid) else ([], []) in
         exists text res,
           first = EvCreateReply text last.2 last.1 res
           /\ threaded (answerOf last res) rest.
Proof.
  unfold Bridge.postContent.
  destruct (splitContent_returns content) as (parts & Hrun & Hne).
  unfold bind at 1. unfold lift. rewrite Hrun.
  destruct parts as [|part parts]; [congruence|].
  destruct (eqs parentUri [] && eqs parentCid []) eqn:Hcond.
  - apply andb_prop in Hcond as [Hu Hc].
    assert (Hlast : negb (eqs parentUri []) && negb (eqs parentCid []) = false)
      by (rewrite Hu; reflexivity).
    rewrite Hlast. cbn [Bridge.postParts]. rewrite Hu, Hc. cbn [Nat.eqb andb].
    unfold bind at 1.
    unfold Bluesky.CreatePost, bind, history, emit, ret. cbn [fst snd trace db].
    set (text := Bridge.truncated part).
    pose proof (answerOf_fields ([], [])) as Hnext.
    destruct (createRecord svc (trace w) text None) as [err|[u c]] eqn:Hres.
    + exists (EvCreatePost text (inl err)), []. split; [reflexivity|].
      exists text, (inl err). split; [reflexivity|exact I].
    + specialize (Hnext u c).
      match goal with |- context [trace (match ?s with _ => _ end ?w1).2] =>
        assert (Hstep : exists evs,
                  trace (match s with
                         | [uri; cid] =>
                             Bridge.postParts svc parts 1 parentUri parentCid uri cid
                               ([] ++ [u ++ lit "|" ++ c])
                         | _ => Bridge.postParts svc parts 1 parentUri parentCid
                                  [] [] []
                         end w1).2 = trace w1 ++ evs
                  /\ threaded (answerOf ([], []) (inr (u, c))) evs) end.
      { rewrite Hnext.
        destruct (Split (u ++ lit "|" ++ c) "|"%char) as [|a [|b [|x l]]];
          (edestruct postParts_threaded as (evs & Ht & Hth & _);
           [|exists evs; split; [exact Ht|exact Hth]]); reflexivity. }
      destruct Hstep as (evs & Ht & Hth).
      exists (EvCreatePost text (inr (u, c))), evs.
      rewrite Ht. cbn [trace]. rewrite <- app_assoc. split; [reflexivity|].
      exists text, (inr (u, c)). split; [reflexivity|exact Hth].
  - set (last := if negb (eqs parentUri []) && negb (eqs parentCid [])
                 then (parentUri, parentCid) else ([], [])).
    destruct last as [lu lc] eqn:Hlast.
    destruct (postParts_threaded (part :: parts) 0 parentUri parentCid lu lc [] w Hcond)
      as (evs & Ht & Hth & Hfirst).
    destruct Hfirst as (text & res & rest & ->); [discriminate|].
    exists (EvCreateReply text lc lu res), rest. split; [exact Ht|].
    exists text, res. split; [reflexivity|]. exact (proj2 Hth).
Qed.

End Thread.

(** ** The tables of the database *)

Section Tables.

Lemma Join_Split (s : str) sep : Join (Split s sep) [sep] = s.
Proof.
  induction s as [|c s IH]; [reflexivity|]. cbn [Split].
  pose proof (Split_nonempty sep s) as Hne.
  destruct (Ascii.eqb_spec c sep) as [->|Hc].
  - destruct (Split s sep) as [|f fs]; [congruence|].
    change (Join ([] :: f :: fs) [sep]) with (sep :: Join (f :: fs) [sep]).
    rewrite IH. reflexivity.
  - destruct (Split s sep) as [|f fs]; [congruence|].
    rewrite <- IH. destruct fs; reflexivity.
Qed.

Lemma Split_Join (ids : list str) sep :
  ids <> [] -> Forall (fun id => sep ∉ id) ids -> Split (Join ids [sep]) sep = ids.
Proof.
  induction ids as [|id ids IH]; [congruence|]. intros _ Hall.
  apply Forall_cons in Hall as [Hid Hall].
  destruct ids as [|id' ids].
  - apply Split_without_sep. exact Hid.
  - change (Join (id :: id' :: ids) [sep]) with (id ++ sep :: Join (id' :: ids) [sep]).
    rewrite Split_at_first_sep by exact Hid. rewrite IH; [reflexivity|discriminate|exact Hall].
Qed.

(** X7.  What [GetBlueskyIDsForMastodonPost] reads after
    [SavePostMapping] joins, by commas, to what was written; it is the list
    that was written when that is not empty and no id has a comma.  The
    empty list is read back as the list of one empty id.  The rows of the
    other posts are as before. *)
Theorem post_mapping_round_trip (d : Database) (mastodonID other : str)
    (bskyIDs : list str) :
  other <> mastodonID ->
  (exists back,
     Db.GetBlueskyIDsForMastodonPost (Db.SavePostMapping d mastodonID bskyIDs)
       mastodonID = Some back
     /\ Join back (lit ",") = Join bskyIDs (lit ",")
     /\ (bskyIDs = [] -> back = [[]])
     /\ (bskyIDs <> [] -> Forall (fun id => ","%char ∉ id) bskyIDs ->
         back = bskyIDs))
  /\ Db.GetBlueskyIDsForMastodonPost (Db.SavePostMapping d mastodonID bskyIDs) other
     = Db.GetBlueskyIDsForMastodonPost d other.
Proof.
  intros Hother. unfold Db.GetBlueskyIDsForMastodonPost, Db.SavePostMapping.
  cbn [post_mappings]. split.
  - rewrite lookup_insert_eq. eexists. split; [reflexivity|].
    split; [apply Join_Split|]. split.
    + intros ->. reflexivity.
    + intros Hne Hall. apply Split_Join; assumption.
  - rewrite lookup_insert_ne by congruence. reflexivity.
Qed.

Lemma post_mapping_round_trip_witness :
  Db.GetBlueskyIDsForMastodonPost
    (Db.SavePostMapping (db emptyWorld) (lit "42") [lit "at://a/b/c|x"; lit "at://a/b/d|y"])
    (lit "42")
  = Some [lit "at://a/b/c|x"; lit "at://a/b/d|y"].
Proof.
  destruct (post_mapping_round_trip (db emptyWorld) (lit "42") (lit "7")
              [lit "at://a/b/c|x"; lit "at://a/b/d|y"] ltac:(discriminate))
    as ((back & -> & _ & _ & Hback) & _).
  f_equal. apply Hback; [discriminate|].
  repeat constructor; vm_compute; intros H; 
    repeat (apply elem_of_cons in H as [H|H]; [discriminate|]); inversion H.
Defined.

(** X8.  The cursor and the content hashes share the table [state] and
    do not meet: each is read back as it was saved, saving one leaves the
    other as it was, and so does saving the hash of another post. *)
Theorem state_keys_are_separate (d : Database) (id postID contentHash other : str) :
  other <> postID ->
  Cursor.GetLastSeenID (Cursor.SaveLastSeenID d id) = id
  /\ Db.GetContentHash (Db.SaveContentHash d postID contentHash) postID
     = (contentHash, None)
  /\ Cursor.GetLastSeenID (Db.SaveContentHash d postID contentHash)
     = Cursor.GetLastSeenID d
  /\ Db.GetContentHash (Cursor.SaveLastSeenID d id) postID
     = Db.GetContentHash d postID
  /\ Db.GetContentHash (Db.SaveContentHash d postID contentHash) other
     = Db.GetContentHash d other.
Proof.
  intros Hother.
  unfold Cursor.GetLastSeenID, Cursor.SaveLastSeenID, Db.GetContentHash,
    Db.SaveContentHash. cbn [state].
  rewrite !lookup_insert_eq.
  rewrite !lookup_insert_ne; [auto| | |].
  - intros H. apply app_inv_head in H. congruence.
  - discriminate.
  - discriminate.
Qed.

Lemma state_keys_are_separate_witness :
  Db.GetContentHash (Db.SaveContentHash (db emptyWorld) (lit "42") (lit "h")) (lit "7")
  = Db.GetContentHash (db emptyWorld) (lit "7").
Proof.
  apply (state_keys_are_separate (db emptyWorld) (lit "1") (lit "42") (lit "h") (lit "7")).
  discriminate.
Defined.

(** X9.  [CheckIfEdit] twice with the same arguments answers and leaves
    the database as once; and the lineage that it wrote for an edit is what
    it answers later, when it is called for that edit without a known
    original. *)
Theorem lineage_is_read_back (d : Database) (mastodonID originalID later : str) :
  let first := Db.CheckIfEdit d mastodonID originalID in
  Db.CheckIfEdit first.2 mastodonID originalID = first
  /\ (originalID <> [] -> originalID <> mastodonID ->
      later = [] \/ later = mastodonID ->
      Db.CheckIfEdit first.2 mastodonID later = ((originalID, true), first.2)).
Proof.
  cbn zeta. unfold Db.CheckIfEdit, eqs. split.
  - destruct (negb _ && negb _) eqn:Hw; cbn [snd].
    + unfold Db.MarkAsEdit. cbn [post_mappings edits state].
      rewrite insert_insert_eq. reflexivity.
    + destruct (edits d !! mastodonID) eqn:Hl; cbn [snd]; rewrite Hl; reflexivity.
  - intros Hne Hdiff Hlater.
    rewrite (bool_decide_eq_false_2 (originalID = [])) by assumption.
    rewrite (bool_decide_eq_false_2 (originalID = mastodonID)) by assumption.
    cbn [negb andb snd].
    match goal with |- context [if ?b then _ else _] =>
      assert (Hread : b = false) end.
    { destruct Hlater as [->| ->]; repeat case_bool_decide;
        try reflexivity; congruence. }
    rewrite Hread. unfold Db.MarkAsEdit. cbn [edits]. rewrite lookup_insert_eq.
    reflexivity.
Qed.

Lemma lineage_is_read_back_witness :
  Db.CheckIfEdit (Db.CheckIfEdit (db emptyWorld) (lit "43") (lit "42")).2 (lit "43") []
  = ((lit "42", true), (Db.CheckIfEdit (db emptyWorld) (lit "43") (lit "42")).2).
Proof.
  apply (proj2 (lineage_is_read_back (db emptyWorld) (lit "43") (lit "42") []));
    [discriminate|discriminate|left; reflexivity].
Defined.

End Tables.

(** ** The posts fetched from the timeline *)

Section Fetched.

Variable cleanHTML : str -> list str -> bool -> str.

Local Open Scope Z_scope.

Lemma collectPosts_spec timeline sinceTime post :
  post ∈ Mastodon.collectPosts cleanHTML timeline sinceTime ->
  exists status,
    status ∈ timeline
    /\ post = Mastodon.postOf cleanHTML status
    /\ Mastodon.StatusVisibility status = lit "public"
    /\ (sinceTime = Mastodon.zeroTime \/ sinceTime <= Mastodon.StatusCreatedAt status).
Proof.
  induction timeline as [|status timeline IH]; cbn [Mastodon.collectPosts];
    [intros H; inversion H|].
  intros Hin.
  assert (Hrest : post ∈ Mastodon.collectPosts cleanHTML timeline sinceTime ->
                  exists status0,
                    status0 ∈ status :: timeline
                    /\ post = Mastodon.postOf cleanHTML status0
                    /\ Mastodon.StatusVisibility status0 = lit "public"
                    /\ (sinceTime = Mastodon.zeroTime
                        \/ sinceTime <= Mastodon.StatusCreatedAt status0)).
  { intros H. destruct (IH H) as (s0 & Hs0 & Hrest). exists s0.
    split; [right; exact Hs0|exact Hrest]. }
  destruct (negb (Mastodon.IsZero sinceTime) && (Mastodon.StatusCreatedAt status <? sinceTime))
    eqn:Hold; [auto|].
  unfold eqs in Hin. case_bool_decide as Hpub; cbn [negb] in Hin; [|auto].
  apply elem_of_cons in Hin as [->|Hin]; [|auto].
  exists status. split; [left|]. split; [reflexivity|]. split; [exact Hpub|].
  apply andb_false_iff in Hold as [Hz|Hlt].
  - left. apply negb_false_iff in Hz. unfold Mastodon.IsZero in Hz. lia.
  - right. lia.
Qed.

(** X10.  Every post that [GetNewPosts] returns is public, was created
    at [sinceTime] or later unless that is the zero time, has no user
    name, and has as its original id either nothing or its own id; a
    reblog in it has no original id.  The posts are in the order of the
    timeline. *)
Theorem fetched_posts (timeline : list Mastodon.Status) (sinceTime : Z) :
  Forall (fun post =>
            Visibility post = lit "public"
            /\ (sinceTime = Mastodon.zeroTime \/ sinceTime <= CreatedAt post)
            /\ Username post = []
            /\ (OriginalID post = [] \/ OriginalID post = ID post)
            /\ (forall reblog, Reblog post = Some reblog -> OriginalID reblog = []))
         (Mastodon.collectPosts cleanHTML timeline sinceTime)
  /\ map ID (Mastodon.collectPosts cleanHTML timeline sinceTime)
     `sublist_of` map Mastodon.StatusID timeline.
Proof.
  split.
  - apply Forall_forall. intros post Hin.
    destruct (collectPosts_spec _ _ _ Hin) as (status & _ & -> & Hpub & Htime).
    cbn. repeat split; try assumption.
    + destruct (negb _); auto.
    + intros reblog. destruct (Mastodon.StatusReblog status); [|discriminate].
      intros [= <-]. reflexivity.
  - induction timeline as [|status timeline IH]; cbn [Mastodon.collectPosts map];
      [constructor|].
    destruct (_ && _); [apply sublist_cons; exact IH|].
    destruct (negb _); [apply sublist_cons; exact IH|].
    cbn [map]. apply sublist_skip. exact IH.
Qed.

(** X11.  A status that replies to nothing, its field [InReplyToID] being
    nil, gives a post without a parent whose text was cleaned as that of
    a reply: the field, an interface value, differs from the string [""]
    unless it holds that string. *)
Theorem nil_parent_is_cleaned_as_reply (status : Mastodon.Status) :
  Mastodon.StatusInReplyToID status = Mastodon.INil ->
  InReplyToID (Mastodon.postOf cleanHTML status) = []
  /\ Content (Mastodon.postOf cleanHTML status)
     = cleanHTML (Mastodon.StatusContent status) (Mastodon.StatusTags status) true.
Proof. intros H. cbn. rewrite H. split; reflexivity. Qed.

End Fetched.

Lemma nil_parent_is_cleaned_as_reply_witness :
  let status :=
    Mastodon.mkStatus (lit "42") (lit "hello") (lit "public") 0 Mastodon.INil []
      Mastodon.zeroTime None in
  InReplyToID (Mastodon.postOf (fun input _ _ => input) status) = []
  /\ Content (Mastodon.postOf (fun input _ _ => input) status) = lit "hello".
Proof.
  apply (nil_parent_is_cleaned_as_reply (fun input _ _ => input)). reflexivity.
Defined.

(** ** Views of the database that a computation leaves alone *)

Section Preserved.

Context {B : Type} (f : Database -> B).

Lemma preserves_ret {A} (a : A) : preserves f (ret a).
Proof. intros w. reflexivity. Qed.

Lemma preserves_keeps {A} P (m : M A) : keeps P m -> preserves f m.
Proof. intros H w. destruct (H w) as [-> _]. reflexivity. Qed.

Lemma preserves_bind {A C} (m : M A) (k : A -> M C) :
  preserves f m -> (forall a, preserves f (k a)) -> preserves f (bind m k).
Proof.
  intros Hm Hk w. unfold bind. specialize (Hm w).
  destruct (m w) as [[a| |] w1]; cbn [snd] in *; auto.
  rewrite Hk. exact Hm.
Qed.

Lemma preserves_putDb {A} (g : Database -> Database) (k : M A) :
  (forall d, f (g d) = f d) -> preserves f k ->
  preserves f (bind getDb (fun d => bind (putDb (g d)) (fun _ => k))).
Proof.
  intros Hg Hk w. unfold bind, getDb, putDb. cbn [fst snd].
  rewrite Hk. cbn [db]. apply Hg.
Qed.

End Preserved.

Section PostContentFrame.

Variable svc : Services.

Lemma keeps_postParts parts :
  forall i parentUri parentCid lastUri lastCid bskyIDs,
    keeps (fun _ => True)
      (Bridge.postParts svc parts i parentUri parentCid lastUri lastCid bskyIDs).
Proof.
  induction parts as [|part parts IH]; intros; cbn [Bridge.postParts];
    [apply keeps_ret|].
  apply keeps_bind.
  - destruct (_ && _); unfold Bluesky.CreatePost, Bluesky.CreateReply;
      keeps_auto; exact I.
  - intros [err|result].
    + apply keeps_bind; [|intros; apply keeps_ret].
      unfold Bridge.cleanUp. keeps_auto. exact I.
    + destruct (Split result "|"%char) as [|a [|b [|x l]]]; apply IH.
Qed.

Lemma keeps_postContent content parentUri parentCid :
  keeps (fun _ => True) (Bridge.postContent svc content parentUri parentCid).
Proof.
  unfold Bridge.postContent. apply keeps_bind; [apply keeps_lift|].
  intros parts. destruct (negb _ && negb _); apply keeps_postParts.
Qed.

Lemma preserves_SavePostMapping {B} (f : Database -> B) id ids :
  (forall d, f (Db.SavePostMapping d id ids) = f d) ->
  preserves f (Bridge.SavePostMapping id ids).
Proof.
  intros Hf w. unfold Bridge.SavePostMapping, bind, getDb, emit, putDb.
  cbn [fst snd db]. apply Hf.
Qed.

End PostContentFrame.

Section NoLineage.

Variable svc : Services.
Variable lib : GoLib.
Variable cfg : Config.

Lemma Lineage_preserves_edits post :
  OriginalID post = [] \/ OriginalID post = ID post ->
  preserves edits (Lineage.ProcessPost svc lib cfg post).
Proof.
  intros Horig. unfold Lineage.ProcessPost.
  destruct (Bridge.skipped _ _ _); [apply preserves_ret|].
  intros w. unfold bind at 1. unfold getDb. cbn [fst snd].
  destruct (Lineage.ownParent (db w) post) as [parentUri parentCid].
  destruct (Db.CheckIfEdit (db w) (ID post) (OriginalID post))
    as [[origPostID isEdit] d'] eqn:Hcheck.
  assert (Hd' : d' = db w).
  { unfold Db.CheckIfEdit, eqs in Hcheck.
    match type of Hcheck with context [if ?b then _ else _] =>
      assert (Hcond : b = false) end.
    { destruct Horig as [H|H]; repeat case_bool_decide; try reflexivity; congruence. }
    rewrite Hcond in Hcheck.
    destruct (edits (db w) !! ID post); congruence. }
  subst d'.
  match goal with |- edits (db (bind (putDb _) ?k w).2) = _ =>
    assert (Hk : preserves edits (k tt)) end.
  { apply preserves_bind.
    { destruct isEdit; [|apply preserves_ret].
      unfold Lineage.deletePrevious.
      apply (preserves_keeps _ (fun _ => True)). keeps_auto. exact I. }
    intros _. apply preserves_bind;
      [apply (preserves_keeps _ (fun _ => True)), keeps_postContent|].
    intros [err|ids]; [apply preserves_ret|].
    apply preserves_bind; [apply preserves_SavePostMapping; reflexivity|intros _].
    apply preserves_bind; [|intros; apply preserves_ret].
    destruct (_ && _); [apply preserves_SavePostMapping; reflexivity|apply preserves_ret]. }
  unfold bind at 1. unfold putDb. cbn [fst snd]. rewrite Hk. reflexivity.
Qed.

(** X12.  With the lineage table, processing a post that [GetNewPosts]
    returned writes no lineage: the table is as before.  When the table
    has no row for the post and the post is mirrored, nothing is deleted,
    whether or not the post was mirrored before. *)
Theorem fetched_post_writes_no_lineage
    (cleanHTML : str -> list str -> bool -> str)
    (timeline : list Mastodon.Status) (sinceTime : Z) (post : Post) (w : World) :
  post ∈ Mastodon.collectPosts cleanHTML timeline sinceTime ->
  edits (db (Lineage.ProcessPost svc lib cfg post w).2) = edits (db w)
  /\ (edits (db w) !! ID post = None ->
      (Lineage.ProcessPost svc lib cfg post w).1 = Done None ->
      deletions (trace (Lineage.ProcessPost svc lib cfg post w).2)
      = deletions (trace w)).
Proof.
  intros Hin.
  assert (Horig : OriginalID post = [] \/ OriginalID post = ID post).
  { destruct (collectPosts_spec _ _ _ _ Hin) as (status & _ & -> & _).
    cbn. destruct (negb _); auto. }
  split; [apply Lineage_preserves_edits; exact Horig|].
  intros Hrow Hdone.
  destruct (Bridge.skipped lib cfg post) eqn:Hskip.
  { unfold Lineage.ProcessPost. rewrite Hskip. reflexivity. }
  assert (Hcheck : Db.CheckIfEdit (db w) (ID post) (OriginalID post)
                   = (([], false), db w)).
  { unfold Db.CheckIfEdit, eqs.
    match goal with |- context [if ?b then _ else _] =>
      assert (Hcond : b = false) end.
    { destruct Horig as [H|H]; repeat case_bool_decide; try reflexivity; congruence. }
    rewrite Hcond, Hrow. reflexivity. }
  destruct (Lineage_ProcessPost_run svc lib cfg post w [] false (db w) Hskip Hcheck)
    as (outcome & w' & pre & before & created & Hrun & Hpre & Hcreated & Hout).
  rewrite Hrun in Hdone |- *. cbn [fst snd] in *.
  injection Hdone as ->. destruct Hout as [Htrace _].
  apply Forall2_nil_inv_r in Hpre as ->.
  apply created_events in Hcreated as (_ & _ & Hnone).
  rewrite Htrace. cbn [andb app]. unfold deletions in *.
  rewrite !omap_app, Hnone. cbn. rewrite app_nil_r. reflexivity.
Qed.

End NoLineage.

Lemma fetched_post_writes_no_lineage_witness :
  let post := Mastodon.postOf keepText editedStatus in
  let after := Lineage.ProcessPost numberedServices sampleLib noFilter post mirroredWorld in
  edits (db after.2) = edits (db mirroredWorld)
  /\ deletions (trace after.2) = deletions (trace mirroredWorld).
Proof.
  cbn zeta.
  destruct (fetched_post_writes_no_lineage numberedServices sampleLib noFilter keepText
              [editedStatus] Mastodon.zeroTime (Mastodon.postOf keepText editedStatus)
              mirroredWorld) as [Hedits Hdel].
  - vm_compute. left.
  - split; [exact Hedits|]. apply Hdel; vm_compute; reflexivity.
Defined.

(** ** The record key of a deletion *)

Section RecordKey.

Lemma Contains_char (s : str) (c : ascii) : Contains s [c] = true <-> c ∈ s.
Proof.
  rewrite Contains_spec. split.
  - intros (before & after & ->). apply elem_of_app. right. left.
  - intros Hin. apply list_elem_of_split in Hin as (before & after & ->). eauto.
Qed.

Lemma Contains_char_false (s : str) (c : ascii) : Contains s [c] = false <-> c ∉ s.
Proof.
  rewrite <- Contains_char. destruct (Contains s [c]); split; congruence.
Qed.

(** The fields of [Split] are cut from the text and have no separator. *)
Lemma Split_fields (s : str) sep :
  Forall (fun field => (sep ∉ field) /\ (forall ch, ch ∈ field -> ch ∈ s)) (Split s sep).
Proof.
  induction s as [|x s IH]; cbn [Split].
  - constructor; [|constructor]. split; [apply not_elem_of_nil|auto].
  - assert (Hrest : Forall (fun field => (sep ∉ field) /\ (forall ch, ch ∈ field -> ch ∈ x :: s))
                      (Split s sep)).
    { eapply Forall_impl; [exact IH|]. intros field [Hsep Hsub].
      split; [exact Hsep|]. intros ch Hc. right. auto. }
    destruct (Ascii.eqb_spec x sep) as [->|Hx].
    + constructor; [|exact Hrest]. split; [apply not_elem_of_nil|].
      intros ch Hc. inversion Hc.
    + pose proof (Split_nonempty sep s) as Hne.
      destruct (Split s sep) as [|field fields]; [congruence|].
      apply Forall_cons in Hrest as [[Hsep Hsub] Hrest].
      constructor; [|exact Hrest]. split.
      * apply not_elem_of_cons. split; [congruence|exact Hsep].
      * intros ch Hc. apply elem_of_cons in Hc as [->|Hc]; [left|auto].
Qed.

Lemma firstField_spec (id : str) :
  exists fields,
    Split id "|"%char = firstField id :: fields
    /\ ("|"%char ∉ firstField id)
    /\ (Contains id (lit "|") = false -> firstField id = id).
Proof.
  unfold firstField. pose proof (Split_nonempty "|"%char id) as Hne.
  pose proof (Split_fields id "|"%char) as Hall.
  destruct (Split id "|"%char) as [|field fields] eqn:Hs; [congruence|].
  apply Forall_cons in Hall as [[Hsep _] _].
  exists fields. split; [reflexivity|]. split; [exact Hsep|].
  intros Hno. apply (Contains_char_false id "|"%char) in Hno.
  rewrite Split_without_sep in Hs by exact Hno. congruence.
Qed.

(** X13.  The three ways in which a stored id ["uri|cid"] reaches
    [DeletePost] end in the same record key, the last segment of the uri,
    when the uri starts with [at://] and has at least four segments: the
    id as it is (after an edit, with the content hash), its first field
    (when what was created is rolled back), and the key taken from it
    beforehand (after an edit, with the lineage table). *)
Theorem deletions_agree_on_the_record_key (id : str) :
  HasPrefix (firstField id) (lit "at://") = true ->
  (4 <= length (Split (firstField id) "/"%char))%nat ->
  exists key,
    last (Split (firstField id) "/"%char) = Some key
    /\ BlueskyMore.recordKeyOf id = key
    /\ BlueskyMore.recordKeyOf (firstField id) = key
    /\ Lineage.parsedID id = key
    /\ BlueskyMore.recordKeyOf key = key.
Proof.
  intros Hat Hfour.
  destruct (firstField_spec id) as (fields & Hsplit & Hpipe & Hwhole).
  set (uri := firstField id) in *.
  pose proof (Split_fields uri "/"%char) as Hsegs.
  destruct (last (Split uri "/"%char)) as [key|] eqn:Hlast;
    [|apply last_None in Hlast; rewrite Hlast in Hfour; simpl in Hfour; lia].
  assert (Hkey : ("/"%char ∉ key) /\ ("|"%char ∉ key)).
  { apply last_Some in Hlast as (front & Hfront). rewrite Hfront in Hsegs.
    apply Forall_app in Hsegs as [_ Hk]. apply Forall_cons in Hk as [[Hslash Hsub] _].
    split; [exact Hslash|]. intros Hin. apply Hpipe, Hsub, Hin. }
  destruct Hkey as [Hslash Hnopipe].
  assert (Huri : BlueskyMore.recordKeyOf uri = key).
  { unfold BlueskyMore.recordKeyOf.
    assert (Hc : Contains uri (lit "|") = false)
      by (apply (Contains_char_false uri "|"%char); exact Hpipe).
    rewrite Hc, Hat.
    rewrite (proj2 (Nat.leb_le _ _) Hfour), Hlast. reflexivity. }
  exists key. split; [reflexivity|]. split; [|split; [exact Huri|split]].
  - destruct (Contains id (lit "|")) eqn:Hc.
    + unfold BlueskyMore.recordKeyOf. rewrite Hc, Hsplit.
      rewrite (proj2 (Nat.leb_le _ _) Hfour), Hlast. reflexivity.
    + rewrite <- (Hwhole eq_refl). exact Huri.
  - unfold Lineage.parsedID. rewrite Hsplit.
    rewrite (proj2 (Nat.leb_le _ _) Hfour), Hlast. reflexivity.
  - unfold BlueskyMore.recordKeyOf.
    assert (Hc : Contains key (lit "|") = false)
      by (apply (Contains_char_false key "|"%char); exact Hnopipe).
    rewrite Hc.
    rewrite (Split_without_sep "/"%char key Hslash).
    destruct (HasPrefix key (lit "at://")); reflexivity.
Qed.

Lemma deletions_agree_on_the_record_key_witness :
  BlueskyMore.recordKeyOf (postUri (lit "3kold") ++ lit "|cidold") = lit "3kold"
  /\ Lineage.parsedID (postUri (lit "3kold") ++ lit "|cidold") = lit "3kold".
Proof.
  destruct (deletions_agree_on_the_record_key (postUri (lit "3kold") ++ lit "|cidold"))
    as (key & Hlast & Hid & _ & Hparsed & _).
  - vm_compute. reflexivity.
  - vm_compute. lia.
  - assert (Hkey : key = lit "3kold")
      by (vm_compute in Hlast; injection Hlast as <-; reflexivity).
    rewrite Hid, Hparsed. auto.
Defined.

End RecordKey.

(** ** The instance of an account *)

Ltac by_computation :=
  match goal with |- ?P => apply (bool_decide_unpack P); vm_compute; exact I end.

Section Instance.

Lemma IndexByte_spec (s : str) (c : ascii) :
  match Mastodon.IndexByte s c with
  | Some i => (c ∉ take i s) /\ exists rest, s = take i s ++ c :: rest
  | None => c ∉ s
  end.
Proof.
  induction s as [|x s IH]; cbn [Mastodon.IndexByte]; [apply not_elem_of_nil|].
  destruct (Ascii.eqb_spec x c) as [->|Hx].
  - split; [apply not_elem_of_nil|]. exists s. reflexivity.
  - destruct (Mastodon.IndexByte s c) as [i|].
    + destruct IH as [Hno [rest Hrest]]. split.
      * cbn [take]. apply not_elem_of_cons. split; [congruence|exact Hno].
      * exists rest. cbn [take app]. rewrite <- Hrest. reflexivity.
    + apply not_elem_of_cons. split; [congruence|exact IH].
Qed.

(** X14.  The instance of a remote account [user@host] is its host,
    empty when the host is; whenever the account has an [@], the server
    of the client plays no part.  For an account without [@] the instance
    is cut from the server, after its scheme if it has one, and has no
    [/]. *)
Theorem instance_of_account (acct defaultServer : str) :
  (forall user host,
     acct = user ++ lit "@" ++ host -> ("@"%char ∉ user) -> ("@"%char ∉ host) ->
     Mastodon.extractInstanceFromAcct acct defaultServer = host)
  /\ (Contains acct (lit "@") = true ->
      forall server,
        Mastodon.extractInstanceFromAcct acct server
        = Mastodon.extractInstanceFromAcct acct defaultServer)
  /\ (Contains acct (lit "@") = false ->
      ("/"%char ∉ Mastodon.extractInstanceFromAcct acct defaultServer)
      /\ exists scheme rest,
           defaultServer
           = scheme ++ Mastodon.extractInstanceFromAcct acct defaultServer ++ rest
           /\ (scheme = [] \/ scheme = lit "https://" \/ scheme = lit "http://")).
Proof.
  split; [|split].
  - intros user host -> Huser Hhost. unfold Mastodon.extractInstanceFromAcct.
    assert (Hc : Contains (user ++ lit "@" ++ host) (lit "@") = true).
    { apply (Contains_char _ "@"%char), elem_of_app. right. left. }
    rewrite Hc. change (user ++ lit "@" ++ host) with (user ++ "@"%char :: host).
    rewrite Split_at_first_sep by exact Huser.
    rewrite Split_without_sep by exact Hhost. reflexivity.
  - intros Hc server. unfold Mastodon.extractInstanceFromAcct. rewrite Hc.
    apply (Contains_char acct "@"%char) in Hc.
    apply Split_length_with_sep in Hc.
    destruct (Split acct "@"%char) as [|user [|host rest]]; simpl in Hc; try lia.
    reflexivity.
  - intros Hc. unfold Mastodon.extractInstanceFromAcct. rewrite Hc.
    set (server := if HasPrefix defaultServer (lit "https://") then drop 8 defaultServer
                   else if HasPrefix defaultServer (lit "http://")
                        then drop 7 defaultServer else defaultServer).
    assert (Hscheme : exists scheme,
               defaultServer = scheme ++ server
               /\ (scheme = [] \/ scheme = lit "https://" \/ scheme = lit "http://")).
    { subst server. destruct (HasPrefix defaultServer (lit "https://")) eqn:Hs.
      - apply HasPrefix_spec in Hs as [rest ->]. exists (lit "https://"). auto.
      - destruct (HasPrefix defaultServer (lit "http://")) eqn:Hp.
        + apply HasPrefix_spec in Hp as [rest ->]. exists (lit "http://"). auto.
        + exists []. auto. }
    destruct Hscheme as (scheme & Hserver & Hscheme).
    pose proof (IndexByte_spec server "/"%char) as Hslash.
    destruct (Mastodon.IndexByte server "/"%char) as [slash|].
    + destruct Hslash as [Hno [rest Hrest]]. split; [exact Hno|].
      exists scheme, ("/"%char :: rest). rewrite <- Hrest. auto.
    + split; [exact Hslash|]. exists scheme, []. rewrite app_nil_r. auto.
Qed.

Lemma instance_of_account_witness :
  Mastodon.extractInstanceFromAcct (lit "alice@example.social")
    (lit "https://mastodon.example/api")
  = lit "example.social"
  /\ Mastodon.extractInstanceFromAcct (lit "alice@") (lit "https://mastodon.example/api")
     = []
  /\ ("/"%char ∉ Mastodon.extractInstanceFromAcct (lit "bob")
                   (lit "https://mastodon.example/api")).
Proof.
  split; [|split].
  - apply (proj1 (instance_of_account (lit "alice@example.social")
                    (lit "https://mastodon.example/api")) (lit "alice"));
      [reflexivity|by_computation|by_computation].
  - apply (proj1 (instance_of_account (lit "alice@")
                    (lit "https://mastodon.example/api")) (lit "alice"));
      [reflexivity|by_computation|by_computation].
  - apply (proj2 (proj2 (instance_of_account (lit "bob")
                           (lit "https://mastodon.example/api")))).
    vm_compute. reflexivity.
Defined.

End Instance.

(** ** The cursor after a batch *)

Section BatchCursor.

Variable process : Post -> M (option error).

Hypothesis process_finishes : forall post, finishes (process post).


End BatchCursor.



(** ** The parent of a reply, from the post mappings *)

Section OwnParent.

Variable svc : Services.
Variable lib : GoLib.

Lemma lastPartOf_joined created :
  recorded created = true -> Bridge.lastPartOf (joined created) = created.
Proof.
  destruct created as [u c]. unfold recorded, Bridge.lastPartOf, joined. cbn [fst snd].
  destruct (Split (u ++ lit "|" ++ c) "|"%char) as [|a [|b [|x l]]] eqn:Hs;
    try discriminate.
  intros _. apply Split_two_fields in Hs as [-> ->]. reflexivity.
Qed.

Lemma parent_from_ids (post : Post) (w : World) (bskyIDs : list str)
    (created : str * str) :
  InReplyToID post <> [] ->
  Db.GetBlueskyIDsForMastodonPost (db w) (InReplyToID post) = Some bskyIDs ->
  last bskyIDs = Some (joined created) ->
  recorded created = true ->
  created.1 <> [] ->
  Hashed.resolveParent svc lib post w = (Done (Some created), w)
  /\ Lineage.ownParent (db w) post = created.
Proof.
  intros Hreply Hget Hlast Hrec Huri. destruct created as [u c]. cbn [fst] in Huri.
  assert (Hcond : negb (eqs (InReplyToID post) []) = true).
  { unfold eqs. case_bool_decide; [contradiction|reflexivity]. }
  unfold Hashed.resolveParent, Lineage.ownParent. rewrite Hcond.
  unfold bind at 1. unfold getDb. cbn [fst snd]. rewrite Hget, Hlast.
  rewrite (lastPartOf_joined (u, c) Hrec). split; [|reflexivity].
  unfold bind, ret. cbn [fst snd].
  unfold eqs. case_bool_decide; [contradiction|reflexivity].
Qed.

(** X16.  A reply whose parent has a post mapping takes its parent from
    it, with no request to a service: after [SavePostMapping] with ids
    without commas, the parent is the last id, when that is a recorded
    answer with a uri.  After [SavePostMapping] with no id at all, the
    later revision skips the reply and the earlier one posts it without a
    parent. *)
Theorem parent_is_read_from_the_mapping (post : Post) (d : Database)
    (t : list Event) (bskyIDs : list str) :
  InReplyToID post <> [] ->
  let w := {| db := Db.SavePostMapping d (InReplyToID post) bskyIDs; trace := t |} in
  (forall created,
     Forall (fun id => ","%char ∉ id) bskyIDs ->
     last bskyIDs = Some (joined created) ->
     recorded created = true ->
     created.1 <> [] ->
     Hashed.resolveParent svc lib post w = (Done (Some created), w)
     /\ Lineage.ownParent (db w) post = created)
  /\ (bskyIDs = [] ->
      Hashed.resolveParent svc lib post w = (Done None, w)
      /\ Lineage.ownParent (db w) post = ([], [])).
Proof.
  intros Hreply w.
  assert (Hcond : negb (eqs (InReplyToID post) []) = true).
  { unfold eqs. case_bool_decide; [contradiction|reflexivity]. }
  assert (Hget : forall back,
             Split (Join bskyIDs (lit ",")) ","%char = back ->
             Db.GetBlueskyIDsForMastodonPost (db w) (InReplyToID post) = Some back).
  { intros back <-. unfold Db.GetBlueskyIDsForMastodonPost, w, Db.SavePostMapping.
    cbn [db post_mappings]. rewrite lookup_insert_eq. reflexivity. }
  split.
  - intros created Hcommas Hlast Hrec Huri.
    assert (Hne : bskyIDs <> []) by (intros ->; discriminate).
    specialize (Hget bskyIDs (Split_Join bskyIDs ","%char Hne Hcommas)).
    apply (parent_from_ids post w bskyIDs); assumption.
  - intros ->. specialize (Hget [[]] eq_refl).
    unfold Hashed.resolveParent, Lineage.ownParent. rewrite Hcond.
    unfold bind at 1. unfold getDb. cbn [fst snd]. rewrite Hget. split; reflexivity.
Qed.

End OwnParent.

Lemma parent_is_read_from_the_mapping_witness :
  let w := {| db := Db.SavePostMapping (db emptyWorld) (lit "109")
                      [postUri (lit "3kold") ++ lit "|cidold"];
              trace := [] |} in
  Hashed.resolveParent numberedServices sampleLib
    (samplePost (lit "110") (lit "hello") (lit "109") []) w
  = (Done (Some (postUri (lit "3kold"), lit "cidold")), w).
Proof.
  apply (proj1 (parent_is_read_from_the_mapping numberedServices sampleLib
                  (samplePost (lit "110") (lit "hello") (lit "109") [])
                  (db emptyWorld) [] [postUri (lit "3kold") ++ lit "|cidold"]
                  ltac:(discriminate)) (postUri (lit "3kold"), lit "cidold")).
  - repeat constructor. by_computation.
  - reflexivity.
  - vm_compute. reflexivity.
  - discriminate.
Defined.

(** ** What [ProcessPost] with the content hash does to the database *)

Section HashedRun.

Variable svc : Services.
Variable lib : GoLib.
Variable cfg : Config.

(** Either the database and the post mappings written are as before, or
    the post was mirrored: its mapping and its hash are written, and
    nothing else. *)
Lemma Hashed_run post w :
  exists r w',
    Hashed.ProcessPost svc lib cfg post w = (r, w')
    /\ ((db w' = db w /\ mappingWrites (trace w') = mappingWrites (trace w))
        \/ exists bskyIDs,
             r = Done None
             /\ db w' = Db.SaveContentHash
                          (Db.SavePostMapping (db w) (ID post) bskyIDs) (ID post)
                          (Hashed.hashPostContent lib (Content post))
             /\ mappingWrites (trace w')
                = mappingWrites (trace w) ++ [(ID post, bskyIDs)])
    /\ ((Db.GetContentHash (db w) (ID post)).1 = []
        \/ (8 <= len (Db.GetContentHash (db w) (ID post)).1)%Z ->
        exists outcome, r = Done outcome).
Proof.
  assert (Hnone : forall w', db w' = db w ->
                    mappingWrites (trace w') = mappingWrites (trace w) ->
                    exists r w'',
                      (Done None : run (option error), w') = (r, w'')
                      /\ ((db w'' = db w
                           /\ mappingWrites (trace w'') = mappingWrites (trace w))
                          \/ exists bskyIDs,
                               r = Done None
                               /\ db w'' = Db.SaveContentHash
                                             (Db.SavePostMapping (db w) (ID post) bskyIDs)
                                             (ID post)
                                             (Hashed.hashPostContent lib (Content post))
                               /\ mappingWrites (trace w'')
                                  = mappingWrites (trace w) ++ [(ID post, bskyIDs)])
                      /\ ((Db.GetContentHash (db w) (ID post)).1 = []
                          \/ (8 <= len (Db.GetContentHash (db w) (ID post)).1)%Z ->
                          exists outcome, r = Done outcome)).
  { intros w' Hdb Hmw. exists (Done None), w'. split; [reflexivity|].
    split; [left; auto|eauto]. }
  unfold Hashed.ProcessPost.
  destruct (Bridge.skipped lib cfg post); [apply Hnone; reflexivity|].
  unfold bind at 1. cbn [getDb fst snd].
  destruct (Db.GetContentHash (db w) (ID post)) as [existingHash err].
  destruct (match err with None => _ | Some _ => _ end).
  { unfold bind, lift. rewrite hash_prefix. apply Hnone; reflexivity. }
  cbn [fst] in *.
  destruct (prelude_run svc lib existingHash (Content post) (ID post) w)
    as [(Hne & Hshort & Hdel)|(_ & w1 & Hdel & Hdb1 & _ & pre1 & Ht1 & Hpre1)];
    unfold bind at 1; rewrite Hdel.
  { exists Panic, w. split; [reflexivity|]. split; [auto|].
    intros [Hempty|Hlong]; [contradiction|lia]. }
  destruct (deleted_events pre1 _ Hpre1) as (_ & _ & _ & Hquiet1).
  assert (Hs1 : steps quiet w w1) by (split; [exact Hdb1|eauto]).
  destruct (finishes_resolveParent svc lib post w1) as (parent & w2 & Hres).
  pose proof (keeps_resolveParent svc lib post w1) as Hs2. rewrite Hres in Hs2.
  cbn [snd] in Hs2. unfold bind at 1. rewrite Hres.
  destruct (quiet_frame _ _ (steps_trans _ _ _ Hs1 Hs2)) as (Hdb2 & _ & Hmw2).
  destruct parent as [[parentUri parentCid]|]; [|apply Hnone; assumption].
  destruct (postContent_run svc (Content post) parentUri parentCid w2)
    as (parts & outcome & w3 & _ & Hrun3 & Hdb3 & before & created & Hbefore & Hout).
  unfold bind at 1. rewrite Hrun3.
  destruct (created_events before created Hbefore) as (_ & Hbm & _).
  destruct outcome as [err'|bskyIDs].
  - exists (Done (Some err')), w3. split; [reflexivity|]. split; [|eauto]. left.
    split; [congruence|].
    destruct Hout as (failed & rollback & Ht3 & Hfail & Hroll & _).
    destruct (deleted_events rollback _ Hroll) as (_ & Hrm & _).
    rewrite Ht3. unfold mappingWrites in *. rewrite !omap_app, Hbm, Hrm, <- Hmw2.
    destruct failed; try discriminate; cbn; rewrite app_nil_r; reflexivity.
  - destruct Hout as (Ht3 & _ & _).
    eexists (Done None), _. split.
    + unfold Bridge.SavePostMapping, Bridge.SaveContentHash,
        bind, getDb, emit, putDb, ret. cbn [fst snd db trace]. reflexivity.
    + split; [|eauto]. right. exists bskyIDs. split; [reflexivity|]. cbn [db trace].
      rewrite Hdb3, Hdb2. split; [reflexivity|].
      rewrite Ht3. unfold mappingWrites in *. rewrite !omap_app, Hbm, <- Hmw2.
      cbn [omap list_omap mappingWrite]. rewrite !app_nil_r. reflexivity.
Qed.

(** X17.  [ProcessPost] with the content hash keeps the invariant that
    every post with a post mapping has a content hash. *)
Theorem mapped_posts_keep_a_hash (post : Post) (w : World) :
  hashesKept (db w) ->
  hashesKept (db (Hashed.ProcessPost svc lib cfg post w).2).
Proof.
  intros Hinv.
  destruct (Hashed_run post w)
    as (r & w' & -> & [[Hdb _]|(ids & _ & Hdb & _)] & _);
    cbn [snd]; rewrite Hdb; [exact Hinv|].
  intros id. unfold Db.SaveContentHash, Db.SavePostMapping.
  cbn [post_mappings state].
  destruct (decide (id = ID post)) as [->|Hne].
  - intros _. rewrite lookup_insert_eq. eauto.
  - rewrite lookup_insert_ne by congruence. intros Hmapped.
    rewrite lookup_insert_ne; [apply Hinv, Hmapped|].
    intros H. apply app_inv_head in H. congruence.
Qed.

(** X18.  [ProcessPost] with the content hash touches the rows of its
    post only: the lineage table, the post mappings of the other posts
    and every other key of the table [state] are as before, the cursor
    among them. *)
Theorem ProcessPost_touches_its_own_rows (post : Post) (w : World) :
  let w' := (Hashed.ProcessPost svc lib cfg post w).2 in
  edits (db w') = edits (db w)
  /\ (forall other, other <> ID post ->
        post_mappings (db w') !! other = post_mappings (db w) !! other)
  /\ (forall key, key <> lit "content_hash_" ++ ID post ->
        state (db w') !! key = state (db w) !! key)
  /\ Cursor.GetLastSeenID (db w') = Cursor.GetLastSeenID (db w).
Proof.
  cbn zeta.
  destruct (Hashed_run post w)
    as (r & w' & -> & [[Hdb _]|(ids & _ & Hdb & _)] & _);
    cbn [snd]; rewrite Hdb; [auto|].
  unfold Cursor.GetLastSeenID, Db.SaveContentHash, Db.SavePostMapping.
  cbn [post_mappings state edits]. split; [reflexivity|]. split; [|split].
  - intros other Hne. rewrite lookup_insert_ne by congruence. reflexivity.
  - intros key Hne. rewrite lookup_insert_ne by congruence. reflexivity.
  - rewrite lookup_insert_ne by discriminate. reflexivity.
Qed.

(** X19.  A run of [ProcessPost] with the content hash that writes a
    post mapping settles the post: processing it again, with the same
    content, changes nothing. *)
Theorem mirrored_post_is_settled (post : Post) (w : World) :
  let w' := (Hashed.ProcessPost svc lib cfg post w).2 in
  mappingWrites (trace w') <> mappingWrites (trace w) ->
  Hashed.ProcessPost svc lib cfg post w' = (Done None, w').
Proof.
  cbn zeta.
  destruct (Hashed_run post w)
    as (r & w' & -> & [[_ Hsame]|(ids & _ & Hdb & _)] & _);
    cbn [snd]; [congruence|].
  intros _. unfold Hashed.ProcessPost.
  destruct (Bridge.skipped lib cfg post); [reflexivity|].
  unfold bind at 1. cbn [getDb fst snd]. rewrite Hdb.
  unfold Db.GetContentHash, Db.SaveContentHash. cbn [state].
  rewrite lookup_insert_eq. unfold eqs.
  rewrite bool_decide_eq_true_2 by reflexivity.
  unfold bind, lift. rewrite hash_prefix. reflexivity.
Qed.

End HashedRun.

Lemma mapped_posts_keep_a_hash_witness :
  hashesKept
    (db (Hashed.ProcessPost numberedServices sampleLib noFilter
           (samplePost (lit "110") (lit "hello") [] []) emptyWorld).2).
Proof.
  apply mapped_posts_keep_a_hash.
  intros id [ids Hids]. cbn in Hids. rewrite lookup_empty in Hids. discriminate.
Defined.

Lemma mirrored_post_is_settled_witness :
  let w' := (Hashed.ProcessPost numberedServices sampleLib noFilter
               (samplePost (lit "110") (lit "hello") [] []) emptyWorld).2 in
  Hashed.ProcessPost numberedServices sampleLib noFilter
    (samplePost (lit "110") (lit "hello") [] []) w'
  = (Done None, w').
Proof.
  apply mirrored_post_is_settled. vm_compute. discriminate.
Defined.

(** ** A reply to a mirrored post *)

Section Continuation.

Variable svc : Services.
Variable lib : GoLib.
Variable cfg : Config.

Lemma bind_extends {A B} (m : M A) (k : A -> M B) (w : World) :
  (forall a, emitsOnly textWithinLimit (k a)) ->
  exists evs, trace (bind m k w).2 = trace (m w).2 ++ evs.
Proof.
  intros Hk. unfold bind. destruct (m w) as [[a| |] w1]; cbn [snd];
    [|exists []; rewrite app_nil_r; reflexivity..].
  destruct (Hk a w1) as (evs & Ht & _). eauto.
Qed.

Lemma Hashed_reply post w bskyIDs u c :
  Bridge.skipped lib cfg post = false ->
  InReplyToID post <> [] ->
  Db.GetBlueskyIDsForMastodonPost (db w) (InReplyToID post) = Some bskyIDs ->
  last bskyIDs = Some (joined (u, c)) ->
  recorded (u, c) = true ->
  u <> [] -> c <> [] ->
  (Db.GetContentHash (db w) (ID post)).1 <> Hashed.hashPostContent lib (Content post) ->
  (Db.GetContentHash (db w) (ID post)).1 = []
  \/ (8 <= len (Db.GetContentHash (db w) (ID post)).1)%Z ->
  exists pre text res rest,
    trace (Hashed.ProcessPost svc lib cfg post w).2
    = trace w ++ pre ++ EvCreateReply text c u res :: rest
    /\ Forall quiet pre.
Proof.
  intros Hskip Hreply Hget Hlast Hrec Hu Hc Hhash Hlong.
  unfold Hashed.ProcessPost. rewrite Hskip.
  unfold bind at 1. cbn [getDb fst snd].
  destruct (Db.GetContentHash (db w) (ID post)) as [existingHash err] eqn:Hstored.
  cbn [fst] in Hhash, Hlong.
  assert (Hdiff : match err with
                  | None => eqs existingHash (Hashed.hashPostContent lib (Content post))
                  | Some _ => false
                  end = false).
  { destruct err; [reflexivity|]. unfold eqs. apply bool_decide_eq_false_2, Hhash. }
  rewrite Hdiff.
  destruct (prelude_run svc lib existingHash (Content post) (ID post) w)
    as [(Hne & Hshort & _)|(_ & w1 & Hdel & Hdb1 & _ & pre & Ht1 & Hdels)];
    [destruct Hlong; [contradiction|lia]|].
  destruct (deleted_events pre _ Hdels) as (_ & _ & _ & Hpre).
  unfold bind at 1. rewrite Hdel.
  rewrite <- Hdb1 in Hget.
  destruct (parent_from_ids svc lib post w1 bskyIDs (u, c) Hreply Hget Hlast Hrec Hu)
    as [Hparent _].
  unfold bind at 1. rewrite Hparent.
  destruct (postContent_reply svc (Content post) u c w1 Hu Hc)
    as (text & res & rest & Ht2).
  match goal with |- context [bind ?m ?k w1] =>
    destruct (bind_extends m k w1) as (evs & Ht3) end.
  { intros [e|ids]; [apply emitsOnly_ret|].
    apply emitsOnly_bind; [apply emitsOnly_SavePostMapping|intros _].
    apply emitsOnly_bind; [apply emitsOnly_SaveContentHash|intros _].
    apply emitsOnly_ret. }
  exists pre, text, res, (rest ++ evs). split; [|exact Hpre].
  rewrite Ht3, Ht2, Ht1, <- !app_assoc. reflexivity.
Qed.

Lemma Lineage_reply post w bskyIDs u c :
  Bridge.skipped lib cfg post = false ->
  InReplyToID post <> [] ->
  Db.GetBlueskyIDsForMastodonPost (db w) (InReplyToID post) = Some bskyIDs ->
  last bskyIDs = Some (joined (u, c)) ->
  recorded (u, c) = true ->
  u <> [] -> c <> [] ->
  exists pre text res rest,
    trace (Lineage.ProcessPost svc lib cfg post w).2
    = trace w ++ pre ++ EvCreateReply text c u res :: rest
    /\ Forall quiet pre.
Proof.
  intros Hskip Hreply Hget Hlast Hrec Hu Hc.
  unfold Lineage.ProcessPost. rewrite Hskip.
  unfold bind at 1. cbn [getDb fst snd].
  destruct (parent_from_ids svc lib post w bskyIDs (u, c) Hreply Hget Hlast Hrec Hu)
    as [_ Hparent].
  rewrite Hparent.
  destruct (Db.CheckIfEdit (db w) (ID post) (OriginalID post))
    as [[origPostID isEdit] d'].
  unfold bind at 1. cbn [putDb fst snd].
  set (w0 := {| db := d'; trace := trace w |}).
  set (del := if isEdit then Lineage.deletePrevious svc origPostID else ret ()).
  assert (Hdel : exists w1 pre,
             del w0 = (Done (), w1) /\ trace w1 = trace w ++ pre /\ Forall quiet pre).
  { subst del. destruct isEdit.
    - destruct (deletePrevious_run svc origPostID w0) as (w1 & Hrun & _ & pre & Ht & Hd).
      exists w1, pre. split; [exact Hrun|]. split; [exact Ht|].
      apply (deleted_events pre _ Hd).
    - exists w0, []. split; [reflexivity|]. cbn [trace w0]. rewrite app_nil_r. auto. }
  destruct Hdel as (w1 & pre & Hdel & Ht1 & Hpre).
  unfold bind at 1. rewrite Hdel.
  destruct (postContent_reply svc (Content post) u c w1 Hu Hc)
    as (text & res & rest & Ht2).
  match goal with |- context [bind ?m ?k w1] =>
    destruct (bind_extends m k w1) as (evs & Ht3) end.
  { intros [e|ids]; [apply emitsOnly_ret|].
    apply emitsOnly_bind; [apply emitsOnly_SavePostMapping|intros _].
    apply emitsOnly_bind; [|intros; apply emitsOnly_ret].
    destruct (_ && _); [apply emitsOnly_SavePostMapping|apply emitsOnly_ret]. }
  exists pre, text, res, (rest ++ evs). split; [|exact Hpre].
  rewrite Ht3, Ht2, Ht1, <- !app_assoc. reflexivity.
Qed.

(** X20.  A reply to a post whose mapping ends in a recorded answer with
    a uri and a cid continues the thread of that post: in both revisions
    the first record that [ProcessPost] creates is a reply to that
    answer, and before it nothing is created and no mapping written.
    (With the content hash: when the hash stored for the reply is not the
    hash of its content and, if there is one, has its 8 bytes; with a
    stored hash of one to seven bytes [ProcessPost] panics instead.) *)
Theorem reply_continues_the_thread (post : Post) (w : World)
    (bskyIDs : list str) (uri cid : str) :
  Bridge.skipped lib cfg post = false ->
  InReplyToID post <> [] ->
  Db.GetBlueskyIDsForMastodonPost (db w) (InReplyToID post) = Some bskyIDs ->
  last bskyIDs = Some (joined (uri, cid)) ->
  recorded (uri, cid) = true ->
  uri <> [] -> cid <> [] ->
  (exists pre text res rest,
     trace (Lineage.ProcessPost svc lib cfg post w).2
     = trace w ++ pre ++ EvCreateReply text cid uri res :: rest
     /\ Forall quiet pre)
  /\ ((Db.GetContentHash (db w) (ID post)).1
      <> Hashed.hashPostContent lib (Content post) ->
      (Db.GetContentHash (db w) (ID post)).1 = []
      \/ (8 <= len (Db.GetContentHash (db w) (ID post)).1)%Z ->
      exists pre text res rest,
        trace (Hashed.ProcessPost svc lib cfg post w).2
        = trace w ++ pre ++ EvCreateReply text cid uri res :: rest
        /\ Forall quiet pre).
Proof.
  intros Hskip Hreply Hget Hlast Hrec Hu Hc. split.
  - eapply Lineage_reply; eassumption.
  - intros Hhash Hlong. eapply Hashed_reply; eassumption.
Qed.

End Continuation.

Lemma reply_continues_the_thread_witness :
  exists pre text res rest,
    trace (Hashed.ProcessPost numberedServices sampleLib noFilter
             (samplePost (lit "110") (lit "hello") (lit "109") []) mirroredWorld).2
    = trace mirroredWorld
      ++ pre ++ EvCreateReply text (lit "cidold") (postUri (lit "3kold")) res :: rest
    /\ Forall quiet pre.
Proof.
  apply (proj2 (reply_continues_the_thread numberedServices sampleLib noFilter
                  (samplePost (lit "110") (lit "hello") (lit "109") []) mirroredWorld
                  [postUri (lit "3kold") ++ lit "|cidold"]
                  (postUri (lit "3kold")) (lit "cidold")
                  ltac:(vm_compute; reflexivity) ltac:(discriminate)
                  ltac:(vm_compute; reflexivity) ltac:(reflexivity)
                  ltac:(vm_compute; reflexivity) ltac:(discriminate)
                  ltac:(discriminate))).
  - vm_compute. discriminate.
  - left. reflexivity.
Defined.

(** ** The lookups of a parent on Bluesky *)

Section Yields.

Lemma yields_ret {A} (Q : A -> Prop) (a : A) : Q a -> yields Q (ret a).
Proof. intros Ha w a' [= <-]. exact Ha. Qed.

Lemma yields_bind {A B} (Q : B -> Prop) (m : M A) (k : A -> M B) :
  (forall a, yields Q (k a)) -> yields Q (bind m k).
Proof.
  intros Hk w b. unfold bind. destruct (m w) as [[a| |] w1]; cbn [fst];
    [apply Hk|discriminate..].
Qed.

Lemma yields_after {A B} (Q1 : A -> Prop) (Q : B -> Prop) (m : M A) (k : A -> M B) :
  yields Q1 m -> (forall a, Q1 a -> yields Q (k a)) -> yields Q (bind m k).
Proof.
  intros Hm Hk w b. unfold bind. specialize (Hm w).
  destruct (m w) as [[a| |] w1]; cbn [fst] in *; [|discriminate..].
  apply Hk, Hm. reflexivity.
Qed.

Lemma within_ret {A} P (a : A) n : within n P (ret a).
Proof. intros w. exists []. rewrite app_nil_r. cbn. repeat split; [constructor|lia]. Qed.

Lemma within_emit P e n : P e -> within (S n) P (emit e).
Proof.
  intros He w. exists [e]. repeat split; [repeat constructor; exact He|cbn; lia].
Qed.

Lemma within_history P n : within n P history.
Proof. intros w. exists []. rewrite app_nil_r. cbn. repeat split; [constructor|lia]. Qed.

Lemma within_bind {A B} P n1 n2 n (m : M A) (k : A -> M B) :
  within n1 P m -> (forall a, within n2 P (k a)) -> (n1 + n2 <= n)%nat ->
  within n P (bind m k).
Proof.
  intros Hm Hk Hn w. unfold bind. destruct (Hm w) as (e1 & Ht1 & Hp1 & Hl1).
  destruct (m w) as [[a| |] w1]; cbn [snd] in *;
    [|exists e1; repeat split; [assumption..|lia]..].
  destruct (Hk a w1) as (e2 & Ht2 & Hp2 & Hl2). exists (e1 ++ e2).
  rewrite Ht2, Ht1, app_assoc. split; [reflexivity|].
  split; [apply Forall_app; auto|]. rewrite length_app. lia.
Qed.

Lemma within_more {A} P n1 n (m : M A) : within n1 P m -> (n1 <= n)%nat -> within n P m.
Proof.
  intros Hm Hn w. destruct (Hm w) as (evs & Ht & Hp & Hl).
  exists evs. repeat split; [assumption..|lia].
Qed.

End Yields.

Section Lookups.

Variable svc : Services.
Variable lib : GoLib.

Lemma usable_complete r found : Bluesky.usable r = Some found -> complete found.
Proof.
  unfold Bluesky.usable, eqs. destruct r as [err|[uri cid]]; [discriminate|].
  repeat case_bool_decide; cbn [negb andb]; try discriminate.
  intros [= <-]. split; assumption.
Qed.

Lemma within_resolveHandle handle : within 1 reads (Bluesky.resolveHandle svc handle).
Proof.
  unfold Bluesky.resolveHandle.
  apply (within_bind _ 0 1); [apply within_history|intros h|lia].
  apply (within_bind _ 1 0); [apply within_emit; exact I|intros _|lia].
  apply within_ret.
Qed.

Lemma within_findPostInUserFeed did id :
  within 1 reads (Bluesky.findPostInUserFeed svc did id).
Proof.
  unfold Bluesky.findPostInUserFeed.
  apply (within_bind _ 0 1); [apply within_history|intros h|lia].
  apply (within_bind _ 1 0); [apply within_emit; exact I|intros _|lia].
  apply within_ret.
Qed.

Lemma within_searchForPost term id : within 1 reads (Bluesky.searchForPost svc term id).
Proof.
  unfold Bluesky.searchForPost.
  apply (within_bind _ 0 1); [apply within_history|intros h|lia].
  apply (within_bind _ 1 0); [apply within_emit; exact I|intros _|lia].
  apply within_ret.
Qed.

Lemma within_contentMatch content name date :
  within 1 reads (Bluesky.contentMatch svc lib content name date).
Proof.
  unfold Bluesky.contentMatch. destruct (negb _); [|apply within_ret].
  apply (within_bind _ 1 0); [|intros; apply within_ret|lia].
  unfold Bluesky.findPostByContentAndName.
  apply (within_bind _ 0 1); [apply within_history|intros h|lia].
  apply (within_bind _ 1 0); [apply within_emit; exact I|intros _|lia].
  apply within_ret.
Qed.

Lemma within_tryHandles handles id :
  within (2 * length handles) reads (Bluesky.tryHandles svc handles id).
Proof.
  induction handles as [|handle rest IH]; cbn [Bluesky.tryHandles]; [apply within_ret|].
  apply (within_bind _ 1 (S (2 * length rest)));
    [apply within_resolveHandle|intros r|cbn [length]; lia].
  destruct r as [err|did]; [eapply within_more; [exact IH|lia]|].
  apply (within_bind _ 1 (2 * length rest));
    [apply within_findPostInUserFeed|intros f|lia].
  destruct (Bluesky.usable f); [apply within_ret|exact IH].
Qed.

Lemma yields_tryHandles handles id :
  yields (fun r => forall found, r = Some found -> complete found)
    (Bluesky.tryHandles svc handles id).
Proof.
  induction handles as [|handle rest IH]; cbn [Bluesky.tryHandles].
  - apply yields_ret. discriminate.
  - apply yields_bind. intros [err|did]; [exact IH|].
    apply yields_bind. intros f. destruct (Bluesky.usable f) as [found|] eqn:Hf; [|exact IH].
    apply yields_ret. intros ? [= <-]. eapply usable_complete, Hf.
Qed.

Lemma yields_contentMatch content name date :
  yields (fun r => forall found, r = Some found -> complete found)
    (Bluesky.contentMatch svc lib content name date).
Proof.
  unfold Bluesky.contentMatch. destruct (negb _); [|apply yields_ret; discriminate].
  apply yields_bind. intros c. apply yields_ret.
  intros found Hf. eapply usable_complete, Hf.
Qed.

Lemma yields_Lookup id user inst content name date :
  yields (fun r => forall found, r = inr found -> complete found)
    (Bluesky.LookupBridgedMastodonPost svc lib id user inst content name date).
Proof.
  unfold Bluesky.LookupBridgedMastodonPost.
  apply yields_bind. intros h. apply yields_bind. intros _.
  destruct (ensureAuth svc h); [apply yields_ret; discriminate|].
  eapply yields_after; [apply yields_tryHandles|]. intros viaHandle Hvia.
  destruct viaHandle as [found|].
  { apply yields_ret. intros ? [= <-]. apply Hvia. reflexivity. }
  apply yields_bind. intros s. destruct (Bluesky.usable s) as [found|] eqn:Hs.
  { apply yields_ret. intros ? [= <-]. eapply usable_complete, Hs. }
  eapply yields_after; [apply yields_contentMatch|]. intros viaContent Hcontent.
  destruct viaContent as [found|]; apply yields_ret; [|discriminate].
  intros ? [= <-]. apply Hcontent. reflexivity.
Qed.

(** X21.  [LookupBridgedMastodonPost] starts with the authentication and
    then only reads: at most ten further requests, for handles, feeds and
    searches; it creates and deletes nothing and leaves the database as it
    was.  What it answers without an error has a uri and a cid, neither
    empty. *)
Theorem lookup_reads_and_answers_complete
    (mastodonPostID mastodonUser mastodonInstance postContent displayName : str)
    (postDate : Z) (w : World) :
  let run := Bluesky.LookupBridgedMastodonPost svc lib mastodonPostID mastodonUser
               mastodonInstance postContent displayName postDate w in
  db run.2 = db w
  /\ (exists requests,
        trace run.2 = trace w ++ EvEnsureAuth :: requests
        /\ Forall reads requests
        /\ (length requests <= 10)%nat)
  /\ (forall found, run.1 = Done (inr found) -> complete found).
Proof.
  cbn zeta. split; [|split].
  - apply (keeps_LookupBridgedMastodonPost svc lib (fun _ => True) I (fun _ => I)
             (fun _ _ => I) (fun _ _ => I)).
  - unfold Bluesky.LookupBridgedMastodonPost, bind at 1, history. cbn [fst snd].
    unfold bind at 1, emit. cbn [fst snd].
    set (w0 := {| db := db w; trace := trace w ++ [EvEnsureAuth] |}).
    destruct (ensureAuth svc (trace w)).
    { exists []. cbn. repeat split; [constructor|lia]. }
    match goal with |- context [trace (?m w0).2] =>
      assert (Hm : within 10 reads m) end.
    { apply (within_bind _ 8 2); [apply (within_tryHandles [_; _; _; _])|intros viaHandle|lia].
      destruct viaHandle; [apply within_ret|].
      apply (within_bind _ 1 1); [apply within_searchForPost|intros s|lia].
      destruct (Bluesky.usable s); [apply within_ret|].
      apply (within_bind _ 1 0); [apply within_contentMatch|intros c|lia].
      destruct c; apply within_ret. }
    destruct (Hm w0) as (evs & Ht & Hp & Hl). exists evs.
    rewrite Ht. cbn [trace w0]. rewrite <- app_assoc. auto.
  - intros found Hrun. exact (yields_Lookup _ _ _ _ _ _ w _ Hrun found eq_refl).
Qed.

Lemma firstLinked_spec feed id found :
  BlueskyMore.firstLinked feed id = Some found ->
  exists item,
    item ∈ feed /\ Contains (ExternalUrl item) id = true
    /\ found = (Uri item, Cid item).
Proof.
  induction feed as [|item feed IH]; cbn [BlueskyMore.firstLinked]; [discriminate|].
  destruct (Contains (ExternalUrl item) id) eqn:Hc.
  - intros [= <-]. exists item. split; [left|auto].
  - intros H. destruct (IH H) as (item' & Hin & Hrest). exists item'.
    split; [right; exact Hin|exact Hrest].
Qed.

(** X22.  [LookupBridgyFedPost] starts with the authentication and then
    makes at most two requests, for the handle [user.instance.ap.brid.gy]
    and for a feed of the account it resolves to; it leaves the database as
    it was.  What it answers without an error is the uri and the cid of a
    record of a feed that the service returned, for an account that is not
    empty, and the link of that record contains the id of the post. *)
Theorem bridgy_lookup_answers_a_linked_record
    (mastodonUser mastodonInstance mastodonPostID : str) (w : World) :
  let run := BlueskyMore.LookupBridgyFedPost svc mastodonUser mastodonInstance
               mastodonPostID w in
  db run.2 = db w
  /\ (exists requests,
        trace run.2 = trace w ++ EvEnsureAuth :: requests
        /\ Forall reads requests
        /\ (length requests <= 2)%nat)
  /\ (forall found,
        run.1 = Done (inr found) ->
        exists h did feed item,
          did <> []
          /\ getAuthorFeed svc h did (lit "100") = inr feed
          /\ item ∈ feed
          /\ Contains (ExternalUrl item) mastodonPostID = true
          /\ found = (Uri item, Cid item)).
Proof.
  cbn zeta. unfold BlueskyMore.LookupBridgyFedPost, bind, history, emit, ret.
  cbn [fst snd].
  destruct (ensureAuth svc (trace w)).
  { cbn [fst snd db trace]. split; [reflexivity|]. split; [|discriminate].
    exists []. repeat split; [constructor|cbn; lia]. }
  cbn [fst snd db trace].
  set (handle := mastodonUser ++ lit "." ++ mastodonInstance ++ lit ".ap.brid.gy").
  destruct (resolveHandleRPC svc _ handle) as [err|did].
  { cbn [fst snd db trace]. split; [reflexivity|]. split; [|discriminate].
    exists [EvResolveHandle handle]. rewrite <- app_assoc.
    repeat split; [repeat constructor|cbn; lia]. }
  unfold eqs. case_bool_decide as Hdid.
  { cbn [fst snd db trace]. split; [reflexivity|]. split; [|discriminate].
    exists [EvResolveHandle handle]. rewrite <- app_assoc.
    repeat split; [repeat constructor|cbn; lia]. }
  cbn [fst snd db trace].
  set (h := (trace w ++ [EvEnsureAuth]) ++ [EvResolveHandle handle]).
  assert (Hrequests : exists requests,
             (h ++ [EvAuthorFeed did (lit "100")]) = trace w ++ EvEnsureAuth :: requests
             /\ Forall reads requests /\ (length requests <= 2)%nat).
  { exists [EvResolveHandle handle; EvAuthorFeed did (lit "100")].
    subst h. rewrite <- !app_assoc. repeat split; [repeat constructor|cbn; lia]. }
  destruct (getAuthorFeed svc h did (lit "100")) as [err|feed] eqn:Hfeed.
  { cbn [fst snd db trace]. split; [reflexivity|]. split; [exact Hrequests|discriminate]. }
  destruct (BlueskyMore.firstLinked feed mastodonPostID) as [linked|] eqn:Hlinked.
  - cbn [fst snd db trace]. split; [reflexivity|]. split; [exact Hrequests|].
    intros found [= <-].
    destruct (firstLinked_spec _ _ _ Hlinked) as (item & Hin & Hc & Hfound).
    exists h, did, feed, item. auto.
  - cbn [fst snd db trace]. split; [reflexivity|]. split; [exact Hrequests|discriminate].
Qed.

End Lookups.

Lemma lookup_reads_and_answers_complete_witness :
  complete (postUri (lit "3kparent"), lit "cidparent").
Proof.
  apply (proj2 (proj2 (lookup_reads_and_answers_complete findingServices sampleLib
                         (lit "55") (lit "alice") (lit "example.social")
                         (Content parentStatus) (lit "Alice")
                         (CreatedAt parentStatus) emptyWorld))).
  vm_compute. reflexivity.
Defined.

Lemma bridgy_lookup_answers_a_linked_record_witness :
  exists h did feed item,
    did <> []
    /\ getAuthorFeed linkingServices h did (lit "100") = inr feed
    /\ item ∈ feed
    /\ Contains (ExternalUrl item) (lit "55") = true
    /\ (postUri (lit "3klinked"), lit "cidlinked") = (Uri item, Cid item).
Proof.
  apply (proj2 (proj2 (bridgy_lookup_answers_a_linked_record linkingServices
                         (lit "alice") (lit "example.social") (lit "55") emptyWorld))).
  vm_compute. reflexivity.
Defined.

(** ** The text for the log *)

Section Log.

Local Open Scope Z_scope.

(** X23.  [truncateForLog] returns at most 50 bytes, and the text itself
    exactly when that has at most 50 bytes; a longer text is cut to its
    first 47 bytes, followed by three dots. *)
Theorem log_text_is_short (text : str) :
  len (truncateForLog text) <= 50
  /\ (truncateForLog text = text <-> len text <= 50)
  /\ (50 < len text -> truncateForLog text = take 47 text ++ lit "...").
Proof.
  unfold truncateForLog. destruct (Z.leb_spec (len text) 50) as [Hshort|Hlong].
  - split; [exact Hshort|]. split; [tauto|lia].
  - assert (Hlen : len (take 47 text ++ lit "...") = 50).
    { rewrite len_app. unfold len in *. rewrite length_take.
      change (length (lit "...")) with 3%nat. lia. }
    split; [lia|]. split; [|reflexivity]. split; [|lia].
    intros Heq. rewrite Heq in Hlen. lia.
Qed.

Lemma log_text_is_short_witness :
  truncateForLog (rep 60 (lit "a")) = take 47 (rep 60 (lit "a")) ++ lit "...".
Proof.
  apply (proj2 (proj2 (log_text_is_short (rep 60 (lit "a"))))).
  vm_compute. reflexivity.
Defined.

End Log.

(** ** Posts that are skipped *)

Section Skipped.

Variable svc : Services.
Variable lib : GoLib.
Variable cfg : Config.

(** X24.  A reblog and a post that is not public are skipped, whatever
    the configuration; and a post that is skipped is left alone by both
    revisions of [ProcessPost]: no error, no event, the same database. *)
Theorem skipped_post_is_left_alone (post : Post) (w : World) :
  (Reblog post <> None \/ Visibility post <> lit "public" ->
   Bridge.skipped lib cfg post = true)
  /\ (Bridge.skipped lib cfg post = true ->
      Lineage.ProcessPost svc lib cfg post w = (Done None, w)
      /\ Hashed.ProcessPost svc lib cfg post w = (Done None, w)).
Proof.
  split.
  - unfold Bridge.skipped, eqs. intros [Hre|Hvis].
    + destruct (Reblog post); [reflexivity|contradiction].
    + destruct (Reblog post); [reflexivity|].
      rewrite (bool_decide_eq_false_2 _ Hvis). reflexivity.
  - intros Hskip. unfold Lineage.ProcessPost, Hashed.ProcessPost. rewrite Hskip. auto.
Qed.

End Skipped.

Lemma skipped_post_is_left_alone_witness :
  Lineage.ProcessPost refusingServices sampleLib noFilter (reblogPost (lit "112"))
    emptyWorld = (Done None, emptyWorld)
  /\ Hashed.ProcessPost refusingServices sampleLib noFilter (reblogPost (lit "112"))
       emptyWorld = (Done None, emptyWorld).
Proof.
  apply (proj2 (skipped_post_is_left_alone refusingServices sampleLib noFilter
                  (reblogPost (lit "112")) emptyWorld)).
  apply (proj1 (skipped_post_is_left_alone refusingServices sampleLib noFilter
                  (reblogPost (lit "112")) emptyWorld)).
  left. discriminate.
Defined.

(** ** The texts that are posted *)

Section Texts.

Variable svc : Services.

Lemma cleanUp_texts bskyIDs w :
  exists evs,
    trace (Bridge.cleanUp svc bskyIDs w).2 = trace w ++ evs
    /\ omap creationText evs = [].
Proof.
  destruct (cleanUp_run svc bskyIDs w) as (w' & -> & _ & evs & Ht & Hd).
  exists evs. split; [exact Ht|]. clear Ht.
  induction Hd as [|ev target evs targets [res ->] _ IH]; [reflexivity|exact IH].
Qed.

Lemma create_text (first : bool) part lastCid lastUri w :
  exists ev res,
    (if first then Bluesky.CreatePost svc part
     else Bluesky.CreateReply svc part lastCid lastUri) w
    = (Done (match res with
             | inl err => inl err
             | inr created => inr (joined created)
             end),
       {| db := db w; trace := trace w ++ [ev] |})
    /\ creationText ev = Some part.
Proof.
  destruct first.
  - exists (EvCreatePost part (createRecord svc (trace w) part None)),
      (createRecord svc (trace w) part None).
    split; [|reflexivity].
    unfold Bluesky.CreatePost, bind, history, emit, ret. cbn [fst snd].
    destruct (createRecord svc (trace w) part None) as [err|[uri cid]]; reflexivity.
  - exists (EvCreateReply part lastCid lastUri
              (createRecord svc (trace w) part (Some (lastCid, lastUri)))),
      (createRecord svc (trace w) part (Some (lastCid, lastUri))).
    split; [|reflexivity].
    unfold Bluesky.CreateReply, bind, history, emit, ret. cbn [fst snd].
    destruct (createRecord svc (trace w) part (Some (lastCid, lastUri)))
      as [err|[uri cid]]; reflexivity.
Qed.

Lemma postParts_texts parts :
  forall i parentUri parentCid lastUri lastCid bskyIDs w,
  exists evs,
    trace (Bridge.postParts svc parts i parentUri parentCid lastUri lastCid
             bskyIDs w).2 = trace w ++ evs
    /\ omap creationText evs `prefix_of` map Bridge.truncated parts
    /\ (forall out,
          (Bridge.postParts svc parts i parentUri parentCid lastUri lastCid
             bskyIDs w).1 = Done (inr out) ->
          omap creationText evs = map Bridge.truncated parts).
Proof.
  induction parts as [|part parts IH]; intros i pu pc lu lc ids w.
  - exists []. cbn. rewrite app_nil_r. auto.
  - cbn [Bridge.postParts map].
    set (text := Bridge.truncated part).
    destruct (create_text (Nat.eqb i 0 && eqs pu [] && eqs pc []) text lc lu w)
      as (ev & res & Hrun & Htext).
    unfold bind at 1 3. rewrite Hrun.
    set (w1 := {| db := db w; trace := trace w ++ [ev] |}).
    destruct res as [err|created].
    + destruct (cleanUp_run svc ids w1) as (w' & Hclean & _ & evs & Ht & Hd).
      unfold bind. rewrite Hclean. cbn [fst snd ret].
      exists (ev :: evs). rewrite Ht. cbn [trace w1]. rewrite <- app_assoc.
      split; [reflexivity|].
      assert (Hnone : omap creationText evs = []).
      { clear Ht. induction Hd as [|e target evs targets [r ->] _ IHd];
          [reflexivity|exact IHd]. }
      cbn [omap list_omap]. rewrite Htext. fold (omap creationText evs).
      rewrite Hnone. split; [|discriminate].
      apply prefix_cons, prefix_nil.
    + assert (Hstep : exists evs,
                 trace (match Split (joined created) "|"%char with
                        | [uri; cid] =>
                            Bridge.postParts svc parts (S i) pu pc uri cid
                              (ids ++ [joined created])
                        | _ => Bridge.postParts svc parts (S i) pu pc lu lc ids
                        end w1).2 = trace w1 ++ evs
                 /\ omap creationText evs `prefix_of` map Bridge.truncated parts
                 /\ (forall out,
                       (match Split (joined created) "|"%char with
                        | [uri; cid] =>
                            Bridge.postParts svc parts (S i) pu pc uri cid
                              (ids ++ [joined created])
                        | _ => Bridge.postParts svc parts (S i) pu pc lu lc ids
                        end w1).1 = Done (inr out) ->
                       omap creationText evs = map Bridge.truncated parts)).
      { destruct (Split (joined created) "|"%char) as [|a [|b [|x l]]]; apply IH. }
      destruct Hstep as (evs & Ht & Hprefix & Hall).
      exists (ev :: evs). rewrite Ht. cbn [trace w1]. rewrite <- app_assoc.
      split; [reflexivity|].
      cbn [omap list_omap]. rewrite Htext. fold (omap creationText evs).
      split; [apply prefix_cons, Hprefix|].
      intros out Hout. f_equal. eapply Hall, Hout.
Qed.

(** X25.  [postContent] posts the parts of the text in order, each once
    and cut to 300 bytes: the texts of the creations are those of a prefix
    of the parts, and of all the parts when it returns without an error. *)
Theorem parts_are_posted_in_order (content parentUri parentCid : str) (w : World) :
  exists parts evs,
    Splitting.splitContent content = Done parts
    /\ trace (Bridge.postContent svc content parentUri parentCid w).2 = trace w ++ evs
    /\ omap creationText evs `prefix_of` map Bridge.truncated parts
    /\ (forall out,
          (Bridge.postContent svc content parentUri parentCid w).1 = Done (inr out) ->
          omap creationText evs = map Bridge.truncated parts).
Proof.
  destruct (splitContent_returns content) as (parts & Hrun & _).
  exists parts. unfold Bridge.postContent, bind at 1 2, lift. rewrite Hrun.
  destruct (negb _ && negb _);
    match goal with |- context [Bridge.postParts svc parts 0 ?pu ?pc ?lu ?lc [] w] =>
      destruct (postParts_texts parts 0 pu pc lu lc [] w) as (evs & Ht & Hp & Hall)
    end; exists evs; auto.
Qed.

End Texts.

(** ** The check for edits *)

Section EditCheckProperties.

Variable svc : Services.
Variable lib : GoLib.
Variable cfg : Config.

Local Open Scope Z_scope.

(** X26.  The check for edits panics at a post whose status is fetched
    and whose stored hash has fewer than 8 bytes and is not the new hash:
    at a post with a mapping and no hash, as the earlier revision leaves
    them, when the hash of the content is not empty. *)
Theorem edit_check_panics_without_hash (id : str) (rest : list str) (post : Post)
    (w : World) :
  getStatus svc (trace w) id = inr post ->
  len (Db.GetContentHash (db w) id).1 < 8 ->
  Hashed.hashPostContent lib (Content post) <> (Db.GetContentHash (db w) id).1 ->
  (EditCheck.checkForEdits svc lib cfg (id :: rest) w).1 = Panic.
Proof.
  intros Hstatus Hshort Hnew.
  unfold EditCheck.checkForEdits. cbn [forEach]. unfold bind at 1.
  unfold EditCheck.checkOne, bind at 1, Hashed.GetPostWithEdits.
  unfold bind at 1, history. cbn [fst snd].
  unfold bind at 1, emit, ret. cbn [fst snd]. rewrite Hstatus.
  unfold bind at 1, getDb. cbn [fst snd db].
  assert (Herr : (Db.GetContentHash (db w) id).2 = None).
  { unfold Db.GetContentHash. destruct (state (db w) !! _); reflexivity. }
  destruct (Db.GetContentHash (db w) id) as [oldContentHash err].
  cbn [fst snd] in *. subst err.
  unfold eqs. rewrite bool_decide_eq_false_2 by exact Hnew. cbn [negb].
  unfold bind at 1, lift, sliceTo.
  destruct (Z.leb_spec 8 (len oldContentHash)); [lia|]. reflexivity.
Qed.

Hypothesis hash_length : forall s, 8 <= len (sha256hex lib s).

(** The invariants of the database that the check relies on. *)
Lemma Hashed_keeps_hashes post w :
  hashesKept (db w) -> hashesLong (db w) ->
  exists outcome w',
    Hashed.ProcessPost svc lib cfg post w = (Done outcome, w')
    /\ hashesKept (db w') /\ hashesLong (db w')
    /\ (forall id, is_Some (post_mappings (db w) !! id) ->
                   is_Some (post_mappings (db w') !! id)).
Proof using hash_length.
  intros Hkept Hlong.
  assert (Hstored : (Db.GetContentHash (db w) (ID post)).1 = []
                    \/ 8 <= len (Db.GetContentHash (db w) (ID post)).1).
  { unfold Db.GetContentHash.
    destruct (state (db w) !! (lit "content_hash_" ++ ID post)) as [hash|] eqn:Hhash;
      [right; exact (Hlong _ _ Hhash)|left; reflexivity]. }
  destruct (Hashed_run svc lib cfg post w) as (r & w' & Hrun & Hdbs & Hdone).
  destruct (Hdone Hstored) as (outcome & ->).
  destruct Hdbs as [[Hdb _]|(ids & _ & Hdb & _)];
    exists outcome, w'; (split; [exact Hrun|]); rewrite Hdb; [auto|].
  unfold Db.SaveContentHash, Db.SavePostMapping. split; [|split].
  - intros id. cbn [post_mappings state].
    destruct (decide (id = ID post)) as [->|Hne].
    + intros _. rewrite lookup_insert_eq. eauto.
    + rewrite lookup_insert_ne by congruence. intros Hmapped.
      rewrite lookup_insert_ne; [apply Hkept, Hmapped|].
      intros H. apply app_inv_head in H. congruence.
  - intros id hash. cbn [state].
    destruct (decide (id = ID post)) as [->|Hne].
    + rewrite lookup_insert_eq. intros [= <-]. apply hash_length.
    + rewrite lookup_insert_ne; [apply Hlong|].
      intros H. apply app_inv_head in H. congruence.
  - intros id Hmapped. cbn [post_mappings].
    destruct (decide (id = ID post)) as [->|Hne].
    + rewrite lookup_insert_eq. eauto.
    + rewrite lookup_insert_ne by congruence. exact Hmapped.
Qed.

Lemma checkOne_safe id w :
  hashesKept (db w) -> hashesLong (db w) ->
  is_Some (post_mappings (db w) !! id) ->
  exists w',
    EditCheck.checkOne svc lib cfg id w = (Done tt, w')
    /\ hashesKept (db w') /\ hashesLong (db w')
    /\ (forall other, is_Some (post_mappings (db w) !! other) ->
                      is_Some (post_mappings (db w') !! other)).
Proof using hash_length.
  intros Hkept Hlong Hmapped.
  unfold EditCheck.checkOne, bind at 1, Hashed.GetPostWithEdits.
  unfold bind at 1, history. cbn [fst snd].
  unfold bind at 1, emit, ret. cbn [fst snd].
  set (w0 := {| db := db w; trace := trace w ++ [EvGetStatus id] |}).
  destruct (getStatus svc (trace w) id) as [err|post]; [exists w0; auto|].
  unfold bind at 1, getDb. cbn [fst snd].
  destruct (Hkept id Hmapped) as [stored Hstored].
  unfold Db.GetContentHash. cbn [db w0]. rewrite Hstored.
  destruct (negb _); [|exists w0; auto].
  unfold bind at 1, lift, sliceTo.
  pose proof (Hlong id stored Hstored) as Hold.
  destruct (Z.leb_spec 8 (len stored)); [|lia]. cbn [andb Z.leb].
  unfold bind at 1. pose proof (hash_length (Content post)) as Hnew.
  unfold Hashed.hashPostContent.
  destruct (Z.leb_spec 8 (len (sha256hex lib (Content post)))); [|lia].
  cbn [andb Z.leb].
  destruct (Hashed_keeps_hashes post w0 Hkept Hlong)
    as (outcome & w' & Hrun & Hkept' & Hlong' & Hmapped').
  unfold bind. rewrite Hrun. exists w'. auto.
Qed.

(** X27.  The check for edits does not panic on a database in which
    every post with a mapping has a content hash and every stored hash has
    at least 8 bytes, the hashes of the library having that length: it
    goes through all the ids, which are ids of posts with a mapping, and
    leaves a database of that kind. *)
Theorem edit_check_is_safe (recentIDs : list str) (w : World) :
  hashesKept (db w) -> hashesLong (db w) ->
  Forall (fun id => is_Some (post_mappings (db w) !! id)) recentIDs ->
  exists w',
    EditCheck.checkForEdits svc lib cfg recentIDs w = (Done tt, w')
    /\ hashesKept (db w') /\ hashesLong (db w').
Proof using hash_length.
  revert w. induction recentIDs as [|id rest IH]; intros w Hkept Hlong Hall.
  - exists w. auto.
  - apply Forall_cons in Hall as [Hid Hrest].
    destruct (checkOne_safe id w Hkept Hlong Hid)
      as (w1 & Hrun & Hkept1 & Hlong1 & Hmapped1).
    destruct (IH w1 Hkept1 Hlong1) as (w' & Hrest' & Hinv).
    { eapply Forall_impl; [exact Hrest|]. intros other. apply Hmapped1. }
    exists w'. split; [|exact Hinv].
    unfold EditCheck.checkForEdits in *. cbn [forEach]. unfold bind.
    rewrite Hrun. exact Hrest'.
Qed.

End EditCheckProperties.

Lemma edit_check_panics_without_hash_witness :
  (EditCheck.checkForEdits numberedServices sampleLib noFilter [lit "109"]
     mirroredWorld).1 = Panic.
Proof.
  apply (edit_check_panics_without_hash numberedServices sampleLib noFilter (lit "109") []
           parentStatus mirroredWorld).
  - reflexivity.
  - vm_compute. reflexivity.
  - vm_compute. discriminate.
Defined.

Lemma edit_check_is_safe_witness :
  exists w',
    EditCheck.checkForEdits numberedServices sampleLib noFilter [lit "110"] settledWorld
    = (Done tt, w')
    /\ hashesKept (db w') /\ hashesLong (db w').
Proof.
  apply (edit_check_is_safe numberedServices sampleLib noFilter).
  - intros s. rewrite sha256hex_length. lia.
  - intros id [ids Hids]. cbn in Hids.
    apply lookup_singleton_Some in Hids as [<- _].
    exists (sha256hex sampleLib (lit "hello")). vm_compute. reflexivity.
  - intros id hash Hhash. cbn in Hhash.
    apply lookup_singleton_Some in Hhash as [_ <-]. vm_compute. discriminate.
  - repeat constructor. exists (postUri (lit "3kold") ++ lit "|cidold").
    vm_compute. reflexivity.
Defined.

(** ** What [ProcessPost] with the lineage table does to the database *)

Section LineageRows.

Variable svc : Services.
Variable lib : GoLib.
Variable cfg : Config.

Lemma CheckIfEdit_state d mastodonID originalID :
  state (Db.CheckIfEdit d mastodonID originalID).2 = state d.
Proof.
  unfold Db.CheckIfEdit. destruct (negb _ && negb _); [reflexivity|].
  destruct (edits d !! mastodonID); reflexivity.
Qed.

(** X28.  [ProcessPost] with the lineage table leaves the table [state]
    as it was: it stores no content hash and does not move the cursor. *)
Theorem Lineage_leaves_the_state (post : Post) (w : World) :
  let w' := (Lineage.ProcessPost svc lib cfg post w).2 in
  state (db w') = state (db w)
  /\ Cursor.GetLastSeenID (db w') = Cursor.GetLastSeenID (db w)
  /\ forall id, Db.GetContentHash (db w') id = Db.GetContentHash (db w) id.
Proof.
  cbn zeta.
  assert (Hstate : state (db (Lineage.ProcessPost svc lib cfg post w).2) = state (db w)).
  { unfold Lineage.ProcessPost.
    destruct (Bridge.skipped _ _ _); [reflexivity|].
    unfold bind at 1. unfold getDb. cbn [fst snd].
    destruct (Lineage.ownParent (db w) post) as [parentUri parentCid].
    pose proof (CheckIfEdit_state (db w) (ID post) (OriginalID post)) as Hcheck.
    destruct (Db.CheckIfEdit (db w) (ID post) (OriginalID post))
      as [[origPostID isEdit] d']. cbn [snd] in Hcheck.
    match goal with |- state (db (bind (putDb _) ?k w).2) = _ =>
      assert (Hk : preserves state (k tt)) end.
    { apply preserves_bind.
      { destruct isEdit; [|apply preserves_ret].
        unfold Lineage.deletePrevious.
        apply (preserves_keeps _ (fun _ => True)). keeps_auto. exact I. }
      intros _. apply preserves_bind;
        [apply (preserves_keeps _ (fun _ => True)), keeps_postContent|].
      intros [err|ids]; [apply preserves_ret|].
      apply preserves_bind; [apply preserves_SavePostMapping; reflexivity|intros _].
      apply preserves_bind; [|intros; apply preserves_ret].
      destruct (_ && _); [apply preserves_SavePostMapping; reflexivity|apply preserves_ret]. }
    unfold bind at 1. unfold putDb. cbn [fst snd]. rewrite Hk. exact Hcheck. }
  split; [exact Hstate|].
  unfold Cursor.GetLastSeenID, Db.GetContentHash. rewrite Hstate. auto.
Qed.

End LineageRows.
